(** * Vessel reconstruction pipeline: a shallow embedding and its properties

    The development follows the Python sources:
    - [utils/geometric_utils.py]  ([compute_tangent]),
    - [utils/plot_utils.py]       ([create_flat_disc], [plot_diameter]),
    - [utils/metrics_utils.py]    ([compute_centerline_metrics],
                                   [compute_mesh_metrics],
                                   [compute_reconstruction_quality_metrics]),
    - [analysis_pipeline.py]      ([enhanced_vessel_reconstruction_analysis]),
    - [visualization_utils.py]    ([mesh_to_plotly], [pcd_to_plotly],
                                   [lineset_to_plotly]),
    - [app.py]                    ([run_analysis]).

    Floating-point numbers are idealised as real numbers, extended with the
    two special values the code relies on ([nan] and [inf]) where the source
    stores them.  Calls into numpy, scipy, scikit-image and Open3D whose
    result is an image-processing or meshing artefact (opening,
    skeletonisation, component labelling, distance transform, marching cubes,
    mesh measurements) are parameters of the model; small numeric library
    routines (linspace, allclose, clip, bincount, argmax, cdist, spanning
    tree, shortest paths, axis-angle rotation) are written out from their
    documented behaviour.  The pauses ([time.sleep]) between stages are left
    out. *)

From Stdlib Require Import Reals Lra Lia ZArith List Ascii String RNsatz.
From stdpp Require Import gmap strings pretty.
Import ListNotations.

Local Open Scope R_scope.

(** ** Exceptions and results *)

Inductive exn : Type :=
| IndexError (index : Z) (axis : nat) (size : Z)
| ValueError (msg : string)
| ExternalError (msg : string).

(** The outcome of running a piece of code: a value, a raised exception, or
    [OutOfFuel] when a loop of the source was cut off by the model's fuel. *)
Inductive result (A : Type) : Type :=
| Ok (a : A)
| Raise (e : exn)
| OutOfFuel.
Arguments Ok {A} a.
Arguments Raise {A} e.
Arguments OutOfFuel {A}.

(** The outcome of a library call: it returns or it raises. *)
Inductive outcome (A : Type) : Type :=
| Returns (a : A)
| Raises (e : exn).
Arguments Returns {A} a.
Arguments Raises {A} e.

Definition call {A} (o : outcome A) : result A :=
  match o with
  | Returns a => Ok a
  | Raises e => Raise e
  end.

(** ** Vectors and 3x3 matrices over the reals *)

Definition vec3 : Type := R * R * R.

Definition vadd (u v : vec3) : vec3 :=
  let '(a, b, c) := u in let '(x, y, z) := v in (a + x, b + y, c + z).
Definition vsub (u v : vec3) : vec3 :=
  let '(a, b, c) := u in let '(x, y, z) := v in (a - x, b - y, c - z).
Definition vscale (k : R) (u : vec3) : vec3 :=
  let '(a, b, c) := u in (k * a, k * b, k * c).
Definition vdiv (u : vec3) (k : R) : vec3 :=
  let '(a, b, c) := u in (a / k, b / k, c / k).
Definition vneg (u : vec3) : vec3 :=
  let '(a, b, c) := u in (- a, - b, - c).
Definition dot (u v : vec3) : R :=
  let '(a, b, c) := u in let '(x, y, z) := v in a * x + b * y + c * z.
Definition cross (u v : vec3) : vec3 :=
  let '(a, b, c) := u in let '(x, y, z) := v in
  (b * z - c * y, c * x - a * z, a * y - b * x).
Definition norm (u : vec3) : R := sqrt (dot u u).
Definition dist (u v : vec3) : R := norm (vsub u v).

Definition mat3 : Type := vec3 * vec3 * vec3.   (* three rows *)

Definition mat3_apply (m : mat3) (v : vec3) : vec3 :=
  let '(r1, r2, r3) := m in (dot r1 v, dot r2 v, dot r3 v).

(** ** Small numpy routines *)

(** [range(a, b)] *)
Definition range (a b : Z) : list Z :=
  map (fun k => (a + Z.of_nat k)%Z) (seq 0 (Z.to_nat (b - a))).

(** [np.linspace(0, stop, num, endpoint=False)]: [num] samples
    [i * (stop / num)]; a negative [num] raises [ValueError]. *)
Definition linspace_open (stop : R) (num : Z) : result (list R) :=
  if (num <? 0)%Z then Raise (ValueError "Number of samples must be non-negative")
  else Ok (map (fun i => IZR i * (stop / IZR num)) (range 0 num)).

Definition rtol : R := 1 / 100000.
Definition atol : R := 1 / 100000000.

(** [np.isclose(a, b)] with the default tolerances. *)
Definition isclose (a b : R) : bool :=
  if Rle_dec (Rabs (a - b)) (atol + rtol * Rabs b) then true else false.

(** [np.allclose] on 3-vectors. *)
Definition allclose (u v : vec3) : bool :=
  let '(a, b, c) := u in let '(x, y, z) := v in
  isclose a x && isclose b y && isclose c z.

(** [np.clip(x, lo, hi)] *)
Definition clip (x lo hi : R) : R := Rmin (Rmax x lo) hi.

Definition Reqb (a b : R) : bool := if Req_dec_T a b then true else false.

(** ** Floats with the special values the code stores *)

Inductive float : Type :=
| Fin (x : R)
| PInf
| NaN.

Definition float_ltb (a b : float) : bool :=
  match a, b with
  | Fin x, Fin y => if Rlt_dec x y then true else false
  | Fin _, PInf => true
  | _, _ => false
  end.

(** Division by a positive finite number. *)
Definition float_div (a : float) (d : R) : float :=
  match a with
  | Fin x => Fin (x / d)
  | PInf => PInf
  | NaN => NaN
  end.

Definition float_add (a : float) (w : R) : float :=
  match a with
  | Fin x => Fin (x + w)
  | other => other
  end.

(** ** The world the pipeline acts on, and its monad *)

Record plot_call : Type := mkPlot {
  plot_diameters : list R;
  plot_file : string
}.

Record world : Type := mkWorld {
  status : list string;        (* messages handed to [status_callback] *)
  plots : list plot_call;      (* diagnostic plots written *)
  stderr : list exn            (* tracebacks printed *)
}.

Definition M (A : Type) : Type := world -> result A * world.

Global Instance result_ret : MRet result := fun A a => Ok a.
Global Instance result_bind : MBind result := fun A B f m =>
  match m with
  | Ok a => f a
  | Raise e => Raise e
  | OutOfFuel => OutOfFuel
  end.

Global Instance M_ret : MRet M := fun A a w => (Ok a, w).
Global Instance M_bind : MBind M := fun A B f m w =>
  match m w with
  | (Ok a, w') => f a w'
  | (Raise e, w') => (Raise e, w')
  | (OutOfFuel, w') => (OutOfFuel, w')
  end.

Definition lift {A} (r : result A) : M A := fun w => (r, w).

(** [try: body except Exception as e: handler e] *)
Definition try_except {A} (body : M A) (handler : exn -> M A) : M A := fun w =>
  match body w with
  | (Raise e, w') => handler e w'
  | other => other
  end.

(** The computation does not exhaust the fuel of the model. *)
Definition terminates {A} (m : M A) : Prop := forall w, fst (m w) <> OutOfFuel.

Definition status_callback (msg : string) : M unit := fun w =>
  (Ok tt, mkWorld (status w ++ [msg]) (plots w) (stderr w)).

Definition print_exc (e : exn) : M unit := fun w =>
  (Ok tt, mkWorld (status w) (plots w) (stderr w ++ [e])).

(** The computation only appends to the status messages. *)
Definition appends_status {A} (m : M A) : Prop :=
  forall w, exists msgs, status (snd (m w)) = status w ++ msgs.

(** ** Python sequences *)

(** [l[i]], with negative indices counted from the end. *)
Definition getitem {A} (l : list A) (i : Z) : result A :=
  let n := Z.of_nat (length l) in
  let j := if (i <? 0)%Z then (i + n)%Z else i in
  if ((0 <=? j) && (j <? n))%Z then
    match nth_error l (Z.to_nat j) with
    | Some x => Ok x
    | None => Raise (IndexError i 0 n)
    end
  else Raise (IndexError i 0 n).

Definition enumerate {A} (l : list A) : list (nat * A) :=
  combine (seq 0 (length l)) l.

Definition Rsum (l : list R) : R := fold_right Rplus 0 l.

(** [np.min], [np.max], [np.mean] of a non-empty array. *)
Definition np_min (l : list R) : R :=
  match l with [] => 0 | x :: l' => fold_left Rmin l' x end.
Definition np_max (l : list R) : R :=
  match l with [] => 0 | x :: l' => fold_left Rmax l' x end.
Definition np_mean (l : list R) : R := Rsum l / INR (length l).

Fixpoint insert_sorted (x : R) (l : list R) : list R :=
  match l with
  | [] => [x]
  | y :: l' => if Rle_dec x y then x :: l else y :: insert_sorted x l'
  end.
Definition np_sort (l : list R) : list R := fold_right insert_sorted [] l.

(** [np.median]: the middle of the sorted values, or the mean of the two
    middle ones. *)
Definition np_median (l : list R) : R :=
  let s := np_sort l in
  let n := length s in
  if Nat.even n then (nth (n / 2 - 1) s 0 + nth (n / 2) s 0) / 2
  else nth (n / 2) s 0.

(** [np.argmax] and [np.max] in one pass: the first index holding the maximum,
    and the maximum.  [(best_i, best)] is the candidate so far and [i] the
    index of the head of [l]. *)
Fixpoint argmax_from {A} (ltb : A -> A -> bool) (best_i : nat) (best : A) (i : nat)
    (l : list A) : nat * A :=
  match l with
  | [] => (best_i, best)
  | y :: l' =>
    if ltb best y then argmax_from ltb i y (S i) l'
    else argmax_from ltb best_i best (S i) l'
  end.

Definition Rltb (a b : R) : bool := if Rlt_dec a b then true else false.

Definition np_argmax (l : list R) : nat :=
  match l with [] => 0%nat | x :: l' => fst (argmax_from Rltb 0%nat x 1%nat l') end.
Definition float_argmax (l : list float) : nat :=
  match l with [] => 0%nat | x :: l' => fst (argmax_from float_ltb 0%nat x 1%nat l') end.
Definition float_max (l : list float) : float :=
  match l with [] => NaN | x :: l' => snd (argmax_from float_ltb 0%nat x 1%nat l') end.

(** [np.bincount] of non-negative integers. *)
Definition bincount (xs : list nat) : list nat :=
  match xs with
  | [] => []
  | _ => map (fun v => count_occ Nat.eq_dec xs v) (seq 0 (S (list_max xs)))
  end.

(** ** Three-dimensional arrays *)

Definition voxel : Type := Z * Z * Z.

Record ndarray3 (A : Type) : Type := mkArray {
  shape : nat * nat * nat;
  data : voxel -> A
}.
Arguments mkArray {A} shape data.
Arguments shape {A} _.
Arguments data {A} _ _.

(** The indices of an array of the given shape, in row-major order. *)
Definition indices (sh : nat * nat * nat) : list voxel :=
  let '(n0, n1, n2) := sh in
  flat_map (fun i =>
    flat_map (fun j =>
      map (fun k => (i, j, k)) (range 0 (Z.of_nat n2)))
      (range 0 (Z.of_nat n1)))
    (range 0 (Z.of_nat n0)).

Definition ravel {A} (a : ndarray3 A) : list A := map (data a) (indices (shape a)).
Definition np_any (m : ndarray3 bool) : bool := existsb (fun b => b) (ravel m).
Definition argwhere (m : ndarray3 bool) : list voxel :=
  List.filter (data m) (indices (shape m)).

(** [volume == label] *)
Definition eq_label (volume : ndarray3 Z) (l : Z) : ndarray3 bool :=
  mkArray (shape volume) (fun v => (data volume v =? l)%Z).

(** One axis of [a[i, j, k]]: the effective index, or [IndexError]. *)
Definition axis_index (axis : nat) (i : Z) (n : nat) : result Z :=
  let n := Z.of_nat n in
  let j := if (i <? 0)%Z then (i + n)%Z else i in
  if ((0 <=? j) && (j <? n))%Z then Ok j else Raise (IndexError i axis n).

Definition getitem3 {A} (a : ndarray3 A) (v : voxel) : result A :=
  let '(i, j, k) := v in
  let '(n0, n1, n2) := shape a in
  i' ← axis_index 0 i n0;
  j' ← axis_index 1 j n1;
  k' ← axis_index 2 k n2;
  Ok (data a (i', j', k')).

Definition voxel_to_vec (v : voxel) : vec3 :=
  let '(i, j, k) := v in (IZR i, IZR j, IZR k).

(** ** Affine transforms *)

Definition row4 : Type := R * R * R * R.
Definition mat4 : Type := row4 * row4 * row4 * row4.

(** [(affine @ [p, 1].T)[:3]] *)
Definition affine_apply (m : mat4) (p : vec3) : vec3 :=
  let '(r0, r1, r2, _) := m in
  let '(x, y, z) := p in
  let app := fun r : row4 => let '(a, b, c, d) := r in a * x + b * y + c * z + d * 1 in
  (app r0, app r1, app r2).

(** [np.linalg.norm(affine[:3, :3], axis=0)]: the norms of the columns of the
    linear part. *)
Definition voxel_spacing_of (m : mat4) : vec3 :=
  let '((a00, a01, a02, _), (a10, a11, a12, _), (a20, a21, a22, _), _) := m in
  (norm (a00, a10, a20), norm (a01, a11, a21), norm (a02, a12, a22)).

(** ** Triangle meshes *)

Record TriangleMesh : Type := mkMesh {
  vertices : list vec3;
  triangles : list (Z * Z * Z)
}.

Definition mesh_rotate (m : mat3) (mesh : TriangleMesh) : TriangleMesh :=
  mkMesh (map (mat3_apply m) (vertices mesh)) (triangles mesh).

Definition mesh_translate (t : vec3) (mesh : TriangleMesh) : TriangleMesh :=
  mkMesh (map (fun v => vadd v t) (vertices mesh)) (triangles mesh).

(** ** [utils/plot_utils.py]: the disc builder *)

Module Disc.

(** The Rodrigues matrix for a unit axis [k] and the cosine and sine of the
    angle. *)
Definition rodrigues (k : vec3) (c s : R) : mat3 :=
  let '(k1, k2, k3) := k in
  ((c + (1 - c) * k1 * k1, (1 - c) * k1 * k2 - s * k3, (1 - c) * k1 * k3 + s * k2),
   ((1 - c) * k2 * k1 + s * k3, c + (1 - c) * k2 * k2, (1 - c) * k2 * k3 - s * k1),
   ((1 - c) * k3 * k1 - s * k2, (1 - c) * k3 * k2 + s * k1, c + (1 - c) * k3 * k3)).

(** Open3D's [get_rotation_matrix_from_axis_angle(w)]: the rotation of angle
    [|w|] about [w / |w|], as the Rodrigues matrix
    [cos t * I + sin t * [k]x + (1 - cos t) * k k^T]. *)
Definition get_rotation_matrix_from_axis_angle (w : vec3) : mat3 :=
  let t := norm w in rodrigues (vdiv w t) (cos t) (sin t).

Definition z_axis : vec3 := (0, 0, 1).

(** Lines 57-62 of the source: the direction actually used. *)
Definition unit_normal (normal : vec3) : vec3 :=
  if Reqb (norm normal) 0 then (0, 0, 1) else vdiv normal (norm normal).

(** Lines 77-92: the rotation applied to the flat disc, if any. *)
Definition disc_rotation (normal : vec3) : option mat3 :=
  if negb (allclose normal z_axis) then
    let axis := cross z_axis normal in
    let axis :=
      if Reqb (norm axis) 0 then
        (if allclose normal (vneg z_axis) then (1, 0, 0) else (0, 1, 0))
      else vdiv axis (norm axis) in
    let angle := acos (clip (dot z_axis normal) (-1) 1) in
    Some (get_rotation_matrix_from_axis_angle (vscale angle axis))
  else None.

Definition create_flat_disc (center : vec3) (radius : R) (normal : vec3)
    (resolution : Z) : result TriangleMesh :=
  let normal := unit_normal normal in
  angles ← linspace_open (2 * PI) resolution;
    let circle_points := map (fun a => vscale radius (cos a, sin a, 0)) angles in
    let vertices := (0, 0, 0) :: circle_points in
    let triangles :=
      map (fun i => (0, i, i + 1)%Z) (range 1 resolution) ++ [(0, resolution, 1)%Z] in
    let mesh := mkMesh vertices triangles in
    let mesh :=
      match disc_rotation normal with
      | Some R => mesh_rotate R mesh
      | None => mesh
      end in
    Ok (mesh_translate center mesh).

(** What the disc is expected to satisfy.  A rim vertex lies at distance
    [radius] from [center], in the plane through [center] orthogonal to [n];
    when the source skips the rotation because [n] is within [allclose] of the
    z axis, the plane is met up to that tolerance. *)
Definition on_disc_rim (center : vec3) (radius : R) (n v : vec3) : Prop :=
  dist v center = radius
  /\ Rabs (dot (vsub v center) n) <= 2 * atol * radius
  /\ (allclose n z_axis = false -> dot (vsub v center) n = 0).

(** Every vertex of the mesh at distance [radius] from [center], up to the
    [isclose] tolerance. *)
Definition all_vertices_at_radius (center : vec3) (radius : R) (normal : vec3)
    (resolution : Z) : Prop :=
  forall mesh v,
    create_flat_disc center radius normal resolution = Ok mesh ->
    In v (vertices mesh) -> isclose (dist v center) radius = true.

End Disc.

(** ** [utils/geometric_utils.py] *)

Definition compute_tangent (pts : list vec3) (i : Z) : result vec3 :=
  if (i =? 0)%Z then
    a ← getitem pts (i + 1); b ← getitem pts i; Ok (vsub a b)
  else if (i =? Z.of_nat (length pts) - 1)%Z then
    a ← getitem pts i; b ← getitem pts (i - 1); Ok (vsub a b)
  else
    a ← getitem pts (i + 1); b ← getitem pts (i - 1); Ok (vsub a b).

(** ** The image-processing and meshing libraries *)

(** scipy.ndimage, scikit-image and Open3D routines whose results the
    pipeline consumes.  They are total here unless the pipeline relies on
    their raising. *)
Class ImageLib : Type := {
  (* skimage.morphology.binary_opening with
     ndimage.generate_binary_structure(3, connectivity) as footprint *)
  binary_opening : ndarray3 bool -> nat -> ndarray3 bool;
  (* skimage.morphology.skeletonize *)
  skeletonize : ndarray3 bool -> ndarray3 bool;
  (* scipy.ndimage.label: the labelled array and the number of components *)
  label : ndarray3 bool -> ndarray3 nat * Z;
  (* scipy.ndimage.distance_transform_edt(mask, sampling); the result has the
     shape of the mask and is read at voxels of that shape *)
  distance_transform_edt : ndarray3 bool -> vec3 -> voxel -> R;
  (* np.pad(mask, pad_width, mode="constant", constant_values=0) *)
  np_pad : ndarray3 bool -> Z -> ndarray3 bool;
  (* scipy.ndimage.binary_fill_holes *)
  binary_fill_holes : ndarray3 bool -> ndarray3 bool;
  (* scipy.ndimage.gaussian_filter(mask.astype(float), sigma) *)
  gaussian_filter : ndarray3 bool -> R -> ndarray3 R;
  (* skimage.measure.marching_cubes(volume, level, spacing): vertices and
     faces; raises when the level is outside the data range *)
  marching_cubes : ndarray3 R -> R -> vec3 -> outcome (list vec3 * list (Z * Z * Z))
}.

(** ** [utils/plot_utils.py]: the diameter plot *)

Definition replace_spaces (s : string) : string :=
  string_of_list_ascii
    (map (fun c => if Ascii.eqb c " "%char then "_"%char else c) (list_ascii_of_string s)).

Definition path_join (a b : string) : string := a +:+ "/" +:+ b.

(** [plot_diameter]: writes the profile to [output_dir / name_with_underscores.png]
    and returns that path. *)
Definition plot_diameter (diameters : list R) (output_dir name : string) : M string :=
  fun w =>
    let entire_file_path := path_join output_dir (replace_spaces name +:+ ".png") in
    (Ok entire_file_path,
     mkWorld (status w) (plots w ++ [mkPlot diameters entire_file_path]) (stderr w)).

(** ** [utils/metrics_utils.py] *)

Module Metrics.

Record DiameterStats : Type := mkStats {
  d_min : R; d_mean : R; d_median : R; d_max : R
}.

Record CenterlineMetrics : Type := mkMetrics {
  diameters : DiameterStats;
  length_mm : float;                 (* "length" *)
  tortuosity : float;
  quality : float;
  max_diameter_location : vec3;
  tangent_at_max_diameter_location : vec3
}.

Record VisData : Type := mkVis {
  vis_type : option string;
  vis_points : option (list vec3);
  vis_connections : option (list (Z * Z))
}.

Record CenterlineAnalysis : Type := mkAnalysis {
  metrics : CenterlineMetrics;
  vis_data : VisData;
  plot_path : string
}.

(** *** scipy routines on the fragment graph *)

(** [scipy.ndimage.center_of_mass(input, labels, index)] for a boolean
    [input]: per label, the mean position of the voxels carrying it, weighted
    by [input]. *)
Definition Zsum (l : list Z) : Z := fold_right Z.add 0%Z l.

(** The sums of the coordinates, and the number, of the voxels that carry
    label [l] and are set in [input]. *)
Definition centroid_sums (input : ndarray3 bool) (labels : ndarray3 nat) (l : nat)
    : Z * Z * Z * Z :=
  let vs := List.filter (fun v => (data labels v =? l)%nat && data input v)
                        (indices (shape input)) in
  (Zsum (map (fun '(i, _, _) => i) vs),
   Zsum (map (fun '(_, j, _) => j) vs),
   Zsum (map (fun '(_, _, k) => k) vs),
   Z.of_nat (length vs)).

Definition centroid_of (input : ndarray3 bool) (labels : ndarray3 nat) (l : nat) : vec3 :=
  let '(sx, sy, sz, total) := centroid_sums input labels l in
  (IZR sx / IZR total, IZR sy / IZR total, IZR sz / IZR total).

Definition center_of_mass (input : ndarray3 bool) (labels : ndarray3 nat)
    (index : list nat) : list vec3 :=
  map (centroid_of input labels) index.

(** [scipy.spatial.distance.cdist] with the Euclidean metric. *)
Definition cdist (xs ys : list vec3) : list (list R) :=
  map (fun x => map (fun y => dist x y) ys) xs.

Definition edge : Type := nat * nat * R.
Definition weight (e : edge) : R := snd e.

(** The edges of a dense graph: the non-zero entries, row by row. *)
Definition dense_edges (m : list (list R)) : list edge :=
  flat_map (fun '(i, row) =>
    flat_map (fun '(j, w) => if Reqb w 0 then [] else [(i, j, w)]) (enumerate row))
    (enumerate m).

Fixpoint insert_edge (e : edge) (l : list edge) : list edge :=
  match l with
  | [] => [e]
  | f :: l' => if Rle_dec (weight e) (weight f) then e :: l else f :: insert_edge e l'
  end.

(** Stable sort by weight. *)
Definition sort_edges (l : list edge) : list edge := fold_right insert_edge [] l.

Definition find (comp : list nat) (i : nat) : nat := nth i comp i.
Definition union (comp : list nat) (a b : nat) : list nat :=
  map (fun c => if (c =? find comp b)%nat then find comp a else c) comp.

Fixpoint kruskal (comp : list nat) (es : list edge) : list edge :=
  match es with
  | [] => []
  | (i, j, w) :: es' =>
    if (find comp i =? find comp j)%nat then kruskal comp es'
    else (i, j, w) :: kruskal (union comp i j) es'
  end.

(** A sparse graph: the number of nodes and the stored entries. *)
Record csgraph : Type := mkGraph { nodes : nat; edges : list edge }.

(** [scipy.sparse.csgraph.minimum_spanning_tree] of a dense matrix: Kruskal's
    algorithm over the non-zero entries in order of weight. *)
Definition minimum_spanning_tree (m : list (list R)) : csgraph :=
  mkGraph (length m) (kruskal (seq 0 (length m)) (sort_edges (dense_edges m))).

(** [mst.sum()] *)
Definition graph_sum (g : csgraph) : R := Rsum (map weight (edges g)).

Record sp_state : Type := mkSp {
  sp_dist : list float;
  sp_pred : list Z;
  sp_done : list bool
}.

Definition neighbours (g : csgraph) (u : nat) : list (nat * R) :=
  flat_map (fun '(i, j, w) =>
              (if (i =? u)%nat then [(j, w)] else [])
              ++ (if (j =? u)%nat then [(i, w)] else []))
           (edges g).

(** The unfinished node nearest to the source, if one is reachable. *)
Definition pick (st : sp_state) : option nat :=
  fold_left (fun best '(i, d) =>
               if nth i (sp_done st) true then best
               else match best with
                    | None => if float_ltb d PInf then Some i else None
                    | Some b => if float_ltb d (nth b (sp_dist st) NaN) then Some i else best
                    end)
            (enumerate (sp_dist st)) None.

Definition relax (u : nat) (st : sp_state) (vw : nat * R) : sp_state :=
  let '(v, w) := vw in
  if nth v (sp_done st) true then st
  else
    let nd := float_add (nth u (sp_dist st) NaN) w in
    if float_ltb nd (nth v (sp_dist st) NaN) then
      mkSp (<[v := nd]> (sp_dist st)) (<[v := Z.of_nat u]> (sp_pred st)) (sp_done st)
    else st.

Fixpoint dijkstra_loop (g : csgraph) (fuel : nat) (st : sp_state) : sp_state :=
  match fuel with
  | O => st
  | S fuel' =>
    match pick st with
    | None => st
    | Some u =>
      let st := mkSp (sp_dist st) (sp_pred st) (<[u := true]> (sp_done st)) in
      dijkstra_loop g fuel' (fold_left (relax u) (neighbours g u) st)
    end
  end.

(** [scipy.sparse.csgraph.dijkstra(g, directed=False, indices=src,
    return_predecessors=True)]: distances ([inf] where unreachable) and
    predecessors ([-9999] where there is none). *)
Definition dijkstra (g : csgraph) (src : nat) : list float * list Z :=
  let n := nodes g in
  let st := dijkstra_loop g n
              (mkSp (<[src := Fin 0]> (replicate n PInf))
                    (replicate n (-9999)%Z) (replicate n false)) in
  (sp_dist st, sp_pred st).

(** The state of the search after [t] nodes have been finished, [rank]
    recording when. *)
Definition search_inv (n t : nat) (rank : nat -> nat) (st : sp_state) : Prop :=
  length (sp_dist st) = n /\ length (sp_pred st) = n /\ length (sp_done st) = n
  /\ (forall v, (v < n)%nat -> nth v (sp_done st) true = true -> (rank v < t)%nat)
  /\ (forall v p, sp_pred st !! v = Some p ->
        p = (-9999)%Z
        \/ exists k, p = Z.of_nat k /\ (k < n)%nat /\ nth k (sp_done st) true = true
                     /\ (nth v (sp_done st) true = true -> (rank k < rank v)%nat)).

(** The [while current_node != -9999] loop of the source. *)
Fixpoint walk_back (fuel : nat) (predecessors : list Z) (current_node : Z) : result (list Z) :=
  if (current_node =? -9999)%Z then Ok []
  else match fuel with
       | O => OutOfFuel
       | S fuel' =>
         next ← getitem predecessors current_node;
         rest ← walk_back fuel' predecessors next;
         Ok (current_node :: rest)
       end.

(** Lines 119-149 of the source: the fragment graph, its longest path and the
    updates to [metrics] and [vis_data]. *)
Definition fragment_graph (centroids_mm : list vec3) (m : CenterlineMetrics)
    : result (CenterlineMetrics * VisData) :=
  let dist_matrix := cdist centroids_mm centroids_mm in
  let mst := minimum_spanning_tree dist_matrix in
  let total_mst_length := graph_sum mst in
  let '(distances, _) := dijkstra mst 0 in
  let first_endpoint_idx := float_argmax distances in
  let '(distances_from_endpoint, predecessors) := dijkstra mst first_endpoint_idx in
  let max_path_length := float_max distances_from_endpoint in
  let second_endpoint_idx := float_argmax distances_from_endpoint in
  start_point_coords ← getitem centroids_mm (Z.of_nat first_endpoint_idx);
  end_point_coords ← getitem centroids_mm (Z.of_nat second_endpoint_idx);
  let straight_line_dist := norm (vsub start_point_coords end_point_coords) in
  let tort :=
    if Rltb 0 straight_line_dist then float_div max_path_length straight_line_dist
    else tortuosity m in
  let qual :=
    if Rltb 0 total_mst_length then float_div max_path_length total_mst_length
    else quality m in
  path ← walk_back (S (length predecessors)) predecessors (Z.of_nat second_endpoint_idx);
  let path := rev path in
  Ok (mkMetrics (diameters m) max_path_length tort qual
                (max_diameter_location m) (tangent_at_max_diameter_location m),
      mkVis (Some "lines") (Some centroids_mm)
            (Some (combine (removelast path) (tl path)))).

(** Lines 86-151 of the source: everything after the plot has been written. *)
Definition centerline_from_profile (affine : mat4) (skeleton : ndarray3 bool)
    (labeled_skeleton : ndarray3 nat) (num_features : Z)
    (skeleton_mm : list vec3) (diameters_mm : list R) (plot_path : string)
    : result (option CenterlineAnalysis) :=
  let max_diam_idx := Z.of_nat (np_argmax diameters_mm) in
  max_diam_location_mm ← getitem skeleton_mm max_diam_idx;
  let diameter_stats :=
    mkStats (np_min diameters_mm) (np_mean diameters_mm)
            (np_median diameters_mm) (np_max diameters_mm) in
  tangent ← compute_tangent skeleton_mm max_diam_idx;
  let vis_data := mkVis None None None in
  let metrics := mkMetrics diameter_stats NaN NaN NaN max_diam_location_mm tangent in
  '(metrics, vis_data) ←
    (if (1 <? num_features)%Z then
       let fragment_sizes := bincount (ravel labeled_skeleton) in
       let size_threshold := 1%nat in
       let significant_fragment_labels :=
         List.filter (fun l => (size_threshold <? nth l fragment_sizes 0)%nat)
                     (seq 0 (length fragment_sizes)) in
       let significant_fragment_labels :=
         List.filter (fun l => negb (l =? 0)%nat) significant_fragment_labels in
       if (1 <? length significant_fragment_labels)%nat then
         let centroids_vox :=
           center_of_mass skeleton labeled_skeleton significant_fragment_labels in
         let centroids_mm := map (affine_apply affine) centroids_vox in
         fragment_graph centroids_mm metrics
       else Ok (metrics, vis_data)
     else Ok (metrics, vis_data));
  Ok (Some (mkAnalysis metrics vis_data plot_path)).

(** [labeled] is a labelling of [skeleton]: same shape, and non-zero only on
    skeleton voxels. *)
Definition labelling_of (skeleton : ndarray3 bool) (labeled : ndarray3 nat) : Prop :=
  shape labeled = shape skeleton
  /\ forall v, In v (indices (shape skeleton)) ->
       data labeled v <> 0%nat -> data skeleton v = true.

(** The world-space centroid of a skeleton fragment. *)
Definition fragment_centroid (affine : mat4) (skeleton : ndarray3 bool)
    (labeled : ndarray3 nat) (l : nat) : vec3 :=
  affine_apply affine (centroid_of skeleton labeled l).


Section WithLibraries.
Context {image : ImageLib}.

(** Lines 48-54: the opened mask, with the footprint chosen by isotropy. *)
Definition cleaned_mask_of (mask : ndarray3 bool) (affine : mat4) : ndarray3 bool :=
  let '(s0, s1, s2) := voxel_spacing_of affine in
  let is_isotropic := isclose s0 s1 && isclose s1 s2 in
  binary_opening mask (if is_isotropic then 3 else 1)%nat.

Definition plot_dir (destination_folder patient_id : string) : string :=
  path_join (path_join destination_folder "diameter_profiles") patient_id.

Definition compute_centerline_metrics (mask : ndarray3 bool) (affine : mat4)
    (name destination_folder patient_id : string) : M (option CenterlineAnalysis) :=
  if negb (np_any mask) then mret None else
  let voxel_spacing := voxel_spacing_of affine in
  let cleaned_mask := cleaned_mask_of mask affine in
  if negb (np_any cleaned_mask) then mret None else
  let skeleton := skeletonize cleaned_mask in
  if negb (np_any skeleton) then mret None else
  let '(labeled_skeleton, num_features) := label skeleton in
  if (num_features =? 0)%Z then mret None else
  let skeleton_voxels := argwhere skeleton in
  let skeleton_mm := map (fun v => affine_apply affine (voxel_to_vec v)) skeleton_voxels in
  let diameters_mm :=
    map (fun v => distance_transform_edt mask voxel_spacing v * 2) skeleton_voxels in
  if (length diameters_mm =? 0)%nat then mret None else
  plot_path ← plot_diameter diameters_mm (plot_dir destination_folder patient_id) name;
  lift (centerline_from_profile affine skeleton labeled_skeleton num_features
          skeleton_mm diameters_mm plot_path).

(** A mask whose processing reaches the skeleton: the mask and its opening
    are non-empty and the labelling reports at least one component. *)
Definition skeleton_stage (mask : ndarray3 bool) (affine : mat4)
    (skeleton : ndarray3 bool) (labeled : ndarray3 nat) (num_features : Z) : Prop :=
  np_any mask = true
  /\ np_any (cleaned_mask_of mask affine) = true
  /\ skeleton = skeletonize (cleaned_mask_of mask affine)
  /\ label skeleton = (labeled, num_features)
  /\ num_features <> 0%Z.

Definition diameter_profile (mask : ndarray3 bool) (affine : mat4)
    (skeleton : ndarray3 bool) : list R :=
  map (fun v => 2 * distance_transform_edt mask (voxel_spacing_of affine) v)
      (argwhere skeleton).

Definition skeleton_mm_of (affine : mat4) (skeleton : ndarray3 bool) : list vec3 :=
  map (fun v => affine_apply affine (voxel_to_vec v)) (argwhere skeleton).

Definition plot_file_of (destination_folder patient_id name : string) : string :=
  path_join (plot_dir destination_folder patient_id) (replace_spaces name +:+ ".png").

Definition with_plot (w : world) (p : plot_call) : world :=
  mkWorld (status w) (plots w ++ [p]) (stderr w).


End WithLibraries.

End Metrics.

(** ** Open3D meshes and files *)

Class MeshLib : Type := {
  remove_degenerate_triangles : TriangleMesh -> TriangleMesh;
  remove_duplicated_vertices : TriangleMesh -> TriangleMesh;
  remove_unreferenced_vertices : TriangleMesh -> TriangleMesh;
  get_surface_area : TriangleMesh -> R;
  is_watertight : TriangleMesh -> bool;
  get_volume : TriangleMesh -> R;
  (* RaycastingScene.add_triangles and compute_distance; the tensor mesh is
     rejected when it cannot be ray-cast *)
  scene_compute_distance : TriangleMesh -> list vec3 -> outcome (list R);
  (* PointCloud(mesh.vertices).compute_point_cloud_distance(PointCloud(points)) *)
  compute_point_cloud_distance : list vec3 -> list vec3 -> list R
}.

Class FileLib : Type := {
  (* np.load(segmentation_file)["new_seg_scan"] *)
  load_segmentation : string -> outcome (ndarray3 Z);
  (* np.load(pointcloud_file)["points"] *)
  load_pointcloud : string -> outcome (list vec3);
  (* nib.load(scan_nifti_file).affine *)
  load_affine : string -> outcome mat4;
  (* np.linalg.inv; raises LinAlgError on a singular matrix *)
  linalg_inv : mat4 -> outcome mat4
}.

Definition has_vertices (mesh : TriangleMesh) : bool :=
  negb (length (vertices mesh) =? 0)%nat.
Definition has_triangles (mesh : TriangleMesh) : bool :=
  negb (length (triangles mesh) =? 0)%nat.

Module MeshMetrics.
Section WithLibraries.
Context {meshes : MeshLib}.

(** The mesh is cleaned in place; the cleaned mesh is returned along with the
    measurements. *)
Definition compute_mesh_metrics (mesh : TriangleMesh) : (R * R * bool) * TriangleMesh :=
  if negb (has_vertices mesh) || negb (has_triangles mesh) then ((0, 0, false), mesh)
  else
    let mesh := remove_degenerate_triangles mesh in
    let mesh := remove_duplicated_vertices mesh in
    let mesh := remove_unreferenced_vertices mesh in
    let surface_area := get_surface_area mesh in
    let watertight := is_watertight mesh in
    let volume := if watertight then get_volume mesh else 0 in
    ((surface_area, volume, watertight), mesh).

(** The result dictionary is either empty or holds ["chamfer_distance"]. *)
Definition compute_reconstruction_quality_metrics (points : list vec3)
    (mesh : TriangleMesh) : result (option R) :=
  if (length points =? 0)%nat || negb (has_vertices mesh) then Ok None
  else
    distances_orig_to_mesh ← call (scene_compute_distance mesh points);
    let distances_mesh_to_orig := compute_point_cloud_distance (vertices mesh) points in
    let mesh_goodness := np_mean distances_orig_to_mesh in
    let point_representation_goodness := np_mean distances_mesh_to_orig in
    Ok (Some (mesh_goodness + point_representation_goodness)).

End WithLibraries.
End MeshMetrics.

(** ** [analysis_pipeline.py] *)

Module Pipeline.
Import Metrics MeshMetrics.

Record SerializableLineSet : Type := mkLineSet {
  ls_points : list vec3;
  ls_lines : list (Z * Z)
}.

Record SerializablePointCloud : Type := mkCloud {
  pc_points : list vec3;
  pc_colors : list vec3
}.

(** The ["metrics"] dictionary of a vessel: a key is present once assigned. *)
Record VesselMetrics : Type := mkVesselMetrics {
  m_surface_area : option R;
  m_volume : option R;
  m_is_watertight : option bool;
  m_centerline : option CenterlineMetrics;
  m_quality : option (option R)
}.

Record VesselData : Type := mkVessel {
  v_mesh : option TriangleMesh;
  v_centerline : option SerializableLineSet;
  v_max_diameter_disc : option TriangleMesh;
  v_metrics : VesselMetrics;
  v_diameter_plot_path : option string;
  v_diameter_plot_bytes : option (list Byte.byte)
}.

Record AnalysisResult : Type := mkResult {
  point_cloud : option SerializablePointCloud;
  vessels : gmap string VesselData
}.

Definition set_vessels (r : AnalysisResult) (vs : gmap string VesselData) : AnalysisResult :=
  mkResult (point_cloud r) vs.

(** [str(e)] *)
Definition exn_str (e : exn) : string :=
  match e with
  | IndexError i axis n =>
    "index " +:+ pretty i +:+ " is out of bounds for axis " +:+ pretty axis
      +:+ " with size " +:+ pretty n
  | ValueError msg => msg
  | ExternalError msg => msg
  end.

(** [np.round]: to the nearest integer, halves to the even one. *)
Definition np_round (x : R) : Z :=
  let f := Zfloor x in
  let r := x - IZR f in
  if Rlt_dec r (1 / 2) then f
  else if Rlt_dec (1 / 2) r then (f + 1)%Z
  else if Z.even f then f else (f + 1)%Z.

Definition clip_index (c : Z) (n : nat) : Z := Z.min (Z.max c 0) (Z.of_nat n - 1).

(** Lines 92-96: the voxel index a point is looked up at. *)
Definition voxel_coords_of (inv_affine : mat4) (p : vec3) : voxel :=
  let '(x, y, z) := affine_apply inv_affine p in
  (np_round x, np_round y, np_round z).

Definition clip_voxel (dims : nat * nat * nat) (v : voxel) : voxel :=
  let '(i, j, k) := v in
  let '(n0, n1, n2) := dims in
  (clip_index i n0, clip_index j n1, clip_index k n2).

Fixpoint mapM {A B} (f : A -> result B) (l : list A) : result (list B) :=
  match l with
  | [] => Ok []
  | x :: l' => y ← f x; ys ← mapM f l'; Ok (y :: ys)
  end.

(** Lines 92-99: the label of every point. *)
Definition label_points (new_seg_scan : ndarray3 Z) (inv_affine : mat4)
    (points : list vec3) : result (list Z) :=
  let voxel_coords := map (voxel_coords_of inv_affine) points in
  let dims := shape new_seg_scan in
  let voxel_coords := map (clip_voxel dims) voxel_coords in
  mapM (getitem3 new_seg_scan) voxel_coords.

Definition positive_dims (dims : nat * nat * nat) : Prop :=
  let '(n0, n1, n2) := dims in (0 < n0 /\ 0 < n1 /\ 0 < n2)%nat.

Definition in_bounds (dims : nat * nat * nat) (v : voxel) : bool :=
  let '(i, j, k) := v in
  let '(n0, n1, n2) := dims in
  ((0 <=? i) && (i <? Z.of_nat n0) && (0 <=? j) && (j <? Z.of_nat n1)
   && (0 <=? k) && (k <? Z.of_nat n2))%Z.

Definition identity4 : mat4 :=
  ((1, 0, 0, 0), (0, 1, 0, 0), (0, 0, 1, 0), (0, 0, 0, 1)).



Definition say (w : world) (msg : string) : world :=
  mkWorld (status w ++ [msg]) (plots w) (stderr w).

(** The status messages of the loop: the f-strings of lines 108, 121, 147 and
    181. *)
Definition processing_msg (name : string) (label_idx : Z) : string :=
  "Processing: " +:+ name +:+ " (Label " +:+ pretty label_idx +:+ ")...".

Definition reconstructing_msg (name : string) : string :=
  "Reconstructing mesh for " +:+ name +:+ "...".
Definition analyzing_msg (name : string) : string :=
  "Analyzing centerline for " +:+ name +:+ "...".

Definition error_msg (name : string) (e : exn) : string :=
  "ERROR processing " +:+ name +:+ ": " +:+ exn_str e.

Definition report_error (w : world) (name : string) (e : exn) : world :=
  mkWorld (status w ++ [error_msg name e]) (plots w) (stderr w ++ [e]).

Definition processing_msgs (todo : list (Z * (vec3 * string))) : list string :=
  map (fun '(l, (_, n)) => processing_msg n l) todo.

Definition colors_rgb : list vec3 := [(1, 0, 0); (0, 1, 0); (0, 0, 1)].
Definition names : list string := ["Aorta"; "Left Iliac Artery"; "Right Iliac Artery"].

(** [enumerate(l, start)] *)
Definition enumerate_from {A} (start : Z) (l : list A) : list (Z * A) :=
  combine (map (fun i => (start + Z.of_nat i)%Z) (seq 0 (length l))) l.

Definition empty_metrics : VesselMetrics := mkVesselMetrics None None None None None.
Definition empty_vessel : VesselData := mkVessel None None None empty_metrics None None.

(** [points[pc_label_mask]] *)
Definition select {A} (l : list A) (mask : list bool) : list A :=
  map fst (List.filter snd (combine l mask)).

Section WithLibraries.
Context {image : ImageLib} {meshes : MeshLib} {files : FileLib}.

Definition smoothed_of (mask : ndarray3 bool) : ndarray3 R :=
  gaussian_filter (binary_fill_holes (np_pad mask 2)) 1.

Definition unpad (voxel_spacing : vec3) (v : vec3) : vec3 :=
  vsub v (vscale 2 voxel_spacing).

(** Lines 121-145: mesh reconstruction and mesh metrics. *)
Definition reconstruct_mesh (mask : ndarray3 bool) (affine : mat4) (voxel_spacing : vec3)
    (name : string) (vessel_results : VesselData) : M (VesselData * TriangleMesh) :=
  status_callback (reconstructing_msg name);;
  let pad_amount := 2%Z in
  let padded_mask := np_pad mask pad_amount in
  let padded_mask := binary_fill_holes padded_mask in
  let smoothed := gaussian_filter padded_mask 1 in
  '(verts, faces) ← lift (call (marching_cubes smoothed (2 / 10) voxel_spacing));
  let verts := map (fun v => vsub v (vscale (IZR pad_amount) voxel_spacing)) verts in
  let verts_hom := verts in
  let verts_world := map (affine_apply affine) verts_hom in
  let mesh := mkMesh verts faces in
  let vessel_results :=
    mkVessel (Some (mkMesh (vertices mesh) (triangles mesh)))
             (v_centerline vessel_results) (v_max_diameter_disc vessel_results)
             (v_metrics vessel_results) (v_diameter_plot_path vessel_results)
             (v_diameter_plot_bytes vessel_results) in
  let '((mesh_surface, mesh_volume, watertight), mesh) := compute_mesh_metrics mesh in
  let vessel_results :=
    mkVessel (v_mesh vessel_results)
             (v_centerline vessel_results) (v_max_diameter_disc vessel_results)
             (mkVesselMetrics (Some mesh_surface) (Some mesh_volume) (Some watertight)
                              (m_centerline (v_metrics vessel_results))
                              (m_quality (v_metrics vessel_results)))
             (v_diameter_plot_path vessel_results)
             (v_diameter_plot_bytes vessel_results) in
  mret (vessel_results, mesh).

(** Lines 147-169: centerline analysis and the disc at the widest point. *)
Definition analyse_centerline (mask : ndarray3 bool) (affine : mat4)
    (name destination_folder patient_id : string) (vessel_results : VesselData)
    : M VesselData :=
  status_callback (analyzing_msg name);;
  centerline_analysis ←
    compute_centerline_metrics mask affine name destination_folder patient_id;
  match centerline_analysis with
  | Some ca =>
    let vm := v_metrics vessel_results in
    let vm := mkVesselMetrics (m_surface_area vm) (m_volume vm) (m_is_watertight vm)
                              (Some (metrics ca)) (m_quality vm) in
    let centerline :=
      match vis_points (vis_data ca), vis_connections (vis_data ca) with
      | Some pts, Some conns => Some (mkLineSet pts conns)
      | _, _ => v_centerline vessel_results
      end in
    let max_diam_loc_mm := max_diameter_location (metrics ca) in
    disc ← lift (Disc.create_flat_disc max_diam_loc_mm
                   (d_max (diameters (metrics ca)) / 2)
                   (tangent_at_max_diameter_location (metrics ca)) 60);
    mret (mkVessel (v_mesh vessel_results) centerline
                   (Some (mkMesh (vertices disc) (triangles disc)))
                   vm (Some (plot_path ca)) (v_diameter_plot_bytes vessel_results))
  | None => mret vessel_results
  end.

(** Lines 171-176: the reconstruction quality against the labelled points. *)
Definition score_quality (points : option (list vec3)) (point_labels : option (list Z))
    (label_idx : Z) (name : string) (mesh : TriangleMesh) (vessel_results : VesselData)
    : M VesselData :=
  match points, point_labels with
  | Some points, Some point_labels =>
    let pc_label_mask := map (fun l => (l =? label_idx)%Z) point_labels in
    if existsb (fun b => b) pc_label_mask then
      status_callback ("Calculating reconstruction quality for " +:+ name +:+ "...");;
      quality_metrics ←
        lift (compute_reconstruction_quality_metrics (select points pc_label_mask) mesh);
      let vm := v_metrics vessel_results in
      mret (mkVessel (v_mesh vessel_results) (v_centerline vessel_results)
                     (v_max_diameter_disc vessel_results)
                     (mkVesselMetrics (m_surface_area vm) (m_volume vm)
                                      (m_is_watertight vm) (m_centerline vm)
                                      (Some quality_metrics))
                     (v_diameter_plot_path vessel_results)
                     (v_diameter_plot_bytes vessel_results))
    else mret vessel_results
  | _, _ => mret vessel_results
  end.

(** The body of the [try] at lines 120-178, ending with the assignment
    [results["vessels"][name] = vessel_results]. *)
Definition vessel_try_body (new_seg_scan : ndarray3 Z) (affine : mat4) (voxel_spacing : vec3)
    (points : option (list vec3)) (point_labels : option (list Z))
    (destination_folder patient_id : string) (mask : ndarray3 bool)
    (label_idx : Z) (name : string) (vessel_results : VesselData)
    (results : AnalysisResult) : M AnalysisResult :=
  '(vessel_results, mesh) ← reconstruct_mesh mask affine voxel_spacing name vessel_results;
  vessel_results ←
    analyse_centerline mask affine name destination_folder patient_id vessel_results;
  vessel_results ← score_quality points point_labels label_idx name mesh vessel_results;
  mret (set_vessels results (<[name := vessel_results]> (vessels results))).

(** One iteration of the loop at line 107. *)
Definition process_vessel (new_seg_scan : ndarray3 Z) (affine : mat4) (voxel_spacing : vec3)
    (points : option (list vec3)) (point_labels : option (list Z))
    (destination_folder patient_id : string)
    (results : AnalysisResult) (label_idx : Z) (name : string) : M AnalysisResult :=
  status_callback (processing_msg name label_idx);;
  let mask := eq_label new_seg_scan label_idx in
  if negb (np_any mask) then mret results
  else
    let vessel_results := empty_vessel in
    try_except
      (vessel_try_body new_seg_scan affine voxel_spacing points point_labels
         destination_folder patient_id mask label_idx name vessel_results results)
      (fun e =>
         status_callback (error_msg name e);;
         print_exc e;;
         mret results).

Fixpoint vessel_loop (new_seg_scan : ndarray3 Z) (affine : mat4) (voxel_spacing : vec3)
    (points : option (list vec3)) (point_labels : option (list Z))
    (destination_folder patient_id : string)
    (todo : list (Z * (vec3 * string))) (results : AnalysisResult) : M AnalysisResult :=
  match todo with
  | [] => mret results
  | (label_idx, (color, name)) :: todo' =>
    results ← process_vessel new_seg_scan affine voxel_spacing points point_labels
                destination_folder patient_id results label_idx name;
    vessel_loop new_seg_scan affine voxel_spacing points point_labels
                destination_folder patient_id todo' results
  end.

(** Lines 186-188: the colour of every point. *)
Definition point_colors (point_labels : list Z) : list vec3 :=
  fold_left (fun pcd_colors '(i, color) =>
               map (fun '(l, c) => if (l =? i)%Z then color else c)
                   (combine point_labels pcd_colors))
            (enumerate_from 1 colors_rgb)
            (map (fun _ => (0, 0, 0)) point_labels).

Definition enhanced_vessel_reconstruction_analysis
    (scan_nifti_file segmentation_file pointcloud_file destination_folder
     patient_id : string) : M AnalysisResult :=
  let results := mkResult None ∅ in
  status_callback "Loading data...";;
  match load_segmentation segmentation_file with
  | Raises e =>
    status_callback ("ERROR: Could not load segmentation file: " +:+ exn_str e);;
    mret results
  | Returns new_seg_scan =>
    points ←
      match load_pointcloud pointcloud_file with
      | Raises e =>
        status_callback ("WARNING: Could not load point cloud file: " +:+ exn_str e
                         +:+ ". Quality metrics will be skipped.");;
        mret None
      | Returns points => mret (Some points)
      end;
    match (affine ← call (load_affine scan_nifti_file);
           inv_affine ← call (linalg_inv affine);
           Ok (affine, voxel_spacing_of affine, inv_affine)) with
    | Raise e =>
      status_callback ("ERROR: Could not load NIfTI scan file: " +:+ exn_str e);;
      mret results
    | OutOfFuel => lift OutOfFuel
    | Ok (affine, voxel_spacing, inv_affine) =>
      point_labels ←
        match points with
        | Some points =>
          status_callback "Mapping point cloud to segmentation labels...";;
          point_labels ← lift (label_points new_seg_scan inv_affine points);
          status_callback "...mapping complete.";;
          mret (Some point_labels)
        | None => mret None
        end;
      results ← vessel_loop new_seg_scan affine voxel_spacing points point_labels
                  destination_folder patient_id
                  (enumerate_from 1 (combine colors_rgb names)) results;
      let results :=
        match points, point_labels with
        | Some points, Some point_labels =>
          mkResult (Some (mkCloud points (point_colors point_labels))) (vessels results)
        | _, _ => results
        end in
      status_callback "Analysis complete!";;
      mret results
    end
  end.

(** The point labelling, the only step of the analysis outside a [try],
    returns for the inputs loaded from the given files. *)
Definition labelling_returns (scan_nifti_file pointcloud_file : string)
    (new_seg_scan : ndarray3 Z) : Prop :=
  forall points affine inv_affine,
    load_pointcloud pointcloud_file = Returns points ->
    load_affine scan_nifti_file = Returns affine ->
    linalg_inv affine = Returns inv_affine ->
    exists point_labels, label_points new_seg_scan inv_affine points = Ok point_labels.


End WithLibraries.
End Pipeline.

(** ** Concrete inputs *)

Module Examples.
Import Metrics MeshMetrics Pipeline.

Definition voxel_eqb (u v : voxel) : bool :=
  let '(a, b, c) := u in let '(x, y, z) := v in ((a =? x) && (b =? y) && (c =? z))%Z.

(** A boolean array holding exactly the listed voxels. *)
Definition voxels_array (sh : nat * nat * nat) (vs : list voxel) : ndarray3 bool :=
  mkArray sh (fun v => existsb (voxel_eqb v) vs).

(** A 5x5x5 volume whose central 3x3x3 cube carries label 1. *)
Definition cube_volume : ndarray3 Z :=
  mkArray (5, 5, 5)%nat
    (fun '(i, j, k) =>
       if ((1 <=? i) && (i <=? 3) && (1 <=? j) && (j <=? 3) && (1 <=? k) && (k <=? 3))%Z
       then 1%Z else 0%Z).

(** Library results for one mask: the opening keeps the mask, the skeleton
    and its labelling are the given ones, marching cubes returns one
    triangle. *)
Definition image_lib_for (skeleton : ndarray3 bool) (labeled : ndarray3 nat)
    (num_features : Z) : ImageLib := {|
  binary_opening := fun m _ => m;
  skeletonize := fun _ => skeleton;
  label := fun _ => (labeled, num_features);
  distance_transform_edt := fun _ _ _ => 1;
  np_pad := fun m _ => m;
  binary_fill_holes := fun m => m;
  gaussian_filter := fun m _ => mkArray (shape m) (fun v => if data m v then 1 else 0);
  marching_cubes := fun _ _ _ =>
    Returns ([(2, 2, 2); (4, 2, 2); (2, 4, 2)], [(0, 1, 2)%Z])
|}.

Definition mesh_lib : MeshLib := {|
  remove_degenerate_triangles := fun m => m;
  remove_duplicated_vertices := fun m => m;
  remove_unreferenced_vertices := fun m => m;
  get_surface_area := fun _ => 2;
  is_watertight := fun _ => false;
  get_volume := fun _ => 0;
  scene_compute_distance := fun _ pts => Returns (map (fun _ => 0) pts);
  compute_point_cloud_distance := fun vs _ => map (fun _ => 0) vs
|}.

(** The identity moved by 10 mm along x, and its inverse. *)
Definition shifted_affine : mat4 :=
  ((1, 0, 0, 10), (0, 1, 0, 0), (0, 0, 1, 0), (0, 0, 0, 1)).
Definition shifted_affine_inv : mat4 :=
  ((1, 0, 0, -10), (0, 1, 0, 0), (0, 0, 1, 0), (0, 0, 0, 1)).


(** The skeleton of a compact blob: its centre voxel. *)
Definition centre_skeleton : ndarray3 bool := voxels_array (5, 5, 5)%nat [(2, 2, 2)%Z].
Definition centre_labeled : ndarray3 nat :=
  mkArray (5, 5, 5)%nat (fun v => if data centre_skeleton v then 1%nat else 0%nat).
Definition blob_lib : ImageLib := image_lib_for centre_skeleton centre_labeled 1.

(** A two-voxel skeleton in one component. *)
Definition rod_skeleton : ndarray3 bool :=
  voxels_array (5, 5, 5)%nat [(2, 2, 2)%Z; (2, 2, 3)%Z].
Definition rod_labeled : ndarray3 nat :=
  mkArray (5, 5, 5)%nat (fun v => if data rod_skeleton v then 1%nat else 0%nat).
Definition rod_lib : ImageLib := image_lib_for rod_skeleton rod_labeled 1.


(** A skeleton in two fragments at distinct centroids: two short rods. *)
Definition rod_a_voxels : list voxel := [(0, 0, 0)%Z; (0, 0, 1)%Z].
Definition rod_b_voxels : list voxel := [(2, 2, 0)%Z; (2, 2, 1)%Z].
Definition two_rods_skeleton : ndarray3 bool :=
  voxels_array (3, 3, 2)%nat (rod_a_voxels ++ rod_b_voxels).
Definition two_rods_labeled : ndarray3 nat :=
  mkArray (3, 3, 2)%nat
    (fun v => if existsb (voxel_eqb v) rod_a_voxels then 1%nat
              else if existsb (voxel_eqb v) rod_b_voxels then 2%nat else 0%nat).
Definition two_rods_lib : ImageLib := image_lib_for two_rods_skeleton two_rods_labeled 2.

Definition world0 : world := mkWorld [] [] [].

(** A volume with an empty first axis, and one point to label. *)
Definition empty_axis_volume : ndarray3 Z := mkArray (0, 4, 4)%nat (fun _ => 0%Z).

Definition file_lib_unreadable_seg : FileLib := {|
  load_segmentation := fun _ => Raises (ExternalError "No such file or directory");
  load_pointcloud := fun _ => Returns [(0, 0, 0)];
  load_affine := fun _ => Returns shifted_affine;
  linalg_inv := fun _ => Returns shifted_affine_inv
|}.

Definition file_lib_empty_axis : FileLib := {|
  load_segmentation := fun _ => Returns empty_axis_volume;
  load_pointcloud := fun _ => Returns [(0, 0, 0)];
  load_affine := fun _ => Returns shifted_affine;
  linalg_inv := fun _ => Returns shifted_affine_inv
|}.

(** Every file loads; the point cloud holds the centre of the cube and a point
    outside the vessel. *)
Definition file_lib_with_points : FileLib := {|
  load_segmentation := fun _ => Returns cube_volume;
  load_pointcloud := fun _ => Returns [(12, 2, 2); (10, 0, 0)];
  load_affine := fun _ => Returns shifted_affine;
  linalg_inv := fun _ => Returns shifted_affine_inv
|}.

(** A volume whose label 1 is made of two rods, read with the identity as
    affine and without a point cloud. *)
Definition two_rods_volume : ndarray3 Z :=
  mkArray (3, 3, 2)%nat (fun v => if data two_rods_skeleton v then 1%Z else 0%Z).

Definition file_lib_two_rods : FileLib := {|
  load_segmentation := fun _ => Returns two_rods_volume;
  load_pointcloud := fun _ => Raises (ExternalError "No such file or directory");
  load_affine := fun _ => Returns identity4;
  linalg_inv := fun _ => Returns identity4
|}.

End Examples.

(** ** Statements about the results of the analysis *)

Module Records.
Import Metrics MeshMetrics Pipeline.

(** The colour the point cloud shows for a label: red, green and blue for the
    three vessels, black for anything else. *)
Definition color_of_label (l : Z) : vec3 :=
  if (l =? 1)%Z then (1, 0, 0)
  else if (l =? 2)%Z then (0, 1, 0)
  else if (l =? 3)%Z then (0, 0, 1)
  else (0, 0, 0).

(** The status messages of the loading stage: lines 63, 70, 77, 86, 90, 100
    and 193. *)
Definition seg_error_msg (e : exn) : string :=
  "ERROR: Could not load segmentation file: " +:+ exn_str e.
Definition pcd_warning_msg (e : exn) : string :=
  "WARNING: Could not load point cloud file: " +:+ exn_str e
  +:+ ". Quality metrics will be skipped.".
Definition nifti_error_msg (e : exn) : string :=
  "ERROR: Could not load NIfTI scan file: " +:+ exn_str e.

(** Lines 184-196: what the analysis does with the outcome of the loop. *)
Definition finish_analysis (points : option (list vec3)) (point_labels : option (list Z))
    (loop : result AnalysisResult * world) : result AnalysisResult * world :=
  match loop with
  | (Ok results, w) =>
    (Ok match points, point_labels with
        | Some points, Some point_labels =>
          mkResult (Some (mkCloud points (point_colors point_labels))) (vessels results)
        | _, _ => results
        end,
     say w "Analysis complete!")
  | other => other
  end.

(** What holds of the mesh part of every record the analysis stores: the mesh
    and its three measurements are present, and the volume is 0 unless the
    mesh is watertight. *)
Definition mesh_part_ok (vd : VesselData) : Prop :=
  is_Some (v_mesh vd)
  /\ exists surface volume watertight,
       m_surface_area (v_metrics vd) = Some surface
       /\ m_volume (v_metrics vd) = Some volume
       /\ m_is_watertight (v_metrics vd) = Some watertight
       /\ (watertight = false -> volume = 0).

(** The centerline part: either all of centerline metrics, plot path and disc
    are absent, together with the centerline geometry, or all three are
    present, the disc being the 60-triangle fan around the location of the
    largest diameter; the plot bytes are never filled in. *)
Definition centerline_part_ok (vd : VesselData) : Prop :=
  v_diameter_plot_bytes vd = None
  /\ ((m_centerline (v_metrics vd) = None /\ v_diameter_plot_path vd = None
       /\ v_max_diameter_disc vd = None /\ v_centerline vd = None)
      \/ exists cm path disc rim,
           m_centerline (v_metrics vd) = Some cm
           /\ v_diameter_plot_path vd = Some path
           /\ v_max_diameter_disc vd = Some disc
           /\ vertices disc = max_diameter_location cm :: rim
           /\ length rim = 60%nat
           /\ length (triangles disc) = 60%nat).

(** The quality entry: present exactly when a point cloud was loaded and
    labelled and some point carries the vessel's label. *)
Definition quality_part_ok (points : option (list vec3)) (point_labels : option (list Z))
    (label_idx : Z) (vd : VesselData) : Prop :=
  is_Some (m_quality (v_metrics vd)) <->
  exists pts labels,
    points = Some pts /\ point_labels = Some labels /\ In label_idx labels.

(** What holds of a record stored under [name]: the name is one of the table,
    and the three parts are as above, the quality part for the label of that
    name. *)
Definition stored_ok (points : option (list vec3)) (point_labels : option (list Z))
    (name : string) (vd : VesselData) : Prop :=
  exists label_idx color,
    In (label_idx, (color, name)) (enumerate_from 1 (combine colors_rgb names))
    /\ mesh_part_ok vd /\ centerline_part_ok vd
    /\ quality_part_ok points point_labels label_idx vd.

(** The first axis of length 0, the one numpy names when an index into an
    empty axis is out of bounds. *)
Definition first_empty_axis (dims : nat * nat * nat) : option nat :=
  let '(n0, n1, n2) := dims in
  if (n0 =? 0)%nat then Some 0%nat
  else if (n1 =? 0)%nat then Some 1%nat
  else if (n2 =? 0)%nat then Some 2%nat
  else None.

(** The edges of a graph on the centroids [cs] join centroids of the list and
    weigh their distance. *)
Definition edges_within (cs : list vec3) (g : csgraph) : Prop :=
  forall i j w, In (i, j, w) (edges g) ->
    exists ci cj, cs !! i = Some ci /\ cs !! j = Some cj /\ w = dist ci cj.

(** What the search from [src] knows of the distances: a finite entry is at
    least the straight distance between the two centroids. *)
Definition dist_inv (cs : list vec3) (src : nat) (st : sp_state) : Prop :=
  forall v d, sp_dist st !! v = Some d ->
    d = PInf
    \/ exists x csrc cv,
         d = Fin x /\ cs !! src = Some csrc /\ cs !! v = Some cv /\ dist csrc cv <= x.

(** Geometry that can be drawn: every index of a line or of a triangle is the
    position of a point. *)
Definition lines_in_range (ls : SerializableLineSet) : Prop :=
  Forall (fun line =>
            (0 <= fst line < Z.of_nat (length (ls_points ls)))%Z
            /\ (0 <= snd line < Z.of_nat (length (ls_points ls)))%Z)
         (ls_lines ls).

Definition triangles_in_range (m : TriangleMesh) : Prop :=
  Forall (fun '(i, j, k) =>
            (0 <= i < Z.of_nat (length (vertices m)))%Z
            /\ (0 <= j < Z.of_nat (length (vertices m)))%Z
            /\ (0 <= k < Z.of_nat (length (vertices m)))%Z)
         (triangles m).

Definition geometry_ok (vd : VesselData) : Prop :=
  (forall ls, v_centerline vd = Some ls ->
     lines_in_range ls /\ (2 <= length (ls_points ls))%nat)
  /\ (forall disc, v_max_diameter_disc vd = Some disc ->
        triangles_in_range disc /\ length (vertices disc) = 61%nat
        /\ length (triangles disc) = 60%nat).

(** The computation only adds to the plots written. *)
Definition grows_plots {A} (m : M A) : Prop :=
  forall w, exists extra, plots (snd (m w)) = plots w ++ extra.

(** The plot a record points to has been written since [w0], under a name
    that is not empty. *)
Definition plot_written (w0 w : world) (vd : VesselData) : Prop :=
  forall p, v_diameter_plot_path vd = Some p ->
    p <> ""
    /\ exists extra plot,
         plots w = plots w0 ++ extra /\ In plot extra /\ plot_file plot = p.


End Records.

(** ** visualization_utils.py *)

Module Visualization.
Import Metrics MeshMetrics Pipeline.

Definition coord_x (p : vec3) : R := let '(x, _, _) := p in x.
Definition coord_y (p : vec3) : R := let '(_, y, _) := p in y.
Definition coord_z (p : vec3) : R := let '(_, _, z) := p in z.

(** The arguments handed to [go.Mesh3d]. *)
Record Mesh3d : Type := mkMesh3d {
  mesh_x : list R; mesh_y : list R; mesh_z : list R;
  mesh_i : list Z; mesh_j : list Z; mesh_k : list Z;
  mesh_color : string; mesh_opacity : R; mesh_name : string; mesh_showlegend : bool
}.

Definition mesh_to_plotly (mesh_data : TriangleMesh) (color name : string)
    (showlegend : bool) : Mesh3d :=
  let vertices := vertices mesh_data in
  let triangles := triangles mesh_data in
  mkMesh3d (map coord_x vertices) (map coord_y vertices) (map coord_z vertices)
           (map (fun '(i, _, _) => i) triangles)
           (map (fun '(_, j, _) => j) triangles)
           (map (fun '(_, _, k) => k) triangles)
           color (7 / 10) name showlegend.



(** The arguments handed to [go.Scatter3d] in mode ['lines']; [None] ends a
    segment. *)
Record Lines : Type := mkLines {
  x_lines : list (option R); y_lines : list (option R); z_lines : list (option R);
  line_color : string; line_width : Z;
  lines_name : string; lines_showlegend : bool
}.

(** The loop of lines 53-58, on the three lists it extends. *)
Fixpoint lineset_loop (points : list vec3) (lines : list (Z * Z))
    (acc : list (option R) * list (option R) * list (option R))
    : result (list (option R) * list (option R) * list (option R)) :=
  match lines with
  | [] => Ok acc
  | line :: lines' =>
    let '(x_lines, y_lines, z_lines) := acc in
    p1 ← getitem points (fst line);
    p2 ← getitem points (snd line);
    lineset_loop points lines'
      (x_lines ++ [Some (coord_x p1); Some (coord_x p2); None],
       y_lines ++ [Some (coord_y p1); Some (coord_y p2); None],
       z_lines ++ [Some (coord_z p1); Some (coord_z p2); None])
  end.

Definition lineset_to_plotly (lineset_data : SerializableLineSet) (color name : string)
    (showlegend : bool) : result Lines :=
  let points := ls_points lineset_data in
  let lines := ls_lines lineset_data in
  '(x_lines, y_lines, z_lines) ← lineset_loop points lines ([], [], []);
  Ok (mkLines x_lines y_lines z_lines color 5 name showlegend).

(** The position a Python index stands for in a sequence of length [n]. *)
Definition py_index (n : nat) (i : Z) : nat :=
  Z.to_nat (if (i <? 0)%Z then i + Z.of_nat n else i)%Z.

Definition valid_index (n : nat) (i : Z) : Prop :=
  (- Z.of_nat n <= i < Z.of_nat n)%Z.

(** The three entries one line adds to a list of coordinates. *)
Definition segment (coord : vec3 -> R) (points : list vec3) (line : Z * Z)
    : list (option R) :=
  [coord <$> points !! py_index (length points) (fst line);
   coord <$> points !! py_index (length points) (snd line);
   None].

End Visualization.

(** ** app.py *)

Module App.
Import Metrics MeshMetrics Pipeline.

Section WithLibraries.
Context {image : ImageLib} {meshes : MeshLib} {files : FileLib}.

(** The bytes of the image matplotlib saves for a plot. *)
Variable png : plot_call -> list Byte.byte.

(** The plot found at [path] among those a run has saved: the last one
    saved there. *)
Definition saved_plot (new_plots : list plot_call) (path : string) : option plot_call :=
  List.find (fun p => String.eqb (plot_file p) path) (rev new_plots).

(** Lines 122-129, for one vessel: a plot path that is set and not empty is
    read back as bytes if the file exists and as [None] otherwise. *)
Definition attach_plot_bytes (new_plots : list plot_call) (data : VesselData) : VesselData :=
  match v_diameter_plot_path data with
  | Some plot_path_str =>
    if String.eqb plot_path_str "" then data
    else mkVessel (v_mesh data) (v_centerline data) (v_max_diameter_disc data)
                  (v_metrics data) (v_diameter_plot_path data)
                  (png <$> saved_plot new_plots plot_path_str)
  | None => data
  end.

(** The callback of line 110. *)
Definition status_shown (message : string) : string := "`" +:+ message +:+ "`".

(** [run_analysis]: the analysis writes into a fresh temporary directory
    [temp_dir], so the files found there afterwards are the plots of this
    run; the status container is handed every message between backticks. *)
Definition run_analysis (nifti_path seg_path pcd_path patient_id : string)
    (nifti_mtime seg_mtime pcd_mtime : R) (temp_dir : string) : M AnalysisResult :=
  fun w =>
    match enhanced_vessel_reconstruction_analysis nifti_path seg_path pcd_path
            temp_dir patient_id w with
    | (outcome, w') =>
      let new_plots := skipn (length (plots w)) (plots w') in
      let shown := status w ++ map status_shown (skipn (length (status w)) (status w')) in
      (match outcome with
       | Ok results =>
         Ok (mkResult (point_cloud results)
                      (attach_plot_bytes new_plots <$> vessels results))
       | other => other
       end,
       mkWorld shown (plots w') (stderr w'))
    end.

End WithLibraries.

End App.

(** * Properties *)

(** ** The disc builder *)

Section DiscFacts.
Import Disc.

Lemma length_range a b : length (range a b) = Z.to_nat (b - a).
Proof. unfold range. now rewrite length_map, length_seq. Qed.

Lemma in_range a b i : In i (range a b) <-> (a <= i < b)%Z.
Proof.
  unfold range. rewrite in_map_iff. split.
  - intros (k & <- & Hk). apply in_seq in Hk. lia.
  - intros Hi. exists (Z.to_nat (i - a)). split; [lia|].
    apply in_seq. lia.
Qed.

Lemma create_flat_disc_shape center radius normal resolution :
  (0 <= resolution)%Z ->
  exists mesh, create_flat_disc center radius normal resolution = Ok mesh
    /\ length (vertices mesh) = S (Z.to_nat resolution)
    /\ triangles mesh =
         map (fun i => (0, i, i + 1)%Z) (range 1 resolution) ++ [(0, resolution, 1)%Z].
Proof.
  intros Hres. unfold create_flat_disc, linspace_open.
  destruct (Z.ltb_spec resolution 0) as [?|_]; [lia|].
  eexists. split; [reflexivity|]. split.
  - cbn [mesh_translate vertices]. rewrite length_map.
    destruct (disc_rotation _); cbn [mesh_rotate vertices];
      rewrite ?length_map; cbn [length]; rewrite !length_map, length_range;
      f_equal; lia.
  - cbn [mesh_translate triangles].
    destruct (disc_rotation _); reflexivity.
Qed.

Lemma rodrigues_dot k c s u v :
  dot k k = 1 -> c * c + s * s = 1 ->
  dot (mat3_apply (rodrigues k c s) u) (mat3_apply (rodrigues k c s) v) = dot u v.
Proof.
  destruct k as [[k1 k2] k3], u as [[u1 u2] u3], v as [[v1 v2] v3].
  cbn. intros Hk Hcs. nsatz.
Qed.

Lemma dot_nonneg u : 0 <= dot u u.
Proof. destruct u as [[a b] c]. cbn. nra. Qed.

Lemma norm_sqr u : norm u * norm u = dot u u.
Proof. unfold norm. apply sqrt_sqrt, dot_nonneg. Qed.

Lemma norm_vscale_unit k t : dot k k = 1 -> 0 <= t -> norm (vscale t k) = t.
Proof.
  intros Hk Ht. unfold norm.
  replace (dot (vscale t k) (vscale t k)) with (t * t).
  - now apply sqrt_square.
  - destruct k as [[k1 k2] k3]. cbn in *. nsatz.
Qed.

Lemma vdiv_vscale k t : t <> 0 -> vdiv (vscale t k) t = k.
Proof.
  intros Ht. destruct k as [[k1 k2] k3]. cbn.
  repeat f_equal; field; exact Ht.
Qed.

Lemma rotation_of_unit_axis k t :
  dot k k = 1 -> 0 < t ->
  get_rotation_matrix_from_axis_angle (vscale t k) = rodrigues k (cos t) (sin t).
Proof.
  intros Hk Ht. unfold get_rotation_matrix_from_axis_angle.
  rewrite norm_vscale_unit by (auto; lra).
  rewrite vdiv_vscale by lra. reflexivity.
Qed.

Lemma unit_normal_unit normal :
  norm normal <> 0 -> dot (unit_normal normal) (unit_normal normal) = 1.
Proof.
  intros Hn. unfold unit_normal, Reqb.
  destruct (Req_dec_T (norm normal) 0) as [E|_]; [contradiction|].
  pose proof (norm_sqr normal) as Hsq.
  destruct normal as [[a b] c]. cbn in *.
  set (N := norm (a, b, c)) in *.
  replace (a / N * (a / N) + b / N * (b / N) + c / N * (c / N))
    with ((a * a + b * b + c * c) / (N * N)) by (field; exact Hn).
  rewrite <- Hsq. field. exact Hn.
Qed.

Lemma isclose_true a b : isclose a b = true -> Rabs (a - b) <= atol + rtol * Rabs b.
Proof. unfold isclose. destruct (Rle_dec _ _); [auto|discriminate]. Qed.

Lemma isclose_refl a : isclose a a = true.
Proof.
  unfold isclose. destruct (Rle_dec _ _) as [|N]; [reflexivity|].
  exfalso. apply N. replace (a - a) with 0 by ring. rewrite Rabs_R0.
  pose proof (Rabs_pos a). unfold atol, rtol. nra.
Qed.

Lemma clip_id x : -1 <= x <= 1 -> clip x (-1) 1 = x.
Proof.
  intros [H1 H2]. unfold clip. rewrite Rmax_left by lra. now rewrite Rmin_left.
Qed.

Lemma disc_rotation_spec n M :
  dot n n = 1 -> disc_rotation n = Some M ->
  (forall u v, dot (mat3_apply M u) (mat3_apply M v) = dot u v)
  /\ mat3_apply M z_axis = n.
Proof.
  intros Hn. unfold disc_rotation.
  destruct (allclose n z_axis) eqn:Hz; cbn [negb]; [discriminate|].
  intros [= <-].
  destruct n as [[a b] c]. cbn [cross dot z_axis vneg] in *.
  assert (Hc : -1 <= c <= 1) by (split; nra).
  replace (0 * a + 0 * b + 1 * c) with c by ring.
  replace (0 * c - 1 * b) with (- b) by ring.
  replace (1 * a - 0 * c) with a by ring.
  replace (0 * b - 0 * a) with 0 by ring.
  rewrite clip_id by exact Hc.
  set (w := (- b, a, 0)).
  assert (Hcr : dot w w = a * a + b * b) by (cbn; ring).
  pose proof (norm_sqr w) as Hsq. rewrite Hcr in Hsq.
  unfold Reqb. destruct (Req_dec_T (norm w) 0) as [E|NE].
  - (* the normal is parallel to the z axis *)
    rewrite E in Hsq.
    assert (a = 0) by nra. assert (b = 0) by nra. subst a b.
    assert (Hcc : c = 1 \/ c = -1).
    { assert (H : (c - 1) * (c + 1) = 0) by nra.
      destruct (Rmult_integral _ _ H); [left|right]; lra. }
    destruct Hcc as [-> | ->].
    + exfalso. cbn [allclose z_axis] in Hz. rewrite !isclose_refl in Hz. discriminate.
    + replace (allclose (0, 0, -1) (- 0, - 0, - (1))) with true.
      2:{ cbn [allclose]. replace (- 0) with 0 by ring.
          now rewrite !isclose_refl. }
      replace (acos (-1)) with PI
        by (replace (-1) with (Ropp 1) by lra; rewrite acos_opp, acos_1; ring).
      rewrite rotation_of_unit_axis by (cbn; try ring; apply PI_RGT_0).
      rewrite cos_PI, sin_PI. split.
      * intros u v. apply rodrigues_dot; [cbn|]; ring.
      * cbn. repeat f_equal; ring.
  - set (s := norm w) in *.
    assert (Hs0 : 0 <= s) by apply sqrt_pos.
    assert (Hspos : 0 < s) by lra.
    assert (Hk : dot (vdiv w s) (vdiv w s) = 1).
    { cbn. apply Rmult_eq_reg_r with (r := s * s); [|nra].
      field_simplify; [|lra]. nra. }
    assert (Hss : 0 < s * s) by nra.
    assert (Hcc : c * c < 1) by lra.
    assert (Hclt : -1 < c < 1) by (clear - Hcc; split; nra).
    assert (Hsin : sin (acos c) = s).
    { rewrite sin_acos by exact Hc. unfold Rsqr. apply sqrt_lem_1; lra. }
    rewrite rotation_of_unit_axis; [|exact Hk|apply acos_bound_lt; exact Hclt].
    rewrite cos_acos by exact Hc. rewrite Hsin. split.
    + intros u v. apply rodrigues_dot; [exact Hk|]. nra.
    + cbn. repeat f_equal; field; lra.
Qed.

Lemma vsub_vadd x c : vsub (vadd x c) c = x.
Proof. destruct x as [[x1 x2] x3], c as [[c1 c2] c3]. cbn. repeat f_equal; ring. Qed.

Lemma vadd_zero c : vadd (0, 0, 0) c = c.
Proof. destruct c as [[c1 c2] c3]. cbn. repeat f_equal; ring. Qed.

Lemma mat3_apply_zero M : mat3_apply M (0, 0, 0) = (0, 0, 0).
Proof.
  destruct M as [[[[a1 a2] a3] [[b1 b2] b3]] [[c1 c2] c3]]. cbn.
  repeat f_equal; ring.
Qed.

Lemma circle_point_sqr radius a :
  dot (vscale radius (cos a, sin a, 0)) (vscale radius (cos a, sin a, 0)) = radius * radius.
Proof. cbn. pose proof (sin2_cos2 a) as H. unfold Rsqr in H. nsatz. Qed.

Lemma circle_point_flat radius a : dot (vscale radius (cos a, sin a, 0)) z_axis = 0.
Proof. cbn. ring. Qed.

Lemma disc_rotation_None n : disc_rotation n = None -> allclose n z_axis = true.
Proof. unfold disc_rotation. destruct (allclose n z_axis); [reflexivity|discriminate]. Qed.

Lemma rim_point_rotated center radius n M a :
  0 < radius -> dot n n = 1 -> disc_rotation n = Some M ->
  on_disc_rim center radius n
    (vadd (mat3_apply M (vscale radius (cos a, sin a, 0))) center).
Proof.
  intros Hr Hn HM. destruct (disc_rotation_spec n M Hn HM) as [Hiso Hz].
  unfold on_disc_rim, dist. rewrite vsub_vadd.
  assert (Hperp : dot (mat3_apply M (vscale radius (cos a, sin a, 0))) n = 0).
  { rewrite <- Hz, Hiso. apply circle_point_flat. }
  split; [|split].
  - unfold norm. rewrite Hiso, circle_point_sqr. apply sqrt_square. lra.
  - rewrite Hperp, Rabs_R0. unfold atol. lra.
  - intros _. exact Hperp.
Qed.

Lemma rim_point_flat center radius n a :
  0 < radius -> disc_rotation n = None ->
  on_disc_rim center radius n (vadd (vscale radius (cos a, sin a, 0)) center).
Proof.
  intros Hr HN. apply disc_rotation_None in HN.
  unfold on_disc_rim, dist. rewrite vsub_vadd. split; [|split].
  - unfold norm. rewrite circle_point_sqr. apply sqrt_square. lra.
  - destruct n as [[n1 n2] n3]. cbn [allclose z_axis] in HN.
    apply andb_prop in HN as [HN _]. apply andb_prop in HN as [H1 H2].
    apply isclose_true in H1, H2.
    rewrite Rabs_R0, Rmult_0_r, Rplus_0_r, Rminus_0_r in H1, H2.
    cbn. replace (radius * cos a * n1 + radius * sin a * n2 + radius * 0 * n3)
      with (radius * (cos a * n1 + sin a * n2)) by ring.
    rewrite Rabs_mult, (Rabs_pos_eq radius) by lra.
    assert (Hb : Rabs (cos a * n1 + sin a * n2) <= 2 * atol).
    { eapply Rle_trans; [apply Rabs_triang|].
      rewrite !Rabs_mult.
      pose proof (COS_bound a) as Hc. pose proof (SIN_bound a) as Hs.
      assert (Rabs (cos a) <= 1) by (apply Rabs_le; lra).
      assert (Rabs (sin a) <= 1) by (apply Rabs_le; lra).
      pose proof (Rabs_pos n1). pose proof (Rabs_pos n2).
      pose proof (Rabs_pos (cos a)). pose proof (Rabs_pos (sin a)).
      nra. }
    nra.
  - intros Hf. rewrite HN in Hf. discriminate.
Qed.

Lemma norm_z_axis : norm (0, 0, 1) = 1.
Proof.
  unfold norm. replace (dot (0, 0, 1) (0, 0, 1)) with 1 by (cbn; ring).
  apply sqrt_1.
Qed.

Lemma dist_self c : dist c c = 0.
Proof.
  unfold dist, norm. destruct c as [[c1 c2] c3]. cbn.
  replace ((c1 - c1) * (c1 - c1) + (c2 - c2) * (c2 - c2) + (c3 - c3) * (c3 - c3))
    with 0 by ring.
  apply sqrt_0.
Qed.

(** The vertex list of a disc: the hub, which is [center] itself, followed by
    one rim point per sample angle. *)
Lemma create_flat_disc_vertices center radius normal resolution mesh :
  create_flat_disc center radius normal resolution = Ok mesh ->
  exists rim, vertices mesh = center :: rim
    /\ Z.of_nat (length rim) = resolution
    /\ (0 < radius -> norm normal <> 0 ->
        Forall (on_disc_rim center radius (unit_normal normal)) rim).
Proof.
  unfold create_flat_disc, linspace_open.
  destruct (Z.ltb_spec resolution 0) as [?|Hres]; [discriminate|].
  intros [= <-]. cbn [mesh_translate vertices].
  destruct (disc_rotation (unit_normal normal)) as [M|] eqn:HM;
    cbn [mesh_rotate vertices map].
  - rewrite mat3_apply_zero, vadd_zero. eexists. split; [reflexivity|]. split.
    + rewrite !length_map, length_range. lia.
    + intros Hr Hn. rewrite !Forall_map. apply List.Forall_forall. intros a _.
      apply rim_point_rotated; auto using unit_normal_unit.
  - rewrite vadd_zero. eexists. split; [reflexivity|]. split.
    + rewrite !length_map, length_range. lia.
    + intros Hr Hn. rewrite !Forall_map. apply List.Forall_forall. intros a _.
      apply rim_point_flat; auto.
Qed.

(** C4 (amended).  For a positive radius and a non-zero normal, the first
    vertex of the disc is its hub, [center] itself; each of the [resolution]
    other vertices lies at distance [radius] from [center], in the plane
    through [center] orthogonal to the normal (exactly when the disc is
    rotated, and within [2 * atol * radius] of it when the rotation is skipped
    because the unit normal is within [allclose] of the z axis). *)
Theorem C4_disc_rim_on_circle center radius normal resolution mesh :
  0 < radius -> norm normal <> 0 ->
  create_flat_disc center radius normal resolution = Ok mesh ->
  exists rim, vertices mesh = center :: rim
    /\ Z.of_nat (length rim) = resolution
    /\ Forall (on_disc_rim center radius (unit_normal normal)) rim.
Proof.
  intros Hr Hn Hmesh.
  destruct (create_flat_disc_vertices _ _ _ _ _ Hmesh) as (rim & Hv & Hlen & Hrim).
  exists rim. auto.
Qed.

Lemma C4_hub_vertex_counterexample :
  0 < 1 /\ norm (0, 0, 1) <> 0 /\ ~ all_vertices_at_radius (0, 0, 0) 1 (0, 0, 1) 60.
Proof.
  split; [lra|]. split; [rewrite norm_z_axis; lra|].
  intros Hall.
  destruct (create_flat_disc_shape (0, 0, 0) 1 (0, 0, 1) 60) as (mesh & Hmesh & _);
    [lia|].
  destruct (create_flat_disc_vertices _ _ _ _ _ Hmesh) as (rim & Hv & _).
  specialize (Hall mesh (0, 0, 0) Hmesh). rewrite Hv in Hall.
  specialize (Hall (or_introl eq_refl)).
  apply isclose_true in Hall. rewrite dist_self in Hall.
  replace (0 - 1) with (-1) in Hall by ring.
  rewrite Rabs_left, Rabs_pos_eq in Hall by lra.
  unfold atol, rtol in Hall. lra.
Qed.

Lemma C4_disc_rim_on_circle_witness :
  0 < 1 /\ norm (0, 0, 1) <> 0 /\
  exists mesh, create_flat_disc (0, 0, 0) 1 (0, 0, 1) 60 = Ok mesh
    /\ exists rim, vertices mesh = (0, 0, 0) :: rim
      /\ Z.of_nat (length rim) = 60%Z
      /\ Forall (on_disc_rim (0, 0, 0) 1 (unit_normal (0, 0, 1))) rim.
Proof.
  assert (H1 : 0 < 1) by lra.
  assert (H2 : norm (0, 0, 1) <> 0) by (rewrite norm_z_axis; lra).
  split; [exact H1|]. split; [exact H2|].
  destruct (create_flat_disc_shape (0, 0, 0) 1 (0, 0, 1) 60) as (mesh & Hmesh & _);
    [lia|].
  exists mesh. split; [exact Hmesh|].
  exact (C4_disc_rim_on_circle (0, 0, 0) 1 (0, 0, 1) 60 mesh H1 H2 Hmesh).
Defined.

(** C9.  For a resolution of at least 1 the disc has [resolution + 1]
    vertices and [resolution] triangles, and every index of every triangle
    lies between 0 and [resolution], hence within the vertex list. *)
Theorem C9_disc_counts_and_index_bounds center radius normal resolution :
  (1 <= resolution)%Z ->
  exists mesh, create_flat_disc center radius normal resolution = Ok mesh
    /\ Z.of_nat (length (vertices mesh)) = (resolution + 1)%Z
    /\ Z.of_nat (length (triangles mesh)) = resolution
    /\ Forall (fun '(a, b, c) =>
                 (0 <= a <= resolution)%Z /\ (0 <= b <= resolution)%Z
                 /\ (0 <= c <= resolution)%Z
                 /\ (a < Z.of_nat (length (vertices mesh)))%Z
                 /\ (b < Z.of_nat (length (vertices mesh)))%Z
                 /\ (c < Z.of_nat (length (vertices mesh)))%Z)
              (triangles mesh).
Proof.
  intros Hres.
  destruct (create_flat_disc_shape center radius normal resolution) as
    (mesh & Hmesh & Hlen & Htri); [lia|].
  exists mesh. split; [exact Hmesh|]. rewrite Hlen, Htri.
  split; [lia|]. split.
  - rewrite length_app, length_map, length_range. cbn [length]. lia.
  - apply Forall_app. split.
    + apply Forall_map, List.Forall_forall. intros i Hi%in_range. lia.
    + constructor; [lia|constructor].
Qed.

Lemma C9_disc_counts_and_index_bounds_witness :
  exists mesh, create_flat_disc (0, 0, 0) 1 (0, 0, 1) 60 = Ok mesh
    /\ Z.of_nat (length (vertices mesh)) = (60 + 1)%Z
    /\ Z.of_nat (length (triangles mesh)) = 60%Z
    /\ Forall (fun '(a, b, c) =>
                 (0 <= a <= 60)%Z /\ (0 <= b <= 60)%Z /\ (0 <= c <= 60)%Z
                 /\ (a < Z.of_nat (length (vertices mesh)))%Z
                 /\ (b < Z.of_nat (length (vertices mesh)))%Z
                 /\ (c < Z.of_nat (length (vertices mesh)))%Z)
              (triangles mesh).
Proof.
  apply (C9_disc_counts_and_index_bounds (0, 0, 0) 1 (0, 0, 1) 60). lia.
Defined.

End DiscFacts.

(** ** The point labeller *)

Section LabellerFacts.
Import Pipeline.

Lemma np_round_IZR z : np_round (IZR z) = z.
Proof.
  unfold np_round.
  assert (Hf : Zfloor (IZR z) = z) by (apply Zfloor_eq; lra).
  rewrite Hf. destruct (Rlt_dec _ _) as [|N]; [reflexivity|]. exfalso. lra.
Qed.

Lemma clip_index_range c n : (0 < n)%nat -> (0 <= clip_index c n < Z.of_nat n)%Z.
Proof. unfold clip_index. lia. Qed.


Lemma axis_index_in_range axis i n : (0 <= i < Z.of_nat n)%Z -> axis_index axis i n = Ok i.
Proof.
  intros Hi. unfold axis_index.
  destruct (Z.ltb_spec i 0); [lia|].
  destruct (Z.leb_spec 0 i); [|lia]. destruct (Z.ltb_spec i (Z.of_nat n)); [|lia].
  reflexivity.
Qed.

Lemma getitem3_clipped {A} (a : ndarray3 A) v :
  positive_dims (shape a) ->
  getitem3 a (clip_voxel (shape a) v) = Ok (data a (clip_voxel (shape a) v)).
Proof.
  destruct v as [[i j] k]. unfold getitem3, clip_voxel, positive_dims.
  destruct (shape a) as [[n0 n1] n2]. intros (H0 & H1 & H2).
  rewrite !axis_index_in_range by (apply clip_index_range; assumption).
  reflexivity.
Qed.

Lemma label_points_clamped new_seg_scan inv_affine points :
  positive_dims (shape new_seg_scan) ->
  label_points new_seg_scan inv_affine points =
    Ok (map (fun p => data new_seg_scan
                        (clip_voxel (shape new_seg_scan) (voxel_coords_of inv_affine p)))
            points).
Proof.
  intros Hdims. unfold label_points.
  induction points as [|p points IH]; [reflexivity|].
  cbn [map mapM]. rewrite getitem3_clipped by exact Hdims. cbn.
  rewrite IH. reflexivity.
Qed.






End LabellerFacts.

(** ** Centerline metrics *)

Import Metrics.

Lemma getitem_ok {A} (l : list A) (i : nat) x :
  nth_error l i = Some x -> getitem l (Z.of_nat i) = Ok x.
Proof.
  intros Hx. unfold getitem.
  assert (Hlt : (i < length l)%nat) by (apply nth_error_Some; congruence).
  destruct (Z.ltb_spec (Z.of_nat i) 0); [lia|].
  destruct (Z.leb_spec 0 (Z.of_nat i)); [|lia].
  destruct (Z.ltb_spec (Z.of_nat i) (Z.of_nat (length l))); [|lia].
  cbn [andb]. now rewrite Nat2Z.id, Hx.
Qed.

Lemma getitem_in_range {A} (l : list A) (i : Z) :
  (0 <= i < Z.of_nat (length l))%Z -> exists x, getitem l i = Ok x.
Proof.
  intros Hi. destruct (nth_error l (Z.to_nat i)) as [x|] eqn:Hx.
  - exists x. rewrite <- (Z2Nat.id i) by lia. now apply getitem_ok.
  - apply nth_error_None in Hx. lia.
Qed.

Lemma getitem_past_end {A} (l : list A) (i : Z) :
  (Z.of_nat (length l) <= i)%Z -> getitem l i = Raise (IndexError i 0 (Z.of_nat (length l))).
Proof.
  intros Hi. unfold getitem.
  destruct (Z.ltb_spec i 0); [lia|].
  destruct (Z.ltb_spec i (Z.of_nat (length l))); [lia|].
  now rewrite andb_false_r.
Qed.

Lemma argmax_from_bound {A} (ltb : A -> A -> bool) l best_i best i :
  (best_i < i)%nat -> (fst (argmax_from ltb best_i best i l) < i + length l)%nat.
Proof.
  revert best_i best i. induction l as [|y l IH]; intros best_i best i Hlt; cbn.
  - lia.
  - destruct (ltb best y).
    + specialize (IH i y (S i)). lia.
    + specialize (IH best_i best (S i)). lia.
Qed.

Lemma np_argmax_bound l : l <> [] -> (np_argmax l < length l)%nat.
Proof.
  destruct l as [|x l]; [congruence|]. intros _. unfold np_argmax.
  pose proof (argmax_from_bound Rltb l 0%nat x 1%nat). cbn [length]. lia.
Qed.

(** [compute_tangent] on a one-point line reads [pts[1]]. *)
Lemma compute_tangent_single p :
  compute_tangent [p] 0 = Raise (IndexError 1 0 1).
Proof. reflexivity. Qed.

Lemma compute_tangent_first pts :
  compute_tangent pts 0 = (a ← getitem pts 1; b ← getitem pts 0; Ok (vsub a b)).
Proof. reflexivity. Qed.

Lemma compute_tangent_ok pts i :
  (2 <= length pts)%nat -> (0 <= i < Z.of_nat (length pts))%Z ->
  exists t, compute_tangent pts i = Ok t.
Proof.
  intros Hlen Hi. unfold compute_tangent.
  destruct (Z.eqb_spec i 0) as [->|Hi0].
  - destruct (getitem_in_range pts (0 + 1)) as [a Ha]; [lia|].
    destruct (getitem_in_range pts 0) as [b Hb]; [lia|].
    rewrite Ha, Hb. cbn. eauto.
  - destruct (Z.eqb_spec i (Z.of_nat (length pts) - 1)) as [Hl|Hl].
    + destruct (getitem_in_range pts i) as [a Ha]; [lia|].
      destruct (getitem_in_range pts (i - 1)) as [b Hb]; [lia|].
      rewrite Ha, Hb. cbn. eauto.
    + destruct (getitem_in_range pts (i + 1)) as [a Ha]; [lia|].
      destruct (getitem_in_range pts (i - 1)) as [b Hb]; [lia|].
      rewrite Ha, Hb. cbn. eauto.
Qed.

Lemma np_any_argwhere m : np_any m = negb (length (argwhere m) =? 0)%nat.
Proof.
  unfold np_any, ravel, argwhere.
  induction (indices (shape m)) as [|v l IH]; [reflexivity|].
  cbn. destruct (data m v); cbn; [reflexivity|exact IH].
Qed.

Section MetricsFacts.
Context {image : ImageLib}.

Lemma diameter_profile_eq mask affine skeleton :
  map (fun v => distance_transform_edt mask (voxel_spacing_of affine) v * 2)
      (argwhere skeleton) = diameter_profile mask affine skeleton.
Proof. unfold diameter_profile. apply map_ext. intros v. ring. Qed.

(** Once the skeleton is reached and non-empty, the profile is plotted and the
    rest of the analysis is [centerline_from_profile]. *)
Lemma compute_centerline_metrics_run mask affine skeleton labeled num_features
    name destination_folder patient_id w :
  skeleton_stage mask affine skeleton labeled num_features ->
  argwhere skeleton <> [] ->
  compute_centerline_metrics mask affine name destination_folder patient_id w =
    (centerline_from_profile affine skeleton labeled num_features
       (skeleton_mm_of affine skeleton) (diameter_profile mask affine skeleton)
       (plot_file_of destination_folder patient_id name),
     with_plot w (mkPlot (diameter_profile mask affine skeleton)
                         (plot_file_of destination_folder patient_id name))).
Proof.
  intros (Hmask & Hclean & -> & Hlab & Hnf) Hne.
  unfold compute_centerline_metrics.
  rewrite Hmask, Hclean. cbn [negb].
  rewrite np_any_argwhere.
  destruct (argwhere (skeletonize (cleaned_mask_of mask affine))) as [|v vs] eqn:Hvox;
    [congruence|].
  cbn [length Nat.eqb negb]. rewrite Hlab.
  destruct (Z.eqb_spec num_features 0); [contradiction|].
  rewrite length_map. cbn [length Nat.eqb].
  rewrite <- Hvox. rewrite diameter_profile_eq. reflexivity.
Qed.

End MetricsFacts.

Lemma bind_result_Ok_inv {A B} (m : result A) (f : A -> result B) b :
  m ≫= f = Ok b -> exists a, m = Ok a /\ f a = Ok b.
Proof. destruct m as [a|e|]; cbn; [eauto|discriminate|discriminate]. Qed.

(** The fragment graph updates only length, tortuosity and quality. *)
Lemma fragment_graph_keeps centroids_mm m m' vis :
  fragment_graph centroids_mm m = Ok (m', vis) ->
  diameters m' = diameters m
  /\ max_diameter_location m' = max_diameter_location m
  /\ tangent_at_max_diameter_location m' = tangent_at_max_diameter_location m.
Proof.
  unfold fragment_graph.
  destruct (dijkstra _ 0) as [distances ?].
  destruct (dijkstra _ (float_argmax distances)) as [distances_from_endpoint predecessors].
  intros Hrun.
  apply bind_result_Ok_inv in Hrun as (p1 & _ & Hrun).
  apply bind_result_Ok_inv in Hrun as (p2 & _ & Hrun).
  apply bind_result_Ok_inv in Hrun as (path & _ & Hrun).
  injection Hrun as <- _. auto.
Qed.

Lemma centerline_from_profile_stats affine skeleton labeled num_features
    skeleton_mm diameters_mm plot_path ca :
  centerline_from_profile affine skeleton labeled num_features
    skeleton_mm diameters_mm plot_path = Ok (Some ca) ->
  diameters (metrics ca) =
    mkStats (np_min diameters_mm) (np_mean diameters_mm)
            (np_median diameters_mm) (np_max diameters_mm)
  /\ plot_path = Metrics.plot_path ca.
Proof.
  unfold centerline_from_profile. intros Hrun.
  apply bind_result_Ok_inv in Hrun as (loc & _ & Hrun).
  apply bind_result_Ok_inv in Hrun as (tangent & _ & Hrun).
  apply bind_result_Ok_inv in Hrun as ([m vis] & Hbranch & Hrun).
  injection Hrun as <-. cbn [metrics Metrics.plot_path]. split; [|reflexivity].
  destruct (1 <? num_features)%Z.
  - match type of Hbranch with (if ?c then _ else _) = _ => destruct c end.
    + apply fragment_graph_keeps in Hbranch as (-> & _). reflexivity.
    + injection Hbranch as <- _. reflexivity.
  - injection Hbranch as <- _. reflexivity.
Qed.

Lemma centerline_from_profile_not_None affine skeleton labeled num_features
    skeleton_mm diameters_mm plot_path :
  centerline_from_profile affine skeleton labeled num_features
    skeleton_mm diameters_mm plot_path <> Ok None.
Proof.
  unfold centerline_from_profile. intros Hrun.
  apply bind_result_Ok_inv in Hrun as (loc & _ & Hrun).
  apply bind_result_Ok_inv in Hrun as (tangent & _ & Hrun).
  apply bind_result_Ok_inv in Hrun as ([m vis] & _ & Hrun).
  discriminate.
Qed.

(** A one-voxel skeleton: the tangent at index 0 reads [skeleton_mm[1]]. *)
Lemma centerline_from_profile_single_voxel affine skeleton labeled num_features
    p d plot_path :
  centerline_from_profile affine skeleton labeled num_features [p] [d] plot_path
  = Raise (IndexError 1 0 1).
Proof. reflexivity. Qed.

(** A skeleton of at least two voxels in a single component: the analysis
    returns, with length, tortuosity and quality left at [nan] and no
    centerline geometry. *)
Lemma centerline_from_profile_single_fragment affine skeleton labeled num_features
    skeleton_mm diameters_mm plot_path :
  (num_features <= 1)%Z ->
  (2 <= length skeleton_mm)%nat -> length diameters_mm = length skeleton_mm ->
  exists ca,
    centerline_from_profile affine skeleton labeled num_features
      skeleton_mm diameters_mm plot_path = Ok (Some ca)
    /\ length_mm (metrics ca) = NaN /\ tortuosity (metrics ca) = NaN
    /\ quality (metrics ca) = NaN
    /\ vis_data ca = mkVis None None None.
Proof.
  intros Hnf Hlen Hd. unfold centerline_from_profile.
  assert (Hidx : (np_argmax diameters_mm < length skeleton_mm)%nat).
  { rewrite <- Hd. apply np_argmax_bound. destruct diameters_mm; cbn in *; [lia|congruence]. }
  destruct (getitem_in_range skeleton_mm (Z.of_nat (np_argmax diameters_mm))) as [loc Hloc];
    [lia|].
  destruct (compute_tangent_ok skeleton_mm (Z.of_nat (np_argmax diameters_mm))) as [t Ht];
    [lia|lia|].
  rewrite Hloc, Ht. cbn [mbind result_bind].
  destruct (Z.ltb_spec 1 num_features); [lia|].
  eexists. split; [reflexivity|]. cbn. auto.
Qed.

Lemma dist_sym u v : dist u v = dist v u.
Proof.
  unfold dist, norm. f_equal. destruct u as [[a b] c], v as [[x y] z]. cbn. ring.
Qed.

Lemma dist_nonneg u v : 0 <= dist u v.
Proof. apply sqrt_pos. Qed.

Lemma dist_zero_eq u v : dist u v = 0 -> u = v.
Proof.
  unfold dist, norm. intros Hd. apply sqrt_eq_0 in Hd; [|apply dot_nonneg].
  destruct u as [[a b] c], v as [[x y] z]. cbn in Hd.
  pose proof (Rle_0_sqr (a - x)) as Ha. pose proof (Rle_0_sqr (b - y)) as Hb.
  pose proof (Rle_0_sqr (c - z)) as Hc. unfold Rsqr in *.
  assert (Ha0 : (a - x) * (a - x) = 0) by lra.
  assert (Hb0 : (b - y) * (b - y) = 0) by lra.
  assert (Hc0 : (c - z) * (c - z) = 0) by lra.
  apply Rsqr_0_uniq in Ha0, Hb0, Hc0.
  repeat f_equal; lra.
Qed.

Lemma dist_pos u v : u <> v -> 0 < dist u v.
Proof.
  intros Hne. destruct (dist_nonneg u v) as [Hlt|Heq]; [exact Hlt|].
  exfalso. apply Hne. apply dist_zero_eq. now symmetry.
Qed.

Lemma cdist_two c1 c2 :
  cdist [c1; c2] [c1; c2] = [[0; dist c1 c2]; [dist c1 c2; 0]].
Proof. unfold cdist. cbn. now rewrite !dist_self, (dist_sym c2 c1). Qed.

Lemma mst_two d : d <> 0 ->
  minimum_spanning_tree [[0; d]; [d; 0]] = mkGraph 2 [(0%nat, 1%nat, d)].
Proof.
  intros Hd. unfold minimum_spanning_tree. f_equal.
  assert (He : dense_edges [[0; d]; [d; 0]] = [(0%nat, 1%nat, d); (1%nat, 0%nat, d)]).
  { unfold dense_edges, enumerate. cbn. unfold Reqb.
    destruct (Req_dec_T 0 0); [|congruence].
    destruct (Req_dec_T d 0); [contradiction|]. reflexivity. }
  rewrite He. unfold sort_edges. cbn. unfold weight. cbn.
  destruct (Rle_dec d d); [|lra]. reflexivity.
Qed.

Lemma mst_two_coincident :
  minimum_spanning_tree [[0; 0]; [0; 0]] = mkGraph 2 [].
Proof.
  unfold minimum_spanning_tree. f_equal.
  unfold dense_edges, enumerate. cbn. unfold Reqb.
  destruct (Req_dec_T 0 0); [|congruence]. reflexivity.
Qed.

Lemma dijkstra_two_from_0 d :
  dijkstra (mkGraph 2 [(0%nat, 1%nat, d)]) 0 = ([Fin 0; Fin (0 + d)], [-9999; 0]%Z).
Proof. reflexivity. Qed.

Lemma dijkstra_two_from_1 d :
  dijkstra (mkGraph 2 [(0%nat, 1%nat, d)]) 1 = ([Fin (0 + d); Fin 0], [1; -9999]%Z).
Proof. reflexivity. Qed.

Lemma dijkstra_isolated_from_0 :
  dijkstra (mkGraph 2 []) 0 = ([Fin 0; PInf], [-9999; -9999]%Z).
Proof. reflexivity. Qed.

Lemma dijkstra_isolated_from_1 :
  dijkstra (mkGraph 2 []) 1 = ([PInf; Fin 0], [-9999; -9999]%Z).
Proof. reflexivity. Qed.

(** Two fragments at distinct centroids: the tree is the single edge between
    them, the longest path is that edge. *)
Lemma fragment_graph_two c1 c2 m :
  c1 <> c2 ->
  exists m',
    fragment_graph [c1; c2] m
      = Ok (m', mkVis (Some "lines"%string) (Some [c1; c2]) (Some [(1, 0)%Z]))
    /\ length_mm m' = Fin (dist c1 c2)
    /\ tortuosity m' = Fin 1
    /\ quality m' = Fin 1.
Proof.
  intros Hne. pose proof (dist_pos c1 c2 Hne) as Hd.
  unfold fragment_graph. rewrite cdist_two, mst_two by lra.
  rewrite dijkstra_two_from_0.
  assert (Ha1 : float_argmax [Fin 0; Fin (0 + dist c1 c2)] = 1%nat).
  { cbn. destruct (Rlt_dec 0 (0 + dist c1 c2)); [reflexivity|lra]. }
  rewrite Ha1, dijkstra_two_from_1.
  assert (Ha2 : float_argmax [Fin (0 + dist c1 c2); Fin 0] = 0%nat).
  { cbn. destruct (Rlt_dec (0 + dist c1 c2) 0); [lra|reflexivity]. }
  assert (Hmax : float_max [Fin (0 + dist c1 c2); Fin 0] = Fin (0 + dist c1 c2)).
  { cbn. destruct (Rlt_dec (0 + dist c1 c2) 0); [lra|reflexivity]. }
  rewrite Ha2, Hmax. cbn [getitem Z.of_nat length Z.ltb Z.leb nth_error Z.to_nat
                          andb mbind result_bind walk_back Z.eqb rev app removelast tl
                          combine].
  change (getitem [c1; c2] (Z.of_nat 1)) with (Ok c2).
  change (getitem [c1; c2] (Z.of_nat 0)) with (Ok c1).
  cbn [mbind result_bind].
  fold (dist c2 c1). rewrite (dist_sym c2 c1).
  unfold graph_sum. cbn [edges map weight snd Rsum fold_right].
  unfold Rltb.
  destruct (Rlt_dec 0 (dist c1 c2)); [|lra].
  destruct (Rlt_dec 0 (dist c1 c2 + 0)); [|lra].
  eexists. split; [reflexivity|]. cbn [length_mm tortuosity quality float_div].
  repeat split; f_equal; try field; lra.
Qed.

(** Two fragments at the same centroid: the distance matrix has no edge, the
    second node is unreachable, and tortuosity and quality keep their value. *)
Lemma fragment_graph_coincident c m :
  exists m',
    fragment_graph [c; c] m
      = Ok (m', mkVis (Some "lines"%string) (Some [c; c]) (Some []))
    /\ length_mm m' = PInf
    /\ tortuosity m' = tortuosity m
    /\ quality m' = quality m.
Proof.
  unfold fragment_graph. rewrite cdist_two, dist_self, mst_two_coincident.
  rewrite dijkstra_isolated_from_0.
  change (float_argmax [Fin 0; PInf]) with 1%nat.
  rewrite dijkstra_isolated_from_1.
  change (float_argmax [PInf; Fin 0]) with 0%nat.
  change (float_max [PInf; Fin 0]) with PInf.
  change (getitem [c; c] (Z.of_nat 1)) with (Ok c).
  change (getitem [c; c] (Z.of_nat 0)) with (Ok c).
  cbn [mbind result_bind].
  fold (dist c c). rewrite dist_self.
  unfold graph_sum. cbn [edges map Rsum fold_right].
  unfold Rltb. destruct (Rlt_dec 0 0); [lra|].
  eexists. split; [reflexivity|]. auto.
Qed.

Lemma count_occ_le_filter {A} (f : A -> nat) (g : A -> bool) (l : list A) k :
  k <> 0%nat ->
  (forall v, In v l -> f v <> 0%nat -> g v = true) ->
  (count_occ Nat.eq_dec (map f l) k <= length (List.filter g l))%nat.
Proof.
  intros Hk. induction l as [|v l IH]; intros Hfg; [cbn; lia|].
  cbn [map count_occ List.filter].
  assert (IH' := IH (fun u Hu => Hfg u (or_intror Hu))).
  destruct (Nat.eq_dec (f v) k) as [Heq|Hne].
  - rewrite (Hfg v (or_introl eq_refl)) by congruence. cbn. lia.
  - destruct (g v); cbn; lia.
Qed.

Lemma bincount_three xs n0 n1 n2 :
  bincount xs = [n0; n1; n2] ->
  count_occ Nat.eq_dec xs 1%nat = n1 /\ count_occ Nat.eq_dec xs 2%nat = n2.
Proof.
  unfold bincount. destruct xs as [|x xs]; [discriminate|].
  set (ys := x :: xs). intros Hb.
  assert (Hlen : S (list_max ys) = 3%nat).
  { apply (f_equal (@length nat)) in Hb. now rewrite length_map, length_seq in Hb. }
  rewrite Hlen in Hb. cbn in Hb. injection Hb as _ H1 H2. auto.
Qed.

Lemma significant_labels_two n0 n1 n2 :
  (1 < n1)%nat -> (1 < n2)%nat ->
  List.filter (fun l => negb (l =? 0)%nat)
    (List.filter (fun l => (1 <? nth l [n0; n1; n2] 0)%nat) (seq 0 (length [n0; n1; n2])))
  = [1; 2]%nat.
Proof.
  intros H1 H2.
  destruct n1 as [|[|n1]]; [lia|lia|]. destruct n2 as [|[|n2]]; [lia|lia|].
  destruct n0 as [|[|n0]]; reflexivity.
Qed.

Lemma skeleton_has_two_voxels skeleton labeled n0 n1 n2 :
  labelling_of skeleton labeled ->
  bincount (ravel labeled) = [n0; n1; n2] -> (1 < n1)%nat ->
  (2 <= length (argwhere skeleton))%nat.
Proof.
  intros [Hshape Hlab] Hb Hn1. apply bincount_three in Hb as [H1 _].
  unfold ravel in H1. rewrite Hshape in H1. unfold argwhere.
  pose proof (count_occ_le_filter (data labeled) (data skeleton)
                (indices (shape skeleton)) 1%nat ltac:(lia) Hlab).
  lia.
Qed.

(** The analysis of a skeleton in two fragments, each of more than one
    voxel. *)
Lemma centerline_from_profile_two_fragments affine skeleton labeled n0 n1 n2
    skeleton_mm diameters_mm plot_path :
  bincount (ravel labeled) = [n0; n1; n2] -> (1 < n1)%nat -> (1 < n2)%nat ->
  (2 <= length skeleton_mm)%nat -> length diameters_mm = length skeleton_mm ->
  let c1 := fragment_centroid affine skeleton labeled 1 in
  let c2 := fragment_centroid affine skeleton labeled 2 in
  exists ca,
    centerline_from_profile affine skeleton labeled 2 skeleton_mm diameters_mm plot_path
      = Ok (Some ca)
    /\ (c1 <> c2 ->
        length_mm (metrics ca) = Fin (dist c1 c2) /\ quality (metrics ca) = Fin 1
        /\ tortuosity (metrics ca) = Fin 1)
    /\ (c1 = c2 -> quality (metrics ca) = NaN /\ tortuosity (metrics ca) = NaN).
Proof.
  intros Hb Hn1 Hn2 Hlen Hd c1 c2. unfold centerline_from_profile.
  assert (Hidx : (np_argmax diameters_mm < length skeleton_mm)%nat).
  { rewrite <- Hd. apply np_argmax_bound. destruct diameters_mm; cbn in *; [lia|congruence]. }
  destruct (getitem_in_range skeleton_mm (Z.of_nat (np_argmax diameters_mm))) as [loc Hloc];
    [lia|].
  destruct (compute_tangent_ok skeleton_mm (Z.of_nat (np_argmax diameters_mm))) as [t Ht];
    [lia|lia|].
  rewrite Hloc, Ht. cbn [mbind result_bind].
  change (1 <? 2)%Z with true. cbv iota.
  rewrite Hb, significant_labels_two by assumption.
  change (1 <? length [1%nat; 2%nat])%nat with true. cbv iota.
  change (map (affine_apply affine) (center_of_mass skeleton labeled [1%nat; 2%nat]))
    with [c1; c2].
  destruct (Req_dec_T (dist c1 c2) 0) as [Hz|Hnz].
  - apply dist_zero_eq in Hz.
    destruct (fragment_graph_coincident c1
                (mkMetrics (mkStats (np_min diameters_mm) (np_mean diameters_mm)
                                    (np_median diameters_mm) (np_max diameters_mm))
                           NaN NaN NaN loc t)) as (m' & Hrun & _ & Htort & Hqual).
    rewrite <- Hz. rewrite Hrun. cbn [mbind result_bind].
    eexists. split; [reflexivity|]. cbn [metrics]. split.
    + intros Hne. now contradiction Hne.
    + intros _. now rewrite Hqual, Htort.
  - assert (Hne : c1 <> c2) by (intros Heq; apply Hnz; rewrite Heq; apply dist_self).
    destruct (fragment_graph_two c1 c2
                (mkMetrics (mkStats (np_min diameters_mm) (np_mean diameters_mm)
                                    (np_median diameters_mm) (np_max diameters_mm))
                           NaN NaN NaN loc t) Hne) as (m' & Hrun & Hl & Htort & Hqual).
    rewrite Hrun. cbn [mbind result_bind].
    eexists. split; [reflexivity|]. cbn [metrics]. split.
    + intros _. auto.
    + intros Heq. contradiction.
Qed.

Section CenterlineFacts.
Context {image : ImageLib}.

Lemma compute_centerline_metrics_single_voxel mask affine skeleton labeled num_features
    v name destination_folder patient_id w :
  skeleton_stage mask affine skeleton labeled num_features ->
  argwhere skeleton = [v] ->
  compute_centerline_metrics mask affine name destination_folder patient_id w =
    (Raise (IndexError 1 0 1),
     with_plot w (mkPlot (diameter_profile mask affine skeleton)
                         (plot_file_of destination_folder patient_id name))).
Proof.
  intros Hstage Hv.
  rewrite (compute_centerline_metrics_run _ _ _ _ _ _ _ _ _ Hstage) by congruence.
  unfold skeleton_mm_of, diameter_profile. rewrite Hv. reflexivity.
Qed.

(** C8.  Once the skeleton is non-empty, the diameter profile handed to the
    plot, one value per skeleton voxel in [argwhere] order, is twice the
    Euclidean distance transform of the mask that was passed in (not of its
    opening, and with no padding), sampled with the voxel spacing, at that
    voxel; the reported statistics are those of this profile. *)
Theorem C8_diameter_is_twice_edt_of_original_mask mask affine skeleton labeled
    num_features name destination_folder patient_id w :
  skeleton_stage mask affine skeleton labeled num_features ->
  argwhere skeleton <> [] ->
  let run := compute_centerline_metrics mask affine name destination_folder patient_id w in
  let profile :=
    map (fun v => 2 * distance_transform_edt mask (voxel_spacing_of affine) v)
        (argwhere skeleton) in
  plots (snd run) =
    plots w ++ [mkPlot profile (plot_file_of destination_folder patient_id name)]
  /\ fst run <> Ok None
  /\ forall ca, fst run = Ok (Some ca) ->
       diameters (metrics ca) =
         mkStats (np_min profile) (np_mean profile) (np_median profile) (np_max profile).
Proof.
  intros Hstage Hne run profile. subst run.
  rewrite (compute_centerline_metrics_run _ _ _ _ _ _ _ _ _ Hstage Hne).
  cbn [fst snd with_plot plots]. split; [reflexivity|]. split.
  - apply centerline_from_profile_not_None.
  - intros ca Hca. apply centerline_from_profile_stats in Hca as [Hst _]. exact Hst.
Qed.

Lemma two_fragments_run mask affine skeleton labeled n0 n1 n2
    name destination_folder patient_id w :
  skeleton_stage mask affine skeleton labeled 2 ->
  labelling_of skeleton labeled ->
  bincount (ravel labeled) = [n0; n1; n2] -> (1 < n1)%nat -> (1 < n2)%nat ->
  let c1 := fragment_centroid affine skeleton labeled 1 in
  let c2 := fragment_centroid affine skeleton labeled 2 in
  exists ca w',
    compute_centerline_metrics mask affine name destination_folder patient_id w
      = (Ok (Some ca), w')
    /\ (c1 <> c2 ->
        length_mm (metrics ca) = Fin (dist c1 c2) /\ quality (metrics ca) = Fin 1)
    /\ (c1 = c2 -> quality (metrics ca) = NaN).
Proof.
  intros Hstage Hlab Hb Hn1 Hn2 c1 c2.
  pose proof (skeleton_has_two_voxels skeleton labeled n0 n1 n2 Hlab Hb Hn1) as Hlen.
  rewrite (compute_centerline_metrics_run _ _ _ _ _ _ _ _ _ Hstage)
    by (destruct (argwhere skeleton); cbn in *; [lia|congruence]).
  destruct (centerline_from_profile_two_fragments affine skeleton labeled n0 n1 n2
              (skeleton_mm_of affine skeleton) (diameter_profile mask affine skeleton)
              (plot_file_of destination_folder patient_id name) Hb Hn1 Hn2)
    as (ca & -> & Hdistinct & Hsame).
  { unfold skeleton_mm_of. now rewrite length_map. }
  { unfold skeleton_mm_of, diameter_profile. now rewrite !length_map. }
  eexists _, _. split; [reflexivity|]. split.
  - intros Hne. destruct (Hdistinct Hne) as (Hl & Hq & _). auto.
  - intros Heq. now destruct (Hsame Heq).
Qed.


End CenterlineFacts.

Lemma nth_error_lookup {A} (l : list A) (i : nat) : nth_error l i = l !! i.
Proof. revert i. induction l as [|x l IH]; intros [|i]; cbn; auto. Qed.

(** *** Shortest-path predecessors never loop *)

Lemma pick_spec st u :
  pick st = Some u -> (u < length (sp_dist st))%nat /\ nth u (sp_done st) true = false.
Proof.
  unfold pick, enumerate.
  set (P := fun best : option nat =>
              forall b, best = Some b ->
                (b < length (sp_dist st))%nat /\ nth b (sp_done st) true = false).
  assert (Hgen : forall (l : list (nat * float)) best,
             (forall i d, In (i, d) l -> (i < length (sp_dist st))%nat) ->
             P best ->
             P (fold_left
                  (fun best '(i, d) =>
                     if nth i (sp_done st) true then best
                     else match best with
                          | None => if float_ltb d PInf then Some i else None
                          | Some b =>
                            if float_ltb d (nth b (sp_dist st) NaN) then Some i else best
                          end) l best)).
  { induction l as [|[i d] l IH]; intros best Hl Hbest; [exact Hbest|].
    cbn [fold_left]. apply IH; [intros; eapply Hl; right; eassumption|].
    assert (Hi : (i < length (sp_dist st))%nat) by (eapply Hl; left; reflexivity).
    destruct (nth i (sp_done st) true) eqn:Hd; [exact Hbest|].
    destruct best as [b|].
    - destruct (float_ltb d _); [|exact Hbest]. intros ? [= <-]. auto.
    - destruct (float_ltb d PInf); [|exact Hbest]. intros ? [= <-]. auto. }
  intros Hpick. eapply Hgen; [| |exact Hpick].
  - intros i d Hin. apply in_combine_l in Hin. apply in_seq in Hin. lia.
  - intros b [=].
Qed.

Lemma relax_inv n t rank u st vw :
  (u < n)%nat -> nth u (sp_done st) true = true ->
  search_inv n t rank st -> search_inv n t rank (relax u st vw)
  /\ sp_done (relax u st vw) = sp_done st.
Proof.
  intros Hu Hdone (Hd & Hp & Hf & Hrank & Hpred). destruct vw as [v w]. unfold relax.
  destruct (nth v (sp_done st) true) eqn:Hv; [repeat split; auto|].
  destruct (float_ltb _ _); [|repeat split; auto].
  split; [|reflexivity]. unfold search_inv. cbn [sp_dist sp_pred sp_done].
  rewrite !length_insert. repeat split; auto.
  intros v' p Hlook. destruct (decide (v = v')) as [<-|Hne].
  - assert (Hvn : (v < length (sp_pred st))%nat).
    { rewrite Hp, <- Hf. destruct (Nat.lt_ge_cases v (length (sp_done st))) as [|Hge];
        [assumption|]. rewrite nth_overflow in Hv by exact Hge. discriminate. }
    rewrite list_lookup_insert_eq in Hlook by exact Hvn.
    injection Hlook as <-. right. exists u. repeat split; auto.
    rewrite Hv. discriminate.
  - rewrite list_lookup_insert_ne in Hlook by exact Hne. now apply Hpred.
Qed.

Lemma relax_all_inv n t rank u st vws :
  (u < n)%nat -> nth u (sp_done st) true = true ->
  search_inv n t rank st -> search_inv n t rank (fold_left (relax u) vws st).
Proof.
  revert st. induction vws as [|vw vws IH]; intros st Hu Hdone Hinv; [exact Hinv|].
  cbn [fold_left]. destruct (relax_inv n t rank u st vw Hu Hdone Hinv) as [Hinv' Hsame].
  apply IH; [exact Hu| |exact Hinv']. now rewrite Hsame.
Qed.

Lemma nth_insert_true (l : list bool) u v :
  nth v (<[u := true]> l) true = if decide (u = v) then true else nth v l true.
Proof.
  rewrite !nth_lookup. destruct (decide (u = v)) as [<-|Hne].
  - destruct (decide (u < length l)%nat) as [Hlt|Hge].
    + now rewrite list_lookup_insert_eq.
    + rewrite (proj2 (lookup_ge_None _ _)); [reflexivity|]. rewrite length_insert. lia.
  - now rewrite list_lookup_insert_ne.
Qed.

Lemma finish_inv n t rank u st :
  (u < n)%nat -> nth u (sp_done st) true = false ->
  search_inv n t rank st ->
  search_inv n (S t) (fun v => if decide (v = u) then t else rank v)
    (mkSp (sp_dist st) (sp_pred st) (<[u := true]> (sp_done st))).
Proof.
  intros Hu Hnot (Hd & Hp & Hf & Hrank & Hpred).
  unfold search_inv. cbn [sp_dist sp_pred sp_done]. rewrite length_insert.
  repeat split; auto.
  - intros v Hv. rewrite nth_insert_true.
    destruct (decide (v = u)) as [->|Hne]; [lia|].
    destruct (decide (u = v)); [congruence|]. intros Hdv.
    specialize (Hrank v Hv Hdv). lia.
  - intros v p Hlook. destruct (Hpred v p Hlook) as [->|(k & -> & Hk & Hdk & Hlt)];
      [now left|]. right. exists k.
    assert (Hku : k <> u) by (intros ->; congruence).
    rewrite !nth_insert_true. destruct (decide (u = k)); [congruence|].
    repeat split; auto.
    destruct (decide (k = u)); [congruence|].
    destruct (decide (v = u)) as [->|Hvu].
    + intros _. apply Hrank; assumption.
    + destruct (decide (u = v)); [congruence|]. exact Hlt.
Qed.

Lemma dijkstra_loop_inv g n fuel : forall t rank st,
  search_inv n t rank st ->
  exists t' rank', (t' <= t + fuel)%nat /\ search_inv n t' rank' (dijkstra_loop g fuel st).
Proof.
  induction fuel as [|fuel IH]; intros t rank st Hinv.
  - exists t, rank. split; [lia|exact Hinv].
  - cbn [dijkstra_loop]. destruct (pick st) as [u|] eqn:Hpick.
    + apply pick_spec in Hpick as [Hu Hnot].
      pose proof Hinv as (Hd & _).
      pose proof (finish_inv n t rank u st ltac:(lia) Hnot Hinv) as Hfin.
      eapply (relax_all_inv _ _ _ u _ (neighbours g u)) in Hfin.
      * destruct (IH _ _ _ Hfin) as (t' & rank' & Ht' & Hinv').
        exists t', rank'. split; [lia|exact Hinv'].
      * lia.
      * cbn [sp_done]. rewrite nth_insert_true. now rewrite decide_True.
    + exists t, rank. split; [lia|exact Hinv].
Qed.

Lemma walk_back_fuel predecessors (rank : nat -> nat) :
  (forall v p, predecessors !! v = Some p ->
     p = (-9999)%Z \/ exists k, p = Z.of_nat k /\ (rank k < rank v)%nat) ->
  forall fuel v, (rank v < fuel)%nat ->
    walk_back fuel predecessors (Z.of_nat v) <> OutOfFuel.
Proof.
  intros Hpred. induction fuel as [|fuel IH]; intros v Hv; [lia|].
  cbn [walk_back]. destruct (Z.eqb_spec (Z.of_nat v) (-9999)); [lia|].
  destruct (predecessors !! v) as [p|] eqn:Hlook.
  - rewrite (getitem_ok predecessors v p) by (now rewrite nth_error_lookup).
    cbn [mbind result_bind].
    destruct (Hpred v p Hlook) as [->|(k & -> & Hk)].
    + destruct fuel; cbn; discriminate.
    + specialize (IH k ltac:(lia)).
      destruct (walk_back fuel predecessors (Z.of_nat k)); [discriminate|discriminate|].
      contradiction.
  - apply lookup_ge_None in Hlook.
    rewrite getitem_past_end by lia. discriminate.
Qed.

Lemma dijkstra_walk_back_returns g src v :
  walk_back (S (length (snd (dijkstra g src)))) (snd (dijkstra g src)) (Z.of_nat v)
  <> OutOfFuel.
Proof.
  unfold dijkstra. cbn [snd].
  set (n := nodes g).
  set (st0 := mkSp (<[src := Fin 0]> (replicate n PInf)) (replicate n (-9999)%Z)
                   (replicate n false)).
  assert (Hinv0 : search_inv n 0 (fun _ => 0%nat) st0).
  { unfold search_inv, st0. cbn [sp_dist sp_pred sp_done].
    rewrite length_insert, !length_replicate. repeat split; auto.
    - intros u Hu. rewrite nth_lookup, lookup_replicate_2 by exact Hu. discriminate.
    - intros u p Hlook. apply lookup_replicate in Hlook as [-> _]. now left. }
  destruct (dijkstra_loop_inv g n n 0 _ st0 Hinv0) as (t' & rank & Ht' & Hinv).
  destruct Hinv as (Hd & Hp & Hf & Hrank & Hpred).
  set (st := dijkstra_loop g n st0) in *.
  set (rank' := fun u => if nth u (sp_done st) true then
                           (if decide (u < n)%nat then rank u else n) else n).
  apply (walk_back_fuel _ rank').
  - intros u p Hlook. destruct (Hpred u p Hlook) as [->|(k & -> & Hk & Hdk & Hlt)];
      [now left|]. right. exists k. split; [reflexivity|].
    unfold rank'. rewrite Hdk. rewrite decide_True by exact Hk.
    pose proof (Hrank k Hk Hdk).
    apply lookup_lt_Some in Hlook. rewrite Hp in Hlook.
    destruct (nth u (sp_done st) true) eqn:Hdu; [|lia].
    rewrite decide_True by exact Hlook. now apply Hlt.
  - unfold rank'. rewrite Hp.
    destruct (nth v (sp_done st) true) eqn:Hdv; [|lia].
    destruct (decide (v < n)%nat) as [Hv|]; [|lia].
    specialize (Hrank v Hv Hdv). lia.
Qed.

Lemma result_bind_fuel {A B} (m : result A) (f : A -> result B) :
  m <> OutOfFuel -> (forall a, f a <> OutOfFuel) -> m ≫= f <> OutOfFuel.
Proof. destruct m; cbn; [auto|discriminate|congruence]. Qed.

Lemma getitem_fuel {A} (l : list A) i : getitem l i <> OutOfFuel.
Proof.
  unfold getitem. destruct (_ && _)%bool; [|discriminate].
  destruct (nth_error _ _); discriminate.
Qed.

Lemma compute_tangent_fuel pts i : compute_tangent pts i <> OutOfFuel.
Proof.
  unfold compute_tangent.
  repeat match goal with |- context [if ?c then _ else _] => destruct c end;
    repeat (apply result_bind_fuel; [apply getitem_fuel|intros]); discriminate.
Qed.

Lemma fragment_graph_fuel centroids_mm m : fragment_graph centroids_mm m <> OutOfFuel.
Proof.
  unfold fragment_graph.
  destruct (dijkstra _ 0) as [distances ?].
  destruct (dijkstra _ (float_argmax distances)) as [distances_from_endpoint predecessors]
    eqn:Hd2.
  apply result_bind_fuel; [apply getitem_fuel|intros p1].
  apply result_bind_fuel; [apply getitem_fuel|intros p2].
  apply result_bind_fuel; [|discriminate].
  pose proof (dijkstra_walk_back_returns
                (minimum_spanning_tree (cdist centroids_mm centroids_mm))
                (float_argmax distances) (float_argmax distances_from_endpoint)) as Hw.
  rewrite Hd2 in Hw. exact Hw.
Qed.

Lemma centerline_from_profile_fuel affine skeleton labeled num_features
    skeleton_mm diameters_mm plot_path :
  centerline_from_profile affine skeleton labeled num_features
    skeleton_mm diameters_mm plot_path <> OutOfFuel.
Proof.
  unfold centerline_from_profile.
  apply result_bind_fuel; [apply getitem_fuel|intros loc].
  apply result_bind_fuel; [apply compute_tangent_fuel|intros tangent].
  apply result_bind_fuel; [|intros [m vis]; discriminate].
  repeat match goal with |- context [if ?c then _ else _] => destruct c end;
    try discriminate.
  apply fragment_graph_fuel.
Qed.

Lemma terminates_bind {A B} (m : M A) (f : A -> M B) :
  terminates m -> (forall a, terminates (f a)) -> terminates (m ≫= f).
Proof.
  intros Hm Hf w. unfold mbind, M_bind. specialize (Hm w).
  destruct (m w) as [[a|e|] w']; cbn in *; [apply Hf|discriminate|congruence].
Qed.

Lemma terminates_ret {A} (a : A) : terminates (mret a).
Proof. intros w. discriminate. Qed.

Lemma terminates_lift {A} (r : result A) : r <> OutOfFuel -> terminates (lift r).
Proof. intros Hr w. exact Hr. Qed.

Lemma terminates_status msg : terminates (status_callback msg).
Proof. intros w. discriminate. Qed.

Lemma call_fuel {A} (o : outcome A) : call o <> OutOfFuel.
Proof. destruct o; discriminate. Qed.

Lemma appends_bind {A B} (m : M A) (f : A -> M B) :
  appends_status m -> (forall a, appends_status (f a)) -> appends_status (m ≫= f).
Proof.
  intros Hm Hf w. unfold mbind, M_bind. destruct (Hm w) as [msgs Hmsgs].
  destruct (m w) as [[a|e|] w']; cbn [snd] in *; [|eauto|eauto].
  destruct (Hf a w') as [msgs' Hmsgs']. exists (msgs ++ msgs').
  rewrite Hmsgs', Hmsgs. now rewrite app_assoc.
Qed.

Lemma appends_ret {A} (a : A) : appends_status (mret a).
Proof. intros w. exists []. cbn. now rewrite app_nil_r. Qed.

Lemma appends_lift {A} (r : result A) : appends_status (lift r).
Proof. intros w. exists []. cbn. now rewrite app_nil_r. Qed.

Lemma appends_status_callback msg : appends_status (status_callback msg).
Proof. intros w. exists [msg]. reflexivity. Qed.

Section Termination.
Context {image : ImageLib}.

Lemma compute_centerline_metrics_terminates mask affine name destination_folder patient_id :
  terminates (compute_centerline_metrics mask affine name destination_folder patient_id).
Proof.
  unfold compute_centerline_metrics.
  repeat match goal with
         | |- terminates (if ?c then _ else _) => destruct c
         | |- terminates (let '(_, _) := ?x in _) => destruct x
         | |- terminates (mret _) => apply terminates_ret
         end.
  apply terminates_bind; [intros w; discriminate|intros plot_path].
  apply terminates_lift, centerline_from_profile_fuel.
Qed.

Lemma compute_centerline_metrics_appends mask affine name destination_folder patient_id :
  appends_status
    (compute_centerline_metrics mask affine name destination_folder patient_id).
Proof.
  unfold compute_centerline_metrics.
  repeat match goal with
         | |- appends_status (if ?c then _ else _) => destruct c
         | |- appends_status (let '(_, _) := ?x in _) => destruct x
         | |- appends_status (mret _) => apply appends_ret
         end.
  apply appends_bind; [|intros plot_path; apply appends_lift].
  intros w. exists []. cbn. now rewrite app_nil_r.
Qed.

End Termination.

(** ** The orchestrator *)

Import MeshMetrics Pipeline.

Section PipelineFacts.
Context {image : ImageLib} {meshes : MeshLib} {files : FileLib}.

Lemma process_vessel_empty_mask new_seg_scan affine voxel_spacing points point_labels
    destination_folder patient_id results label_idx name w :
  np_any (eq_label new_seg_scan label_idx) = false ->
  process_vessel new_seg_scan affine voxel_spacing points point_labels
    destination_folder patient_id results label_idx name w
  = (Ok results, say w (processing_msg name label_idx)).
Proof. intros Hempty. unfold process_vessel. rewrite Hempty. reflexivity. Qed.

(** What one iteration does with a non-empty mask, by the outcome of the
    [try] body. *)
Lemma process_vessel_nonempty new_seg_scan affine voxel_spacing points point_labels
    destination_folder patient_id results label_idx name w :
  np_any (eq_label new_seg_scan label_idx) = true ->
  process_vessel new_seg_scan affine voxel_spacing points point_labels
    destination_folder patient_id results label_idx name w
  = match vessel_try_body new_seg_scan affine voxel_spacing points point_labels
            destination_folder patient_id (eq_label new_seg_scan label_idx)
            label_idx name empty_vessel results
            (say w (processing_msg name label_idx)) with
    | (Raise e, w') => (Ok results, report_error w' name e)
    | other => other
    end.
Proof.
  intros Hmask. unfold process_vessel. rewrite Hmask. cbn [negb].
  unfold try_except, mbind, M_bind, status_callback, mret, M_ret, print_exc.
  fold (processing_msg name label_idx). fold (say w (processing_msg name label_idx)).
  destruct (vessel_try_body _ _ _ _ _ _ _ _ _ _ _ _ _) as [[r|e|] w'];
    reflexivity.
Qed.

Lemma bind_Ok_inv {A B} (m : M A) (f : A -> M B) w b w' :
  (m ≫= f) w = (Ok b, w') -> exists a w1, m w = (Ok a, w1) /\ f a w1 = (Ok b, w').
Proof.
  unfold mbind, M_bind. destruct (m w) as [[a|e|] w1]; [eauto|discriminate|discriminate].
Qed.

Lemma vessel_try_body_Ok new_seg_scan affine voxel_spacing points point_labels
    destination_folder patient_id mask label_idx name vessel_results results w r w' :
  vessel_try_body new_seg_scan affine voxel_spacing points point_labels
    destination_folder patient_id mask label_idx name vessel_results results w = (Ok r, w') ->
  exists vr, r = set_vessels results (<[name := vr]> (vessels results)).
Proof.
  unfold vessel_try_body. intros Hrun.
  apply bind_Ok_inv in Hrun as ([vr1 mesh] & w1 & _ & Hrun).
  apply bind_Ok_inv in Hrun as (vr2 & w2 & _ & Hrun).
  apply bind_Ok_inv in Hrun as (vr3 & w3 & _ & Hrun).
  injection Hrun as <- _. eauto.
Qed.

(** An iteration either leaves the result mapping alone or adds the entry of
    its own vessel; it never raises. *)
Lemma process_vessel_outcome new_seg_scan affine voxel_spacing points point_labels
    destination_folder patient_id results label_idx name w :
  match process_vessel new_seg_scan affine voxel_spacing points point_labels
          destination_folder patient_id results label_idx name w with
  | (Ok r, _) => r = results \/ exists vr, r = set_vessels results (<[name := vr]> (vessels results))
  | (Raise _, _) => False
  | (OutOfFuel, _) => True
  end.
Proof.
  destruct (np_any (eq_label new_seg_scan label_idx)) eqn:Hmask.
  - rewrite process_vessel_nonempty by exact Hmask.
    destruct (vessel_try_body _ _ _ _ _ _ _ _ _ _ _ _ _) as [[r|e|] w'] eqn:Hbody.
    + right. eapply vessel_try_body_Ok, Hbody.
    + left. reflexivity.
    + exact I.
  - rewrite process_vessel_empty_mask by exact Hmask. left. reflexivity.
Qed.

(** Mesh reconstruction: the record receives the marching-cubes vertices with
    the padding offset subtracted, and nothing else is done to them. *)
Lemma reconstruct_mesh_run mask affine voxel_spacing name vessel_results w verts faces :
  marching_cubes (smoothed_of mask) (2 / 10) voxel_spacing = Returns (verts, faces) ->
  exists vr mesh,
    reconstruct_mesh mask affine voxel_spacing name vessel_results w
      = (Ok (vr, mesh), say w (reconstructing_msg name))
    /\ v_mesh vr = Some (mkMesh (map (unpad voxel_spacing) verts) faces)
    /\ mesh = snd (compute_mesh_metrics (mkMesh (map (unpad voxel_spacing) verts) faces)).
Proof.
  intros Hmc. unfold reconstruct_mesh.
  unfold mbind at 1. unfold M_bind, status_callback.
  unfold mbind, M_bind, lift. fold (smoothed_of mask). rewrite Hmc. cbn [call].
  fold (unpad voxel_spacing).
  destruct (compute_mesh_metrics (mkMesh (map (unpad voxel_spacing) verts) faces))
    as [[[surface volume] watertight] mesh] eqn:Hmm.
  cbn. eexists _, _. split; [reflexivity|]. split; reflexivity.
Qed.

Lemma reconstruct_mesh_raises mask affine voxel_spacing name vessel_results w e :
  marching_cubes (smoothed_of mask) (2 / 10) voxel_spacing = Raises e ->
  reconstruct_mesh mask affine voxel_spacing name vessel_results w
    = (Raise e, say w (reconstructing_msg name)).
Proof.
  intros Hmc. unfold reconstruct_mesh.
  unfold mbind at 1. unfold M_bind, status_callback.
  unfold mbind, M_bind, lift. fold (smoothed_of mask). rewrite Hmc. reflexivity.
Qed.

Lemma analyse_centerline_raises mask affine name destination_folder patient_id
    vessel_results w e w' :
  compute_centerline_metrics mask affine name destination_folder patient_id
    (say w (analyzing_msg name)) = (Raise e, w') ->
  analyse_centerline mask affine name destination_folder patient_id vessel_results w
    = (Raise e, w').
Proof.
  intros Hrun. unfold analyse_centerline.
  unfold mbind at 1. unfold M_bind, status_callback.
  unfold mbind at 1. unfold M_bind.
  fold (analyzing_msg name). fold (say w (analyzing_msg name)).
  rewrite Hrun. reflexivity.
Qed.

(** The [try] body when the centerline analysis raises after the mesh has been
    reconstructed. *)
Lemma vessel_try_body_centerline_raises new_seg_scan affine voxel_spacing points
    point_labels destination_folder patient_id mask label_idx name vessel_results
    results w verts faces e w' :
  marching_cubes (smoothed_of mask) (2 / 10) voxel_spacing = Returns (verts, faces) ->
  compute_centerline_metrics mask affine name destination_folder patient_id
    (say (say w (reconstructing_msg name)) (analyzing_msg name)) = (Raise e, w') ->
  vessel_try_body new_seg_scan affine voxel_spacing points point_labels
    destination_folder patient_id mask label_idx name vessel_results results w
    = (Raise e, w').
Proof.
  intros Hmc Hrun. unfold vessel_try_body.
  destruct (reconstruct_mesh_run mask affine voxel_spacing name vessel_results w
              verts faces Hmc) as (vr & mesh & Hrec & _).
  unfold mbind at 1. unfold M_bind. rewrite Hrec.
  unfold mbind at 1. unfold M_bind.
  rewrite (analyse_centerline_raises _ _ _ _ _ _ _ _ _ Hrun). reflexivity.
Qed.

(** An iteration whose [try] body raises: the exception is reported, the
    partial record is dropped and the result mapping is returned as it was. *)
Lemma process_vessel_raise new_seg_scan affine voxel_spacing points point_labels
    destination_folder patient_id results label_idx name w e w' :
  np_any (eq_label new_seg_scan label_idx) = true ->
  vessel_try_body new_seg_scan affine voxel_spacing points point_labels
    destination_folder patient_id (eq_label new_seg_scan label_idx)
    label_idx name empty_vessel results (say w (processing_msg name label_idx))
    = (Raise e, w') ->
  process_vessel new_seg_scan affine voxel_spacing points point_labels
    destination_folder patient_id results label_idx name w
  = (Ok results, report_error w' name e).
Proof.
  intros Hmask Hbody. rewrite process_vessel_nonempty by exact Hmask.
  rewrite Hbody. reflexivity.
Qed.

Lemma vessel_loop_cons new_seg_scan affine voxel_spacing points point_labels
    destination_folder patient_id label_idx color name todo results w r w' :
  process_vessel new_seg_scan affine voxel_spacing points point_labels
    destination_folder patient_id results label_idx name w = (Ok r, w') ->
  vessel_loop new_seg_scan affine voxel_spacing points point_labels
    destination_folder patient_id ((label_idx, (color, name)) :: todo) results w
  = vessel_loop new_seg_scan affine voxel_spacing points point_labels
      destination_folder patient_id todo r w'.
Proof.
  intros Hstep. cbn [vessel_loop]. unfold mbind at 1. unfold M_bind.
  rewrite Hstep. reflexivity.
Qed.

(** A one-voxel skeleton under the orchestrator: mesh reconstructed, the
    centerline analysis raises, the iteration returns the mapping unchanged. *)
Lemma process_vessel_single_voxel new_seg_scan affine voxel_spacing points point_labels
    destination_folder patient_id results label_idx name w
    skeleton labeled num_features v verts faces :
  skeleton_stage (eq_label new_seg_scan label_idx) affine skeleton labeled num_features ->
  argwhere skeleton = [v] ->
  marching_cubes (smoothed_of (eq_label new_seg_scan label_idx)) (2 / 10) voxel_spacing
    = Returns (verts, faces) ->
  exists w',
    vessel_try_body new_seg_scan affine voxel_spacing points point_labels
      destination_folder patient_id (eq_label new_seg_scan label_idx) label_idx name
      empty_vessel results (say w (processing_msg name label_idx))
      = (Raise (IndexError 1 0 1), w')
    /\ process_vessel new_seg_scan affine voxel_spacing points point_labels
         destination_folder patient_id results label_idx name w
       = (Ok results, report_error w' name (IndexError 1 0 1))
    /\ status w' = status w ++ [processing_msg name label_idx; reconstructing_msg name;
                                analyzing_msg name].
Proof.
  intros Hstage Hv Hmc.
  pose proof Hstage as (Hmask & _).
  eexists. split; [|split].
  - eapply vessel_try_body_centerline_raises; [exact Hmc|].
    eapply compute_centerline_metrics_single_voxel; eassumption.
  - apply process_vessel_raise; [exact Hmask|].
    eapply vessel_try_body_centerline_raises; [exact Hmc|].
    eapply compute_centerline_metrics_single_voxel; eassumption.
  - cbn. rewrite <- !app_assoc. reflexivity.
Qed.


(** C10.  [compute_tangent(pts, 0)] reads [pts[1]] whatever the length of
    [pts]; hence on a mask whose skeleton is a single voxel
    [compute_centerline_metrics] raises an index error rather than returning,
    and the orchestrator, which has by then put the reconstructed mesh in the
    vessel's record, reports the error and returns the result mapping without
    that record. *)
Theorem C10_single_voxel_skeleton_raises_and_mesh_record_is_dropped
    new_seg_scan affine voxel_spacing points point_labels destination_folder patient_id
    results label_idx name w skeleton labeled num_features v verts faces :
  skeleton_stage (eq_label new_seg_scan label_idx) affine skeleton labeled num_features ->
  argwhere skeleton = [v] ->
  marching_cubes (smoothed_of (eq_label new_seg_scan label_idx)) (2 / 10) voxel_spacing
    = Returns (verts, faces) ->
  (forall pts, compute_tangent pts 0
               = (a ← getitem pts 1; b ← getitem pts 0; Ok (vsub a b)))
  /\ (forall p, compute_tangent [p] 0 = Raise (IndexError 1 0 1))
  /\ (forall w0, fst (compute_centerline_metrics (eq_label new_seg_scan label_idx) affine
                        name destination_folder patient_id w0)
                 = Raise (IndexError 1 0 1))
  /\ (exists vr mesh w1,
        reconstruct_mesh (eq_label new_seg_scan label_idx) affine voxel_spacing name
          empty_vessel (say w (processing_msg name label_idx)) = (Ok (vr, mesh), w1)
        /\ v_mesh vr = Some (mkMesh (map (unpad voxel_spacing) verts) faces))
  /\ exists w',
       process_vessel new_seg_scan affine voxel_spacing points point_labels
         destination_folder patient_id results label_idx name w = (Ok results, w')
       /\ status w' = status w ++ [processing_msg name label_idx; reconstructing_msg name;
                                   analyzing_msg name;
                                   error_msg name (IndexError 1 0 1)].
Proof.
  intros Hstage Hv Hmc.
  split; [intros pts; apply compute_tangent_first|].
  split; [intros p; apply compute_tangent_single|].
  split.
  { intros w0.
    now rewrite (compute_centerline_metrics_single_voxel _ _ _ _ _ _ _ _ _ w0 Hstage Hv). }
  split.
  { destruct (reconstruct_mesh_run (eq_label new_seg_scan label_idx) affine voxel_spacing
                name empty_vessel (say w (processing_msg name label_idx)) verts faces Hmc)
      as (vr & mesh & Hrec & Hvm & _).
    eauto. }
  destruct (process_vessel_single_voxel new_seg_scan affine voxel_spacing points
              point_labels destination_folder patient_id results label_idx name w
              skeleton labeled num_features v verts faces Hstage Hv Hmc)
    as (w' & _ & Hstep & Hst).
  eexists. split; [exact Hstep|].
  cbn [report_error status]. rewrite Hst, <- app_assoc. reflexivity.
Qed.

(** The entries of the fixed label table. *)
Lemma label_table :
  enumerate_from 1 (combine colors_rgb names)
  = [(1%Z, ((1, 0, 0), "Aorta")); (2%Z, ((0, 1, 0), "Left Iliac Artery"));
     (3%Z, ((0, 0, 1), "Right Iliac Artery"))].
Proof. reflexivity. Qed.

Lemma label_table_name_determines_label l c n l' c' :
  In (l, (c, n)) (enumerate_from 1 (combine colors_rgb names)) ->
  In (l', (c', n)) (enumerate_from 1 (combine colors_rgb names)) ->
  l' = l.
Proof.
  rewrite label_table. cbn [In].
  intros [E|[E|[E|[]]]] [E'|[E'|[E'|[]]]]; congruence.
Qed.

(** The loop never lets an exception out, and leaves the entry of a name
    alone as long as every label it handles either belongs to another name or
    has an empty mask. *)
Lemma vessel_loop_outcome new_seg_scan affine voxel_spacing points point_labels
    destination_folder patient_id name todo :
  (forall l c n, In (l, (c, n)) todo ->
     n <> name \/ np_any (eq_label new_seg_scan l) = false) ->
  forall results w,
  match vessel_loop new_seg_scan affine voxel_spacing points point_labels
          destination_folder patient_id todo results w with
  | (Ok r, _) => vessels r !! name = vessels results !! name
  | (Raise _, _) => False
  | (OutOfFuel, _) => True
  end.
Proof.
  induction todo as [|[l [c n]] todo IH]; intros Htodo results w.
  - reflexivity.
  - cbn [vessel_loop]. unfold mbind at 1. unfold M_bind.
    pose proof (process_vessel_outcome new_seg_scan affine voxel_spacing points
                  point_labels destination_folder patient_id results l n w) as Hstep.
    destruct (np_any (eq_label new_seg_scan l)) eqn:Hmask.
    + destruct (process_vessel _ _ _ _ _ _ _ _ _ _ _) as [[r1|e|] w1]; [|contradiction|exact I].
      assert (Hn : n <> name).
      { destruct (Htodo l c n (or_introl eq_refl)) as [Hn|Hn]; [exact Hn|congruence]. }
      assert (Hr1 : vessels r1 !! name = vessels results !! name).
      { destruct Hstep as [->|(vr & ->)]; [reflexivity|].
        cbn. now rewrite lookup_insert_ne. }
      rewrite <- Hr1. apply IH. intros l' c' n' Hin. apply (Htodo l' c' n'). now right.
    + rewrite process_vessel_empty_mask by exact Hmask.
      apply IH. intros l' c' n' Hin. apply (Htodo l' c' n'). now right.
Qed.

(** *** Every iteration returns *)

Lemma reconstruct_mesh_terminates mask affine voxel_spacing name vessel_results :
  terminates (reconstruct_mesh mask affine voxel_spacing name vessel_results).
Proof.
  unfold reconstruct_mesh.
  apply terminates_bind; [apply terminates_status|intros _].
  apply terminates_bind; [apply terminates_lift, call_fuel|intros [verts faces]].
  destruct (compute_mesh_metrics _) as [[[? ?] ?] ?]. apply terminates_ret.
Qed.

Lemma analyse_centerline_terminates mask affine name destination_folder patient_id
    vessel_results :
  terminates (analyse_centerline mask affine name destination_folder patient_id
                vessel_results).
Proof.
  unfold analyse_centerline.
  apply terminates_bind; [apply terminates_status|intros _].
  apply terminates_bind; [apply compute_centerline_metrics_terminates|intros [ca|]];
    [|apply terminates_ret].
  apply terminates_bind; [|intros disc; apply terminates_ret].
  apply terminates_lift.
  destruct (create_flat_disc_shape (max_diameter_location (metrics ca))
              (d_max (diameters (metrics ca)) / 2)
              (tangent_at_max_diameter_location (metrics ca)) 60) as (mesh & -> & _);
    [lia|discriminate].
Qed.

Lemma score_quality_terminates points point_labels label_idx name mesh vessel_results :
  terminates (score_quality points point_labels label_idx name mesh vessel_results).
Proof.
  unfold score_quality.
  destruct points as [points|]; [|apply terminates_ret].
  destruct point_labels as [point_labels|]; [|apply terminates_ret].
  destruct (existsb _ _); [|apply terminates_ret].
  apply terminates_bind; [apply terminates_status|intros _].
  apply terminates_bind; [|intros q; apply terminates_ret].
  apply terminates_lift. unfold compute_reconstruction_quality_metrics.
  destruct (_ || _)%bool; [discriminate|].
  apply result_bind_fuel; [apply call_fuel|discriminate].
Qed.

Lemma vessel_try_body_terminates new_seg_scan affine voxel_spacing points point_labels
    destination_folder patient_id mask label_idx name vessel_results results :
  terminates (vessel_try_body new_seg_scan affine voxel_spacing points point_labels
                destination_folder patient_id mask label_idx name vessel_results results).
Proof.
  unfold vessel_try_body.
  apply terminates_bind; [apply reconstruct_mesh_terminates|intros [vr mesh]].
  apply terminates_bind; [apply analyse_centerline_terminates|intros vr2].
  apply terminates_bind; [apply score_quality_terminates|intros vr3].
  apply terminates_ret.
Qed.

Lemma status_grows_vessel_try_body new_seg_scan affine voxel_spacing points point_labels
    destination_folder patient_id mask label_idx name vessel_results results :
  appends_status (vessel_try_body new_seg_scan affine voxel_spacing points point_labels
                    destination_folder patient_id mask label_idx name vessel_results
                    results).
Proof.
  unfold vessel_try_body.
  apply appends_bind; [|intros [vr mesh]; apply appends_bind;
                          [|intros vr2; apply appends_bind;
                              [|intros vr3; apply appends_ret]]].
  - unfold reconstruct_mesh.
    apply appends_bind; [apply appends_status_callback|intros _].
    apply appends_bind; [apply appends_lift|intros [verts faces]].
    destruct (compute_mesh_metrics _) as [[[? ?] ?] ?]. apply appends_ret.
  - unfold analyse_centerline.
    apply appends_bind; [apply appends_status_callback|intros _].
    apply appends_bind; [apply compute_centerline_metrics_appends|intros [ca|]];
      [|apply appends_ret].
    apply appends_bind; [apply appends_lift|intros disc; apply appends_ret].
  - unfold score_quality.
    destruct points as [pts|]; [|apply appends_ret].
    destruct point_labels as [pls|]; [|apply appends_ret].
    destruct (existsb _ _); [|apply appends_ret].
    apply appends_bind; [apply appends_status_callback|intros _].
    apply appends_bind; [apply appends_lift|intros q; apply appends_ret].
Qed.

(** An iteration always returns: with the mapping it received, or with that
    mapping and the entry of its own vessel. *)
Lemma process_vessel_returns new_seg_scan affine voxel_spacing points point_labels
    destination_folder patient_id results label_idx name w :
  exists r w',
    process_vessel new_seg_scan affine voxel_spacing points point_labels
      destination_folder patient_id results label_idx name w = (Ok r, w')
    /\ (r = results
        \/ exists vr, r = set_vessels results (<[name := vr]> (vessels results)))
    /\ exists msgs, status w' = status w ++ processing_msg name label_idx :: msgs.
Proof.
  destruct (np_any (eq_label new_seg_scan label_idx)) eqn:Hmask.
  - rewrite process_vessel_nonempty by exact Hmask.
    pose proof (vessel_try_body_terminates new_seg_scan affine voxel_spacing points
                  point_labels destination_folder patient_id
                  (eq_label new_seg_scan label_idx) label_idx name empty_vessel results
                  (say w (processing_msg name label_idx))) as Hterm.
    assert (Hmono : exists msgs,
               status (snd (vessel_try_body new_seg_scan affine voxel_spacing points
                  point_labels destination_folder patient_id
                  (eq_label new_seg_scan label_idx) label_idx name empty_vessel results
                  (say w (processing_msg name label_idx))))
               = status (say w (processing_msg name label_idx)) ++ msgs).
    { apply status_grows_vessel_try_body. }
    destruct (vessel_try_body _ _ _ _ _ _ _ _ _ _ _ _ _) as [[r|e|] w'] eqn:Hbody;
      cbn [fst snd] in *; [| |congruence]; destruct Hmono as [msgs Hmsgs].
    + exists r, w'. split; [reflexivity|]. split.
      * right. eapply vessel_try_body_Ok, Hbody.
      * exists msgs. rewrite Hmsgs. cbn. now rewrite <- app_assoc.
    + exists results, (report_error w' name e). split; [reflexivity|]. split; [now left|].
      exists (msgs ++ [error_msg name e]). cbn. rewrite Hmsgs. cbn.
      now rewrite <- !app_assoc.
  - rewrite process_vessel_empty_mask by exact Hmask.
    exists results, (say w (processing_msg name label_idx)).
    split; [reflexivity|]. split; [now left|]. exists []. reflexivity.
Qed.

(** The loop always returns; every label of the list is announced, in order;
    and the entry of a name is left alone as long as every label handled
    belongs to another name or has an empty mask. *)
Lemma vessel_loop_returns new_seg_scan affine voxel_spacing points point_labels
    destination_folder patient_id todo : forall results w,
  exists r w' msgs,
    vessel_loop new_seg_scan affine voxel_spacing points point_labels
      destination_folder patient_id todo results w = (Ok r, w')
    /\ status w' = status w ++ msgs
    /\ processing_msgs todo `sublist_of` msgs
    /\ forall name,
         (forall l c n, In (l, (c, n)) todo ->
            n <> name \/ np_any (eq_label new_seg_scan l) = false) ->
         vessels r !! name = vessels results !! name.
Proof.
  induction todo as [|[l [c n]] todo IH]; intros results w.
  - exists results, w, []. cbn. rewrite app_nil_r. repeat split; auto; constructor.
  - destruct (process_vessel_returns new_seg_scan affine voxel_spacing points point_labels
                destination_folder patient_id results l n w)
      as (r1 & w1 & Hstep & Hr1 & msgs1 & Hmsgs1).
    destruct (IH r1 w1) as (r & w' & msgs & Hloop & Hmsgs & Hsub & Hkeep).
    exists r, w', (processing_msg n l :: msgs1 ++ msgs).
    rewrite (vessel_loop_cons _ _ _ _ _ _ _ _ _ _ _ _ _ _ _ Hstep).
    split; [exact Hloop|]. split; [|split].
    + rewrite Hmsgs, Hmsgs1. rewrite <- app_assoc. reflexivity.
    + cbn [processing_msgs map]. constructor. now apply sublist_inserts_l.
    + intros name Htodo.
      rewrite Hkeep by (intros l' c' n' Hin; apply (Htodo l' c' n'); now right).
      destruct Hr1 as [->|(vr & ->)]; [reflexivity|].
      destruct (Htodo l c n (or_introl eq_refl)) as [Hn|Hempty].
      * cbn. now rewrite lookup_insert_ne.
      * rewrite process_vessel_empty_mask in Hstep by exact Hempty.
        injection Hstep as Hres _.
        rewrite <- Hres. reflexivity.
Qed.

Lemma labelling_returns_positive_dims scan_nifti_file pointcloud_file new_seg_scan :
  positive_dims (shape new_seg_scan) ->
  labelling_returns scan_nifti_file pointcloud_file new_seg_scan.
Proof.
  intros Hdims points affine inv_affine _ _ _.
  eexists. apply label_points_clamped, Hdims.
Qed.

Lemma labelling_returns_no_points scan_nifti_file pointcloud_file new_seg_scan e :
  load_pointcloud pointcloud_file = Raises e ->
  labelling_returns scan_nifti_file pointcloud_file new_seg_scan.
Proof. intros Hload points affine inv_affine Hpts. congruence. Qed.

(** The whole analysis: it returns whenever the point labelling does, and a
    label of the table with an empty mask leaves no entry in its result. *)
Lemma analysis_returns scan_nifti_file segmentation_file pointcloud_file
    destination_folder patient_id new_seg_scan w :
  load_segmentation segmentation_file = Returns new_seg_scan ->
  labelling_returns scan_nifti_file pointcloud_file new_seg_scan ->
  exists r w',
    enhanced_vessel_reconstruction_analysis scan_nifti_file segmentation_file
      pointcloud_file destination_folder patient_id w = (Ok r, w')
    /\ forall label_idx color name,
         In (label_idx, (color, name)) (enumerate_from 1 (combine colors_rgb names)) ->
         np_any (eq_label new_seg_scan label_idx) = false ->
         vessels r !! name = None.
Proof.
  intros Hseg Hlab. unfold enhanced_vessel_reconstruction_analysis.
  unfold mbind at 1. unfold M_bind at 1. cbn [status_callback]. rewrite Hseg.
  assert (Hnone : forall (r : AnalysisResult) label_idx color name,
            (forall name',
               (forall l c n, In (l, (c, n)) (enumerate_from 1 (combine colors_rgb names)) ->
                  n <> name' \/ np_any (eq_label new_seg_scan l) = false) ->
               vessels r !! name' = (∅ : gmap string VesselData) !! name') ->
            In (label_idx, (color, name)) (enumerate_from 1 (combine colors_rgb names)) ->
            np_any (eq_label new_seg_scan label_idx) = false ->
            vessels r !! name = None).
  { intros r label_idx color name Hkeep Hin Hempty.
    rewrite Hkeep; [apply lookup_empty|].
    intros l c n Hin'. destruct (decide (n = name)) as [->|Hne]; [right|now left].
    now rewrite (label_table_name_determines_label _ _ _ _ _ Hin Hin'). }
  set (table := enumerate_from 1 (combine colors_rgb names)) in *.
  destruct (load_pointcloud pointcloud_file) as [points|e] eqn:Hpcd;
    destruct (load_affine scan_nifti_file) as [affine|e'] eqn:Haff;
    cbn [call mbind result_bind];
    try destruct (linalg_inv affine) as [inv_affine|e''] eqn:Hinv;
    cbn [call mbind result_bind];
    unfold mbind, M_bind, mret, M_ret, status_callback, lift;
    try (eexists _, _; split; [reflexivity|];
         intros label_idx color name _ _; apply lookup_empty).
  - destruct (Hlab points affine inv_affine Hpcd Haff Hinv) as [point_labels ->].
    match goal with
    | |- context [vessel_loop ?a ?b ?c ?d ?e ?f ?g ?t ?r0 ?w0] =>
      destruct (vessel_loop_returns a b c d e f g t r0 w0)
        as (r & w' & msgs & -> & _ & _ & Hkeep)
    end.
    eexists _, _. split; [reflexivity|]. intros label_idx color name.
    cbn [vessels]. apply Hnone. exact Hkeep.
  - match goal with
    | |- context [vessel_loop ?a ?b ?c ?d ?e ?f ?g ?t ?r0 ?w0] =>
      destruct (vessel_loop_returns a b c d e f g t r0 w0)
        as (r & w' & msgs & -> & _ & _ & Hkeep)
    end.
    eexists _, _. split; [reflexivity|]. intros label_idx color name.
    apply Hnone. exact Hkeep.
Qed.


(** *** What reaches the vessel's record *)

Lemma analyse_centerline_keeps_mesh mask affine name destination_folder patient_id
    vessel_results w vr w' :
  analyse_centerline mask affine name destination_folder patient_id vessel_results w
    = (Ok vr, w') ->
  v_mesh vr = v_mesh vessel_results.
Proof.
  unfold analyse_centerline. intros Hrun.
  apply bind_Ok_inv in Hrun as (_ & w1 & _ & Hrun).
  apply bind_Ok_inv in Hrun as ([ca|] & w2 & _ & Hrun).
  - apply bind_Ok_inv in Hrun as (disc & w3 & _ & Hrun).
    injection Hrun as <- _. reflexivity.
  - injection Hrun as <- _. reflexivity.
Qed.

Lemma score_quality_keeps_mesh points point_labels label_idx name mesh vessel_results
    w vr w' :
  score_quality points point_labels label_idx name mesh vessel_results w = (Ok vr, w') ->
  v_mesh vr = v_mesh vessel_results.
Proof.
  unfold score_quality. intros Hrun.
  destruct points as [pts|]; [|injection Hrun as <- _; reflexivity].
  destruct point_labels as [pls|]; [|injection Hrun as <- _; reflexivity].
  destruct (existsb _ _); [|injection Hrun as <- _; reflexivity].
  apply bind_Ok_inv in Hrun as (_ & w1 & _ & Hrun).
  apply bind_Ok_inv in Hrun as (q & w2 & _ & Hrun).
  injection Hrun as <- _. reflexivity.
Qed.

(** Whenever an iteration stores a record, the mesh in it holds the
    marching-cubes vertices minus the padding offset: the vertices mapped
    through the affine are computed at line 133 and not used. *)
Lemma stored_mesh_is_unpadded_marching_cubes new_seg_scan affine voxel_spacing points
    point_labels destination_folder patient_id mask label_idx name results w r w'
    verts faces :
  marching_cubes (smoothed_of mask) (2 / 10) voxel_spacing = Returns (verts, faces) ->
  vessel_try_body new_seg_scan affine voxel_spacing points point_labels
    destination_folder patient_id mask label_idx name empty_vessel results w = (Ok r, w') ->
  exists vd,
    vessels r !! name = Some vd
    /\ v_mesh vd = Some (mkMesh (map (unpad voxel_spacing) verts) faces).
Proof.
  intros Hmc Hrun. unfold vessel_try_body in Hrun.
  destruct (reconstruct_mesh_run mask affine voxel_spacing name empty_vessel w
              verts faces Hmc) as (vr0 & mesh0 & Hrec & Hvm & _).
  apply bind_Ok_inv in Hrun as ([vr1 mesh] & w1 & Hrec' & Hrun).
  rewrite Hrec in Hrec'. injection Hrec' as <- <- <-.
  apply bind_Ok_inv in Hrun as (vr2 & w2 & Hcl & Hrun).
  apply bind_Ok_inv in Hrun as (vr3 & w3 & Hq & Hrun).
  injection Hrun as <- _. exists vr3. cbn. rewrite lookup_insert_eq. split; [reflexivity|].
  rewrite (score_quality_keeps_mesh _ _ _ _ _ _ _ _ _ Hq).
  rewrite (analyse_centerline_keeps_mesh _ _ _ _ _ _ _ _ _ Hcl). exact Hvm.
Qed.

(** A skeleton of at least two voxels in one component, with no point cloud:
    the iteration stores the vessel's record. *)
Lemma process_vessel_single_fragment new_seg_scan affine voxel_spacing
    destination_folder patient_id results label_idx name w
    skeleton labeled num_features verts faces :
  skeleton_stage (eq_label new_seg_scan label_idx) affine skeleton labeled num_features ->
  (2 <= length (argwhere skeleton))%nat -> (num_features <= 1)%Z ->
  marching_cubes (smoothed_of (eq_label new_seg_scan label_idx)) (2 / 10) voxel_spacing
    = Returns (verts, faces) ->
  exists r w' vd,
    process_vessel new_seg_scan affine voxel_spacing None None
      destination_folder patient_id results label_idx name w = (Ok r, w')
    /\ vessels r !! name = Some vd
    /\ v_mesh vd = Some (mkMesh (map (unpad voxel_spacing) verts) faces).
Proof.
  intros Hstage Hlen Hnf Hmc. pose proof Hstage as (Hmask & _).
  rewrite process_vessel_nonempty by exact Hmask.
  set (w0 := say w (processing_msg name label_idx)).
  assert (Hbody : exists r w',
             vessel_try_body new_seg_scan affine voxel_spacing None None
               destination_folder patient_id (eq_label new_seg_scan label_idx)
               label_idx name empty_vessel results w0 = (Ok r, w')).
  { unfold vessel_try_body.
    destruct (reconstruct_mesh_run (eq_label new_seg_scan label_idx) affine voxel_spacing
                name empty_vessel w0 verts faces Hmc) as (vr0 & mesh0 & Hrec & _).
    unfold mbind at 1. unfold M_bind at 1. rewrite Hrec.
    unfold mbind at 1. unfold M_bind at 1.
    unfold analyse_centerline.
    unfold mbind at 1. unfold M_bind at 1. cbn [status_callback].
    unfold mbind at 1. unfold M_bind at 1.
    rewrite (compute_centerline_metrics_run _ _ _ _ _ _ _ _ _ Hstage)
      by (destruct (argwhere skeleton); cbn in *; [lia|congruence]).
    destruct (centerline_from_profile_single_fragment affine skeleton labeled
                num_features (skeleton_mm_of affine skeleton)
                (diameter_profile (eq_label new_seg_scan label_idx) affine skeleton)
                (plot_file_of destination_folder patient_id name) Hnf)
      as (ca & -> & _).
    { unfold skeleton_mm_of. now rewrite length_map. }
    { unfold skeleton_mm_of, diameter_profile. now rewrite !length_map. }
    destruct (create_flat_disc_shape (max_diameter_location (metrics ca))
                (d_max (diameters (metrics ca)) / 2)
                (tangent_at_max_diameter_location (metrics ca)) 60)
      as (disc & Hdisc & _); [lia|].
    unfold mbind at 1. unfold M_bind at 1. unfold lift at 1. rewrite Hdisc.
    cbn. eauto. }
  destruct Hbody as (r & w' & Hbody). rewrite Hbody.
  destruct (stored_mesh_is_unpadded_marching_cubes _ _ _ _ _ _ _ _ _ _ _ _ _ _ _ _
              Hmc Hbody) as (vd & Hvd & Hvm).
  exists r, w', vd. auto.
Qed.

End PipelineFacts.

(** ** The concrete inputs *)

Section ExampleFacts.
Import Examples.

Lemma cleaned_mask_of_example skeleton labeled num_features mask affine :
  @cleaned_mask_of (image_lib_for skeleton labeled num_features) mask affine = mask.
Proof.
  unfold cleaned_mask_of. destruct (voxel_spacing_of affine) as [[s0 s1] s2]. reflexivity.
Qed.

Lemma cube_mask_nonempty : np_any (eq_label cube_volume 1) = true.
Proof. vm_compute. reflexivity. Qed.

Lemma example_stage skeleton labeled num_features affine :
  num_features <> 0%Z ->
  @skeleton_stage (image_lib_for skeleton labeled num_features)
    (eq_label cube_volume 1) affine skeleton labeled num_features.
Proof.
  intros Hnf. unfold skeleton_stage. rewrite cleaned_mask_of_example.
  split; [exact cube_mask_nonempty|]. split; [exact cube_mask_nonempty|].
  split; [reflexivity|]. split; [reflexivity|exact Hnf].
Qed.

Lemma centre_skeleton_voxels : argwhere centre_skeleton = [(2, 2, 2)%Z].
Proof. vm_compute. reflexivity. Qed.

Lemma rod_skeleton_voxels : argwhere rod_skeleton = [(2, 2, 2)%Z; (2, 2, 3)%Z].
Proof. vm_compute. reflexivity. Qed.

Lemma C10_single_voxel_skeleton_raises_and_mesh_record_is_dropped_witness :
  exists w',
    @process_vessel blob_lib mesh_lib cube_volume shifted_affine
      (voxel_spacing_of shifted_affine) None None "out" "patient"
      (mkResult None ∅) 1 "Aorta" world0 = (Ok (mkResult None ∅), w')
    /\ status w' = status world0 ++
         [processing_msg "Aorta" 1; reconstructing_msg "Aorta"; analyzing_msg "Aorta";
          error_msg "Aorta" (IndexError 1 0 1)].
Proof.
  apply (@C10_single_voxel_skeleton_raises_and_mesh_record_is_dropped
           blob_lib mesh_lib cube_volume shifted_affine (voxel_spacing_of shifted_affine)
           None None "out" "patient" (mkResult None ∅) 1%Z "Aorta" world0
           centre_skeleton centre_labeled 1%Z (2, 2, 2)%Z
           [(2, 2, 2); (4, 2, 2); (2, 4, 2)] [(0, 1, 2)%Z]).
  - apply example_stage. discriminate.
  - exact centre_skeleton_voxels.
  - reflexivity.
Defined.

Lemma shifted_affine_moves v : affine_apply shifted_affine v <> v.
Proof.
  destruct v as [[x y] z]. unfold affine_apply, shifted_affine. intros Heq.
  injection Heq as Hx _ _. lra.
Qed.

(** C1, at a concrete input: an affine that moves the volume by 10 mm along
    x.  The record of the vessel holds the marching-cubes vertices with the
    padding offset subtracted; they are not the world-space vertices, which
    lie 10 mm further along x. *)
Theorem C1_stored_mesh_is_not_in_world_space :
  exists r w' vd stored faces,
    @process_vessel rod_lib mesh_lib cube_volume shifted_affine
      (voxel_spacing_of shifted_affine) None None
      "out" "patient" (mkResult None ∅) 1 "Aorta" world0 = (Ok r, w')
    /\ vessels r !! "Aorta" = Some vd
    /\ v_mesh vd = Some (mkMesh stored faces)
    /\ stored = map (unpad (voxel_spacing_of shifted_affine))
                    [(2, 2, 2); (4, 2, 2); (2, 4, 2)]
    /\ Forall2 (fun s v =>
                  s <> affine_apply shifted_affine
                         (unpad (voxel_spacing_of shifted_affine) v))
               stored [(2, 2, 2); (4, 2, 2); (2, 4, 2)].
Proof.
  set (spacing := voxel_spacing_of shifted_affine).
  set (verts := [(2, 2, 2); (4, 2, 2); (2, 4, 2)]).
  destruct (@process_vessel_single_fragment rod_lib mesh_lib cube_volume shifted_affine
              spacing "out" "patient" (mkResult None ∅) 1%Z "Aorta" world0
              rod_skeleton rod_labeled 1%Z verts [(0, 1, 2)%Z])
    as (r & w' & vd & Hrun & Hvd & Hmesh).
  - apply example_stage. discriminate.
  - rewrite rod_skeleton_voxels. cbn. lia.
  - lia.
  - reflexivity.
  - exists r, w', vd, (map (unpad spacing) verts), [(0, 1, 2)%Z].
    repeat split; auto.
    unfold verts. cbn [map].
    repeat constructor; intros Heq; symmetry in Heq; exact (shifted_affine_moves _ Heq).
Qed.






Lemma labelling_of_check skeleton labeled :
  shape labeled = shape skeleton ->
  forallb (fun v => (data labeled v =? 0)%nat || data skeleton v)
          (indices (shape skeleton)) = true ->
  labelling_of skeleton labeled.
Proof.
  intros Hshape Hall. split; [exact Hshape|].
  intros v Hv Hnz. rewrite forallb_forall in Hall. specialize (Hall v Hv).
  apply orb_prop in Hall as [Hz|Hs]; [|exact Hs].
  apply Nat.eqb_eq in Hz. contradiction.
Qed.

Lemma example_stage_of mask skeleton labeled num_features affine :
  np_any mask = true -> num_features <> 0%Z ->
  @skeleton_stage (image_lib_for skeleton labeled num_features)
    mask affine skeleton labeled num_features.
Proof.
  intros Hmask Hnf. unfold skeleton_stage. rewrite cleaned_mask_of_example.
  repeat split; auto.
Qed.




Lemma C8_diameter_is_twice_edt_of_original_mask_witness :
  plots (snd (@compute_centerline_metrics rod_lib (eq_label cube_volume 1) shifted_affine
                "Aorta" "out" "patient" world0))
  = plots world0 ++
      [mkPlot (map (fun v => 2 * @distance_transform_edt rod_lib (eq_label cube_volume 1)
                                   (voxel_spacing_of shifted_affine) v)
                   (argwhere rod_skeleton))
              (plot_file_of "out" "patient" "Aorta")].
Proof.
  apply (@C8_diameter_is_twice_edt_of_original_mask rod_lib (eq_label cube_volume 1)
           shifted_affine rod_skeleton rod_labeled 1%Z "Aorta" "out" "patient" world0).
  - apply example_stage. discriminate.
  - rewrite rod_skeleton_voxels. discriminate.
Defined.

End ExampleFacts.

(** ** More on the tangent, the point labeller and the point colours *)

Import Records.



Lemma clip_index_in_range c n : (0 <= c < Z.of_nat n)%Z -> clip_index c n = c.
Proof. unfold clip_index. lia. Qed.

Lemma clip_voxel_in_bounds_id dims v : in_bounds dims v = true -> clip_voxel dims v = v.
Proof.
  destruct v as [[i j] k], dims as [[n0 n1] n2]. cbn. intros H.
  repeat (apply andb_prop in H as [H ?]).
  rewrite !clip_index_in_range by lia. reflexivity.
Qed.

Lemma getitem3_in_bounds {A} (a : ndarray3 A) v :
  in_bounds (shape a) v = true -> getitem3 a v = Ok (data a v).
Proof.
  destruct v as [[i j] k]. unfold getitem3, in_bounds.
  destruct (shape a) as [[n0 n1] n2]. intros H.
  repeat (apply andb_prop in H as [H ?]).
  rewrite !axis_index_in_range by lia. reflexivity.
Qed.

(** X2.  A point lying exactly at the centre of a voxel of the volume, that is
    the image of the voxel index under the affine, is given the label stored
    at that voxel, whenever [inv_affine] undoes [affine]. *)
Theorem X2_points_at_voxel_centres_get_the_voxel_label new_seg_scan affine inv_affine vs :
  (forall p, affine_apply inv_affine (affine_apply affine p) = p) ->
  Forall (fun v => in_bounds (shape new_seg_scan) v = true) vs ->
  label_points new_seg_scan inv_affine
    (map (fun v => affine_apply affine (voxel_to_vec v)) vs)
  = Ok (map (data new_seg_scan) vs).
Proof.
  intros Hinv Hvs. unfold label_points.
  induction Hvs as [|v vs Hv Hvs IH]; [reflexivity|].
  cbn [map mapM].
  assert (Hvc : voxel_coords_of inv_affine (affine_apply affine (voxel_to_vec v)) = v).
  { unfold voxel_coords_of. rewrite Hinv. destruct v as [[i j] k]. cbn.
    now rewrite !np_round_IZR. }
  rewrite Hvc, clip_voxel_in_bounds_id, getitem3_in_bounds by exact Hv.
  cbn. rewrite IH. reflexivity.
Qed.

Lemma affine_apply_identity p : affine_apply identity4 p = p.
Proof.
  destruct p as [[x y] z]. unfold affine_apply, identity4.
  f_equal; [f_equal|]; ring.
Qed.

Lemma X2_points_at_voxel_centres_get_the_voxel_label_witness :
  label_points Examples.cube_volume identity4
    (map (fun v => affine_apply identity4 (voxel_to_vec v)) [(2, 2, 2)%Z; (0, 4, 1)%Z])
  = Ok (map (data Examples.cube_volume) [(2, 2, 2)%Z; (0, 4, 1)%Z]).
Proof.
  apply (X2_points_at_voxel_centres_get_the_voxel_label
           Examples.cube_volume identity4 identity4 [(2, 2, 2)%Z; (0, 4, 1)%Z]).
  - intros p. now rewrite !affine_apply_identity.
  - repeat constructor.
Defined.

Lemma axis_index_Ok_clipped axis c n j :
  axis_index axis (clip_index c n) n = Ok j -> (0 < n)%nat /\ j = clip_index c n.
Proof.
  unfold axis_index, clip_index.
  destruct (Z.ltb_spec (Z.min (Z.max c 0) (Z.of_nat n - 1)) 0) as [Hneg|Hpos].
  - destruct (_ && _)%bool eqn:Hr; [|discriminate]. intros _.
    apply andb_prop in Hr as [H1 H2]. lia.
  - destruct (_ && _)%bool eqn:Hr; [|discriminate]. intros [= <-].
    apply andb_prop in Hr as [H1 H2]. lia.
Qed.

Lemma getitem3_clipped_Ok_inv {A} (a : ndarray3 A) v x :
  getitem3 a (clip_voxel (shape a) v) = Ok x ->
  positive_dims (shape a) /\ x = data a (clip_voxel (shape a) v).
Proof.
  destruct v as [[i j] k]. unfold getitem3, clip_voxel, positive_dims.
  destruct (shape a) as [[n0 n1] n2].
  destruct (axis_index 0 (clip_index i n0) n0) as [i'| |] eqn:Hi; try discriminate.
  destruct (axis_index 1 (clip_index j n1) n1) as [j'| |] eqn:Hj; try discriminate.
  destruct (axis_index 2 (clip_index k n2) n2) as [k'| |] eqn:Hk; try discriminate.
  cbn. intros [= <-].
  apply axis_index_Ok_clipped in Hi as [? ->], Hj as [? ->], Hk as [? ->]. auto.
Qed.

Lemma label_points_Ok_inv new_seg_scan inv_affine points labels :
  label_points new_seg_scan inv_affine points = Ok labels ->
  (points = [] \/ positive_dims (shape new_seg_scan))
  /\ labels = map (fun p => data new_seg_scan
                     (clip_voxel (shape new_seg_scan)
                        (voxel_coords_of inv_affine p))) points.
Proof.
  unfold label_points. revert labels.
  induction points as [|p points IH]; intros labels Hrun.
  - injection Hrun as <-. auto.
  - cbn [map mapM] in Hrun.
    apply bind_result_Ok_inv in Hrun as (x & Hx & Hrun).
    apply bind_result_Ok_inv in Hrun as (xs & Hxs & Hrun).
    injection Hrun as <-.
    apply getitem3_clipped_Ok_inv in Hx as [Hdims ->].
    destruct (IH xs Hxs) as [_ ->]. split; [now right|reflexivity].
Qed.


Lemma point_colors_spec point_labels :
  point_colors point_labels = map color_of_label point_labels.
Proof.
  unfold point_colors. cbn [enumerate_from colors_rgb length seq map combine fold_left].
  induction point_labels as [|l ls IH]; [reflexivity|].
  cbn [map combine] in *. rewrite IH. f_equal.
  unfold color_of_label. change (1 + Z.of_nat 0)%Z with 1%Z.
  change (1 + Z.of_nat 1)%Z with 2%Z. change (1 + Z.of_nat 2)%Z with 3%Z.
  destruct (Z.eqb_spec l 1), (Z.eqb_spec l 2), (Z.eqb_spec l 3); try reflexivity; lia.
Qed.

(** X4.  The colours of the point cloud: one per point, red, green or blue for
    the points labelled 1, 2 or 3 and black for all the others. *)
Theorem X4_point_colors_follow_the_labels point_labels :
  point_colors point_labels = map color_of_label point_labels
  /\ length (point_colors point_labels) = length point_labels.
Proof.
  rewrite point_colors_spec. split; [reflexivity|apply length_map].
Qed.

Section AnalysisFacts.
Context {image : ImageLib} {meshes : MeshLib} {files : FileLib}.

(** The analysis, stage by stage. *)
Lemma analysis_run scan_nifti_file segmentation_file pointcloud_file
    destination_folder patient_id w :
  enhanced_vessel_reconstruction_analysis scan_nifti_file segmentation_file
    pointcloud_file destination_folder patient_id w
  = match load_segmentation segmentation_file with
    | Raises e => (Ok (mkResult None ∅), say (say w "Loading data...") (seg_error_msg e))
    | Returns new_seg_scan =>
      let w1 := match load_pointcloud pointcloud_file with
                | Raises e => say (say w "Loading data...") (pcd_warning_msg e)
                | Returns _ => say w "Loading data..."
                end in
      match load_affine scan_nifti_file with
      | Raises e => (Ok (mkResult None ∅), say w1 (nifti_error_msg e))
      | Returns affine =>
        match linalg_inv affine with
        | Raises e => (Ok (mkResult None ∅), say w1 (nifti_error_msg e))
        | Returns inv_affine =>
          match load_pointcloud pointcloud_file with
          | Returns points =>
            let w2 := say w1 "Mapping point cloud to segmentation labels..." in
            match label_points new_seg_scan inv_affine points with
            | Ok point_labels =>
              finish_analysis (Some points) (Some point_labels)
                (vessel_loop new_seg_scan affine (voxel_spacing_of affine)
                   (Some points) (Some point_labels) destination_folder patient_id
                   (enumerate_from 1 (combine colors_rgb names)) (mkResult None ∅)
                   (say w2 "...mapping complete."))
            | Raise e => (Raise e, w2)
            | OutOfFuel => (OutOfFuel, w2)
            end
          | Raises _ =>
            finish_analysis None None
              (vessel_loop new_seg_scan affine (voxel_spacing_of affine)
                 None None destination_folder patient_id
                 (enumerate_from 1 (combine colors_rgb names)) (mkResult None ∅) w1)
          end
        end
      end
    end.
Proof.
  unfold enhanced_vessel_reconstruction_analysis.
  unfold mbind at 1. unfold M_bind at 1. cbn [status_callback].
  fold (say w "Loading data...").
  destruct (load_segmentation segmentation_file) as [new_seg_scan|e]; [|reflexivity].
  destruct (load_pointcloud pointcloud_file) as [points|e0];
    destruct (load_affine scan_nifti_file) as [affine|e1];
    cbn [call mbind result_bind]; try reflexivity;
    destruct (linalg_inv affine) as [inv_affine|e2];
    cbn [call mbind result_bind]; try reflexivity.
  - unfold mbind, M_bind, mret, M_ret, status_callback, lift, finish_analysis, say.
    cbn [status plots stderr].
    destruct (label_points new_seg_scan inv_affine points) as [point_labels|e|];
      try reflexivity.
    destruct (vessel_loop _ _ _ _ _ _ _ _ _ _) as [[r|e|] wl]; reflexivity.
  - unfold mbind, M_bind, mret, M_ret, status_callback, lift, finish_analysis, say.
    cbn [status plots stderr].
    destruct (vessel_loop _ _ _ _ _ _ _ _ _ _) as [[r|e|] wl]; reflexivity.
Qed.

Lemma compute_mesh_metrics_volume mesh surface volume watertight mesh' :
  compute_mesh_metrics mesh = ((surface, volume, watertight), mesh') ->
  watertight = false -> volume = 0.
Proof.
  unfold compute_mesh_metrics. destruct (_ || _)%bool.
  - intros [= <- <- <- <-]. reflexivity.
  - intros [= <- <- <- <-]. intros ->. reflexivity.
Qed.

Lemma reconstruct_mesh_Ok_inv mask affine voxel_spacing name w vr mesh w' :
  reconstruct_mesh mask affine voxel_spacing name empty_vessel w = (Ok (vr, mesh), w') ->
  exists m0 surface volume watertight,
    vr = mkVessel (Some m0) None None
           (mkVesselMetrics (Some surface) (Some volume) (Some watertight) None None)
           None None
    /\ (watertight = false -> volume = 0).
Proof.
  unfold reconstruct_mesh. intros Hrun.
  apply bind_Ok_inv in Hrun as (_ & w1 & _ & Hrun).
  apply bind_Ok_inv in Hrun as ([verts faces] & w2 & _ & Hrun).
  destruct (compute_mesh_metrics _) as [[[surface volume] watertight] mesh'] eqn:Hmm.
  injection Hrun as <- <- <-. cbn.
  eexists _, surface, volume, watertight. split; [reflexivity|].
  eapply compute_mesh_metrics_volume, Hmm.
Qed.

Lemma analyse_centerline_Ok_inv mask affine name destination_folder patient_id
    m0 vm w vr w' :
  analyse_centerline mask affine name destination_folder patient_id
    (mkVessel (Some m0) None None vm None None) w = (Ok vr, w') ->
  vr = mkVessel (Some m0) None None vm None None
  \/ exists ca centerline disc rim,
       vr = mkVessel (Some m0) centerline (Some disc)
              (mkVesselMetrics (m_surface_area vm) (m_volume vm) (m_is_watertight vm)
                               (Some (metrics ca)) (m_quality vm))
              (Some (plot_path ca)) None
       /\ vertices disc = max_diameter_location (metrics ca) :: rim
       /\ length rim = 60%nat
       /\ length (triangles disc) = 60%nat.
Proof.
  unfold analyse_centerline. intros Hrun.
  apply bind_Ok_inv in Hrun as (_ & w1 & _ & Hrun).
  apply bind_Ok_inv in Hrun as ([ca|] & w2 & _ & Hrun).
  - apply bind_Ok_inv in Hrun as (disc & w3 & Hdisc & Hrun).
    injection Hrun as <- _. right.
    unfold lift in Hdisc. apply (f_equal fst) in Hdisc. cbn [fst] in Hdisc.
    destruct (create_flat_disc_vertices _ _ _ _ _ Hdisc) as (rim & Hv & Hlen & _).
    destruct (create_flat_disc_shape (max_diameter_location (metrics ca))
                (d_max (diameters (metrics ca)) / 2)
                (tangent_at_max_diameter_location (metrics ca)) 60)
      as (disc' & Hdisc' & _ & Htri); [lia|].
    rewrite Hdisc in Hdisc'. injection Hdisc' as <-.
    eexists ca, _, (mkMesh (vertices disc) (triangles disc)), rim.
    split; [reflexivity|]. cbn [vertices triangles]. split; [exact Hv|]. split; [lia|].
    rewrite Htri, length_app, length_map, length_range. cbn. lia.
  - injection Hrun as <- _. now left.
Qed.

Lemma existsb_eqb_In (labels : list Z) label_idx :
  existsb (fun b : bool => b) (map (fun l => (l =? label_idx)%Z) labels) = true
  <-> In label_idx labels.
Proof.
  induction labels as [|l ls IH]; cbn; [split; [discriminate|tauto]|].
  destruct (Z.eqb_spec l label_idx) as [->|Hne]; cbn; [tauto|].
  rewrite IH. split; [tauto|intros [?|?]; [contradiction|assumption]].
Qed.

Lemma score_quality_Ok_inv points point_labels label_idx name mesh vr w vr' w' :
  score_quality points point_labels label_idx name mesh vr w = (Ok vr', w') ->
  (vr' = vr
   /\ ~ exists pts labels,
         points = Some pts /\ point_labels = Some labels /\ In label_idx labels)
  \/ exists q pts labels,
       points = Some pts /\ point_labels = Some labels /\ In label_idx labels
       /\ vr' = mkVessel (v_mesh vr) (v_centerline vr) (v_max_diameter_disc vr)
                  (mkVesselMetrics (m_surface_area (v_metrics vr)) (m_volume (v_metrics vr))
                     (m_is_watertight (v_metrics vr)) (m_centerline (v_metrics vr))
                     (Some q))
                  (v_diameter_plot_path vr) (v_diameter_plot_bytes vr).
Proof.
  unfold score_quality. intros Hrun.
  destruct points as [pts|];
    [|injection Hrun as <- _; left; split; [reflexivity|intros (? & ? & [=] & _)]].
  destruct point_labels as [pls|];
    [|injection Hrun as <- _; left; split; [reflexivity|intros (? & ? & _ & [=] & _)]].
  destruct (existsb _ _) eqn:Hex.
  - apply bind_Ok_inv in Hrun as (_ & w1 & _ & Hrun).
    apply bind_Ok_inv in Hrun as (q & w2 & _ & Hrun).
    injection Hrun as <- _. right. exists q, pts, pls.
    split; [reflexivity|]. split; [reflexivity|].
    split; [now apply existsb_eqb_In|reflexivity].
  - injection Hrun as <- _. left. split; [reflexivity|].
    intros (? & labels & _ & [= <-] & Hin).
    apply existsb_eqb_In in Hin. congruence.
Qed.

(** The record an iteration stores. *)
Lemma vessel_try_body_record new_seg_scan affine voxel_spacing points point_labels
    destination_folder patient_id mask label_idx name results w r w' :
  vessel_try_body new_seg_scan affine voxel_spacing points point_labels
    destination_folder patient_id mask label_idx name empty_vessel results w = (Ok r, w') ->
  exists vd,
    r = set_vessels results (<[name := vd]> (vessels results))
    /\ mesh_part_ok vd /\ centerline_part_ok vd
    /\ quality_part_ok points point_labels label_idx vd.
Proof.
  unfold vessel_try_body. intros Hrun.
  apply bind_Ok_inv in Hrun as ([vr1 mesh] & w1 & Hrec & Hrun).
  apply bind_Ok_inv in Hrun as (vr2 & w2 & Hcl & Hrun).
  apply bind_Ok_inv in Hrun as (vr3 & w3 & Hq & Hrun).
  injection Hrun as <- _. exists vr3. split; [reflexivity|].
  apply reconstruct_mesh_Ok_inv in Hrec as (m0 & surface & volume & watertight & -> & Hvol).
  apply analyse_centerline_Ok_inv in Hcl.
  apply score_quality_Ok_inv in Hq.
  destruct Hcl as [->|(ca & cl & disc & rim & -> & Hv & Hrim & Htri)];
    destruct Hq as [[-> Hno]|(q & pts & labels & Hpts & Hpl & Hin & ->)]; cbn;
    (split; [split; [eauto|exists surface, volume, watertight; auto]|]);
    (split; [split; [reflexivity|]|]);
    try (left; now auto);
    try (right; exists (metrics ca), (plot_path ca), disc, rim; now auto);
    unfold quality_part_ok; cbn;
    (split; [try (intros [? [=]]); eauto|intros Hyes; try contradiction; eauto]).
Qed.

Lemma process_vessel_Ok_inv new_seg_scan affine voxel_spacing points point_labels
    destination_folder patient_id results label_idx name w r w' :
  process_vessel new_seg_scan affine voxel_spacing points point_labels
    destination_folder patient_id results label_idx name w = (Ok r, w') ->
  r = results
  \/ exists w0,
       vessel_try_body new_seg_scan affine voxel_spacing points point_labels
         destination_folder patient_id (eq_label new_seg_scan label_idx) label_idx name
         empty_vessel results w0 = (Ok r, w').
Proof.
  destruct (np_any (eq_label new_seg_scan label_idx)) eqn:Hmask.
  - rewrite process_vessel_nonempty by exact Hmask.
    destruct (vessel_try_body _ _ _ _ _ _ _ _ _ _ _ _ _) as [[r1|e|] w1] eqn:Hbody.
    + intros [= <- <-]. right. eauto.
    + intros [= <- _]. now left.
    + discriminate.
  - rewrite process_vessel_empty_mask by exact Hmask. intros [= <- _]. now left.
Qed.

Lemma vessel_loop_records new_seg_scan affine voxel_spacing points point_labels
    destination_folder patient_id todo : forall results w r w',
  (forall x, In x todo -> In x (enumerate_from 1 (combine colors_rgb names))) ->
  map_Forall (stored_ok points point_labels) (vessels results) ->
  vessel_loop new_seg_scan affine voxel_spacing points point_labels
    destination_folder patient_id todo results w = (Ok r, w') ->
  map_Forall (stored_ok points point_labels) (vessels r).
Proof.
  induction todo as [|[l [c n]] todo IH]; intros results w r w' Hsub Hres Hloop.
  - injection Hloop as <- _. exact Hres.
  - cbn [vessel_loop] in Hloop.
    apply bind_Ok_inv in Hloop as (r1 & w1 & Hstep & Hloop).
    apply (IH r1 w1 r w'); [intros x Hx; apply Hsub; now right| |exact Hloop].
    apply process_vessel_Ok_inv in Hstep as [->|(w0 & Hbody)]; [exact Hres|].
    apply vessel_try_body_record in Hbody as (vd & -> & Hm & Hc & Hq).
    cbn [set_vessels vessels]. apply map_Forall_insert_2; [|exact Hres].
    exists l, c. split; [apply Hsub; now left|auto].
Qed.

Lemma vessel_loop_point_cloud new_seg_scan affine voxel_spacing points point_labels
    destination_folder patient_id todo : forall results w r w',
  vessel_loop new_seg_scan affine voxel_spacing points point_labels
    destination_folder patient_id todo results w = (Ok r, w') ->
  point_cloud r = point_cloud results.
Proof.
  induction todo as [|[l [c n]] todo IH]; intros results w r w' Hloop.
  - now injection Hloop as <- _.
  - cbn [vessel_loop] in Hloop.
    apply bind_Ok_inv in Hloop as (r1 & w1 & Hstep & Hloop).
    rewrite (IH _ _ _ _ Hloop).
    apply process_vessel_Ok_inv in Hstep as [->|(w0 & Hbody)]; [reflexivity|].
    apply vessel_try_body_Ok in Hbody as (vr & ->). reflexivity.
Qed.

(** Every record in the result of a run that returns. *)
Lemma analysis_records scan_nifti_file segmentation_file pointcloud_file
    destination_folder patient_id w r w' :
  enhanced_vessel_reconstruction_analysis scan_nifti_file segmentation_file
    pointcloud_file destination_folder patient_id w = (Ok r, w') ->
  exists points point_labels,
    map_Forall (stored_ok points point_labels) (vessels r)
    /\ (is_Some points <-> is_Some point_labels)
    /\ match point_cloud r with
       | Some cloud =>
         exists labels, point_labels = Some labels
           /\ load_pointcloud pointcloud_file = Returns (pc_points cloud)
           /\ pc_colors cloud = point_colors labels
           /\ length labels = length (pc_points cloud)
       | None => point_labels = None \/ vessels r = ∅
       end.
Proof.
  rewrite analysis_run.
  destruct (load_segmentation segmentation_file) as [new_seg_scan|e].
  2:{ intros [= <- _]. exists None, None. cbn. split; [apply map_Forall_empty|].
      split; [split; intros [? [=]]|now left]. }
  destruct (load_affine scan_nifti_file) as [affine|e].
  2:{ intros [= <- _]. exists None, None. cbn. split; [apply map_Forall_empty|].
      split; [split; intros [? [=]]|now left]. }
  destruct (linalg_inv affine) as [inv_affine|e].
  2:{ intros [= <- _]. exists None, None. cbn. split; [apply map_Forall_empty|].
      split; [split; intros [? [=]]|now left]. }
  destruct (load_pointcloud pointcloud_file) as [points|e] eqn:Hpcd.
  - cbv zeta.
    destruct (label_points new_seg_scan inv_affine points) as [labels|e|] eqn:Hlab;
      [|discriminate|discriminate].
    unfold finish_analysis.
    destruct (vessel_loop _ _ _ _ _ _ _ _ _ _) as [[r0|e|] wl] eqn:Hloop;
      [|discriminate|discriminate].
    intros [= <- _]. exists (Some points), (Some labels).
    cbn [vessels point_cloud]. split; [|split].
    + eapply vessel_loop_records; [| |exact Hloop]; [auto|apply map_Forall_empty].
    + split; eauto.
    + exists labels. cbn. repeat split; auto.
      destruct (label_points_Ok_inv _ _ _ _ Hlab) as [_ ->]. now rewrite length_map.
  - cbv zeta. unfold finish_analysis.
    destruct (vessel_loop _ _ _ _ _ _ _ _ _ _) as [[r0|e0|] wl] eqn:Hloop;
      [|discriminate|discriminate].
    intros [= <- _]. exists None, None. split; [|split].
    + eapply vessel_loop_records; [| |exact Hloop]; [auto|apply map_Forall_empty].
    + split; intros [? [=]].
    + rewrite (vessel_loop_point_cloud _ _ _ _ _ _ _ _ _ _ _ _ Hloop). now left.
Qed.

End AnalysisFacts.

Lemma first_empty_axis_None dims :
  first_empty_axis dims = None <-> positive_dims dims.
Proof.
  destruct dims as [[n0 n1] n2]. unfold first_empty_axis, positive_dims.
  destruct n0, n1, n2; cbn; split; try discriminate; try lia; reflexivity.
Qed.

Lemma axis_index_empty axis c : axis_index axis (clip_index c 0) 0 = Raise (IndexError (-1) axis 0).
Proof.
  unfold clip_index. replace (Z.min (Z.max c 0) (Z.of_nat 0 - 1)) with (-1)%Z by lia.
  reflexivity.
Qed.

Lemma axis_index_clipped axis c n :
  axis_index axis (clip_index c (S n)) (S n) = Ok (clip_index c (S n)).
Proof. apply axis_index_in_range, clip_index_range. lia. Qed.

Lemma getitem3_clipped_empty_axis {A} (a : ndarray3 A) v axis :
  first_empty_axis (shape a) = Some axis ->
  getitem3 a (clip_voxel (shape a) v) = Raise (IndexError (-1) axis 0).
Proof.
  destruct v as [[i j] k]. unfold getitem3, clip_voxel, first_empty_axis.
  destruct (shape a) as [[n0 n1] n2].
  destruct n0 as [|n0]; [intros [= <-]; now rewrite axis_index_empty|].
  rewrite axis_index_clipped.
  destruct n1 as [|n1]; [intros [= <-]; cbn; now rewrite axis_index_empty|].
  rewrite axis_index_clipped.
  destruct n2 as [|n2]; [intros [= <-]; cbn; now rewrite axis_index_empty|].
  discriminate.
Qed.

Lemma label_points_empty_axis new_seg_scan inv_affine points axis :
  first_empty_axis (shape new_seg_scan) = Some axis -> points <> [] ->
  label_points new_seg_scan inv_affine points = Raise (IndexError (-1) axis 0).
Proof.
  intros Hax Hne. destruct points as [|p points]; [contradiction|].
  unfold label_points. cbn [map mapM].
  now rewrite (getitem3_clipped_empty_axis _ _ _ Hax).
Qed.

(** The outcome of the point labelling, by cases. *)
Lemma label_points_outcome new_seg_scan inv_affine points :
  match label_points new_seg_scan inv_affine points with
  | Ok _ => points = [] \/ first_empty_axis (shape new_seg_scan) = None
  | Raise e =>
    points <> []
    /\ exists axis, first_empty_axis (shape new_seg_scan) = Some axis
                    /\ e = IndexError (-1) axis 0
  | OutOfFuel => False
  end.
Proof.
  destruct points as [|p points]; [cbn; now left|].
  destruct (first_empty_axis (shape new_seg_scan)) as [axis|] eqn:Hax.
  - rewrite (label_points_empty_axis _ _ _ _ Hax) by discriminate.
    split; [discriminate|eauto].
  - rewrite label_points_clamped by now apply first_empty_axis_None.
    now right.
Qed.

Section AnalysisTheorems.
Context {image : ImageLib} {meshes : MeshLib} {files : FileLib}.

Lemma finish_analysis_loop new_seg_scan affine voxel_spacing points point_labels
    destination_folder patient_id todo results w :
  exists r w' msgs,
    finish_analysis points point_labels
      (vessel_loop new_seg_scan affine voxel_spacing points point_labels
         destination_folder patient_id todo results w) = (Ok r, w')
    /\ status w' = status w ++ msgs ++ ["Analysis complete!"]
    /\ processing_msgs todo `sublist_of` msgs.
Proof.
  destruct (vessel_loop_returns new_seg_scan affine voxel_spacing points point_labels
              destination_folder patient_id todo results w)
    as (r & w' & msgs & -> & Hmsgs & Hsub & _).
  unfold finish_analysis. eexists _, _, msgs. split; [reflexivity|].
  split; [|exact Hsub]. cbn [say status]. rewrite Hmsgs. now rewrite app_assoc.
Qed.

(** X5.  When the segmentation cannot be read, or the scan's affine cannot be
    read or inverted, the analysis does not raise: it returns the empty
    result (no point cloud, no vessel), draws no plot, and the last status
    message is the error, so that "Analysis complete!" is never announced;
    between "Loading data..." and the error there is at most the warning
    about the point cloud. *)
Theorem X5_unreadable_segmentation_or_scan_gives_the_empty_result
    scan_nifti_file segmentation_file pointcloud_file destination_folder patient_id w :
  (exists e, load_segmentation segmentation_file = Raises e)
  \/ (exists e, load_affine scan_nifti_file = Raises e)
  \/ (exists affine e, load_affine scan_nifti_file = Returns affine
                       /\ linalg_inv affine = Raises e) ->
  exists w' msgs e,
    enhanced_vessel_reconstruction_analysis scan_nifti_file segmentation_file
      pointcloud_file destination_folder patient_id w = (Ok (mkResult None ∅), w')
    /\ (status w' = status w ++ "Loading data..." :: msgs ++ [seg_error_msg e]
        \/ status w' = status w ++ "Loading data..." :: msgs ++ [nifti_error_msg e])
    /\ (msgs = [] \/ exists e', msgs = [pcd_warning_msg e'])
    /\ plots w' = plots w.
Proof.
  intros Hfail. rewrite analysis_run.
  destruct (load_segmentation segmentation_file) as [new_seg_scan|e].
  2:{ eexists _, [], e. split; [reflexivity|]. cbn [say status plots].
      rewrite <- app_assoc. auto. }
  assert (Hw1 : forall e,
            exists msgs,
              status (say match load_pointcloud pointcloud_file with
                          | Raises e0 => say (say w "Loading data...") (pcd_warning_msg e0)
                          | Returns _ => say w "Loading data..."
                          end (nifti_error_msg e))
              = status w ++ "Loading data..." :: msgs ++ [nifti_error_msg e]
              /\ (msgs = [] \/ exists e', msgs = [pcd_warning_msg e'])
              /\ plots (say match load_pointcloud pointcloud_file with
                            | Raises e0 => say (say w "Loading data...") (pcd_warning_msg e0)
                            | Returns _ => say w "Loading data..."
                            end (nifti_error_msg e)) = plots w).
  { intros e. destruct (load_pointcloud pointcloud_file) as [points|e0].
    - exists []. cbn [say status plots]. rewrite <- app_assoc. auto.
    - exists [pcd_warning_msg e0]. cbn [say status plots]. rewrite <- !app_assoc. eauto. }
  cbv zeta.
  destruct (load_affine scan_nifti_file) as [affine|e].
  2:{ destruct (Hw1 e) as (msgs & Hst & Hmsgs & Hpl). eexists _, msgs, e.
      split; [reflexivity|]. auto. }
  destruct (linalg_inv affine) as [inv_affine|e] eqn:Hinv.
  2:{ destruct (Hw1 e) as (msgs & Hst & Hmsgs & Hpl). eexists _, msgs, e.
      split; [reflexivity|]. auto. }
  destruct Hfail as [[e [=]]|[[e [=]]|(affine' & e & [= <-] & Hinv')]]. congruence.
Qed.

(** X6.  The analysis never fails to terminate, and the only exception it
    lets out is the [IndexError] of the point labelling: it raises exactly
    when all files load, the point cloud is not empty and the volume has an
    axis of length 0, the clamped index -1 being then out of bounds for the
    first such axis.  Whatever else goes wrong is caught and reported. *)
Theorem X6_analysis_raises_exactly_when_the_point_labelling_does
    scan_nifti_file segmentation_file pointcloud_file destination_folder patient_id w :
  fst (enhanced_vessel_reconstruction_analysis scan_nifti_file segmentation_file
         pointcloud_file destination_folder patient_id w) <> OutOfFuel
  /\ forall e,
       fst (enhanced_vessel_reconstruction_analysis scan_nifti_file segmentation_file
              pointcloud_file destination_folder patient_id w) = Raise e
       <-> exists new_seg_scan affine inv_affine points axis,
             load_segmentation segmentation_file = Returns new_seg_scan
             /\ load_affine scan_nifti_file = Returns affine
             /\ linalg_inv affine = Returns inv_affine
             /\ load_pointcloud pointcloud_file = Returns points
             /\ points <> []
             /\ first_empty_axis (shape new_seg_scan) = Some axis
             /\ e = IndexError (-1) axis 0.
Proof.
  rewrite analysis_run.
  destruct (load_segmentation segmentation_file) as [new_seg_scan|e0].
  2:{ cbn. split; [discriminate|]. intros e. split; [discriminate|].
      intros (? & ? & ? & ? & ? & [=] & _). }
  cbv zeta.
  destruct (load_affine scan_nifti_file) as [affine|e0].
  2:{ cbn. split; [discriminate|]. intros e. split; [discriminate|].
      intros (? & ? & ? & ? & ? & _ & [=] & _). }
  destruct (linalg_inv affine) as [inv_affine|e0] eqn:Hinv.
  2:{ cbn. split; [discriminate|]. intros e. split; [discriminate|].
      intros (? & ? & ? & ? & ? & _ & [= <-] & Hinv' & _). congruence. }
  destruct (load_pointcloud pointcloud_file) as [points|e0].
  2:{ destruct (finish_analysis_loop new_seg_scan affine (voxel_spacing_of affine)
                  None None destination_folder patient_id
                  (enumerate_from 1 (combine colors_rgb names)) (mkResult None ∅)
                  (say (say w "Loading data...") (pcd_warning_msg e0)))
        as (r & w' & msgs & -> & _).
      cbn. split; [discriminate|]. intros e. split; [discriminate|].
      intros (? & ? & ? & ? & ? & _ & _ & _ & [=] & _). }
  pose proof (label_points_outcome new_seg_scan inv_affine points) as Hlab.
  destruct (label_points new_seg_scan inv_affine points) as [labels|e0|].
  - destruct (finish_analysis_loop new_seg_scan affine (voxel_spacing_of affine)
                (Some points) (Some labels) destination_folder patient_id
                (enumerate_from 1 (combine colors_rgb names)) (mkResult None ∅)
                (say (say (say w "Loading data...")
                        "Mapping point cloud to segmentation labels...")
                   "...mapping complete."))
      as (r & w' & msgs & -> & _).
    cbn. split; [discriminate|]. intros e. split; [discriminate|].
    intros (? & ? & ? & ? & ? & [= <-] & _ & _ & [= <-] & Hne & Hax & _).
    destruct Hlab; congruence.
  - cbn. split; [discriminate|]. intros e.
    destruct Hlab as (Hne & axis & Hax & ->). split.
    + intros [= <-]. exists new_seg_scan, affine, inv_affine, points, axis.
      repeat split; auto.
    + intros (? & ? & ? & ? & axis' & [= <-] & _ & _ & _ & _ & Hax' & ->). congruence.
  - contradiction.
Qed.

End AnalysisTheorems.

Lemma X5_unreadable_segmentation_or_scan_gives_the_empty_result_witness :
  exists w' msgs e,
    @enhanced_vessel_reconstruction_analysis Examples.blob_lib Examples.mesh_lib
      Examples.file_lib_unreadable_seg
      "scan.nii.gz" "seg.npz" "points.npz" "out" "patient" Examples.world0
    = (Ok (mkResult None ∅), w')
    /\ (status w' = status Examples.world0
                    ++ "Loading data..." :: msgs ++ [seg_error_msg e]
        \/ status w' = status Examples.world0
                       ++ "Loading data..." :: msgs ++ [nifti_error_msg e])
    /\ (msgs = [] \/ exists e', msgs = [pcd_warning_msg e'])
    /\ plots w' = plots Examples.world0.
Proof.
  apply (@X5_unreadable_segmentation_or_scan_gives_the_empty_result
           Examples.blob_lib Examples.mesh_lib Examples.file_lib_unreadable_seg).
  left. eexists. reflexivity.
Defined.

Lemma color_of_label_table l c n :
  In (l, (c, n)) (enumerate_from 1 (combine colors_rgb names)) -> color_of_label l = c.
Proof.
  rewrite label_table. cbn.
  intros [[= <- <- _]|[[= <- <- _]|[[= <- <- _]|[]]]]; reflexivity.
Qed.

Lemma color_of_label_inv l c n l' :
  In (l, (c, n)) (enumerate_from 1 (combine colors_rgb names)) ->
  color_of_label l' = c -> l' = l.
Proof.
  rewrite label_table. cbn. unfold color_of_label.
  intros [[= <- <- _]|[[= <- <- _]|[[= <- <- _]|[]]]];
    destruct (Z.eqb_spec l' 1), (Z.eqb_spec l' 2), (Z.eqb_spec l' 3);
    try lia; intros H; first [lia | exfalso; injection H; intros; lra].
Qed.

Section RecordTheorems.
Context {image : ImageLib} {meshes : MeshLib} {files : FileLib}.

Lemma score_quality_returns points point_labels label_idx name mesh vr w :
  (forall m pts, exists d, scene_compute_distance m pts = Returns d) ->
  exists vr' w', score_quality points point_labels label_idx name mesh vr w = (Ok vr', w').
Proof.
  intros Hscene. unfold score_quality.
  destruct points as [pts|]; [|cbn; eauto].
  destruct point_labels as [pls|]; [|cbn; eauto].
  destruct (existsb _ _); [|cbn; eauto].
  unfold mbind, M_bind, status_callback, lift, mret, M_ret,
    compute_reconstruction_quality_metrics.
  destruct (_ || _)%bool; [eauto|].
  destruct (Hscene mesh (select pts (map (fun l => (l =? label_idx)%Z) pls))) as [d ->].
  cbn. eauto.
Qed.

(** A vessel whose skeleton is one fragment of at least two voxels gets its
    record, as long as the two library calls that can fail return. *)
Lemma process_vessel_single_fragment_scored new_seg_scan affine voxel_spacing
    points point_labels destination_folder patient_id results label_idx name w
    skeleton labeled num_features verts faces :
  skeleton_stage (eq_label new_seg_scan label_idx) affine skeleton labeled num_features ->
  (2 <= length (argwhere skeleton))%nat -> (num_features <= 1)%Z ->
  marching_cubes (smoothed_of (eq_label new_seg_scan label_idx)) (2 / 10) voxel_spacing
    = Returns (verts, faces) ->
  (forall m pts, exists d, scene_compute_distance m pts = Returns d) ->
  exists r w' vd,
    process_vessel new_seg_scan affine voxel_spacing points point_labels
      destination_folder patient_id results label_idx name w = (Ok r, w')
    /\ vessels r !! name = Some vd.
Proof.
  intros Hstage Hlen Hnf Hmc Hscene. pose proof Hstage as (Hmask & _).
  rewrite process_vessel_nonempty by exact Hmask.
  set (w0 := say w (processing_msg name label_idx)).
  assert (Hbody : exists r w',
             vessel_try_body new_seg_scan affine voxel_spacing points point_labels
               destination_folder patient_id (eq_label new_seg_scan label_idx)
               label_idx name empty_vessel results w0 = (Ok r, w')).
  { unfold vessel_try_body.
    destruct (reconstruct_mesh_run (eq_label new_seg_scan label_idx) affine voxel_spacing
                name empty_vessel w0 verts faces Hmc) as (vr0 & mesh0 & Hrec & _).
    unfold mbind at 1. unfold M_bind at 1. rewrite Hrec.
    unfold mbind at 1. unfold M_bind at 1.
    unfold analyse_centerline.
    unfold mbind at 1. unfold M_bind at 1. cbn [status_callback].
    unfold mbind at 1. unfold M_bind at 1.
    rewrite (compute_centerline_metrics_run _ _ _ _ _ _ _ _ _ Hstage)
      by (destruct (argwhere skeleton); cbn in *; [lia|congruence]).
    destruct (centerline_from_profile_single_fragment affine skeleton labeled
                num_features (skeleton_mm_of affine skeleton)
                (diameter_profile (eq_label new_seg_scan label_idx) affine skeleton)
                (plot_file_of destination_folder patient_id name) Hnf)
      as (ca & -> & _).
    { unfold skeleton_mm_of. now rewrite length_map. }
    { unfold skeleton_mm_of, diameter_profile. now rewrite !length_map. }
    destruct (create_flat_disc_shape (max_diameter_location (metrics ca))
                (d_max (diameters (metrics ca)) / 2)
                (tangent_at_max_diameter_location (metrics ca)) 60)
      as (disc & Hdisc & _); [lia|].
    unfold mbind at 1. unfold M_bind at 1. unfold lift at 1. rewrite Hdisc.
    cbn [mret M_ret].
    match goal with
    | |- context [score_quality ?p ?pl ?l ?n ?m ?vr] =>
      unfold mbind at 1; unfold M_bind at 1;
      match goal with
      | |- context [score_quality p pl l n m vr ?w1] =>
        destruct (score_quality_returns p pl l n m vr w1 Hscene) as (vr' & w' & ->)
      end
    end.
    cbn. eauto. }
  destruct Hbody as (r & w' & Hbody). rewrite Hbody.
  destruct (vessel_try_body_Ok _ _ _ _ _ _ _ _ _ _ _ _ _ _ _ Hbody) as (vd & ->).
  eexists _, w', vd. split; [reflexivity|]. cbn. apply lookup_insert_eq.
Qed.

Lemma table_name_in_names l c n :
  In (l, (c, n)) (enumerate_from 1 (combine colors_rgb names)) -> In n names.
Proof.
  rewrite label_table. unfold names. cbn.
  intros [[= _ _ <-]|[[= _ _ <-]|[[= _ _ <-]|[]]]]; auto.
Qed.

(** X7.  Records are never partial in their mesh part: every record of a
    result the analysis returns is stored under one of the three vessel
    names, holds a mesh, and holds the three mesh measurements, the volume
    being 0 whenever the mesh is not watertight. *)
Theorem X7_every_stored_record_has_its_mesh_and_mesh_measurements
    scan_nifti_file segmentation_file pointcloud_file destination_folder patient_id
    w r w' name vd :
  enhanced_vessel_reconstruction_analysis scan_nifti_file segmentation_file
    pointcloud_file destination_folder patient_id w = (Ok r, w') ->
  vessels r !! name = Some vd ->
  In name names
  /\ is_Some (v_mesh vd)
  /\ exists surface volume watertight,
       m_surface_area (v_metrics vd) = Some surface
       /\ m_volume (v_metrics vd) = Some volume
       /\ m_is_watertight (v_metrics vd) = Some watertight
       /\ (watertight = false -> volume = 0).
Proof.
  intros Hrun Hlook.
  destruct (analysis_records _ _ _ _ _ _ _ _ Hrun) as (points & pls & Hall & _).
  destruct (Hall name vd Hlook) as (l & c & Hin & (Hmesh & Hmetrics) & _).
  split; [eapply table_name_in_names, Hin|]. split; assumption.
Qed.

(** X8.  In every record of a returned result the centerline metrics, the
    path of the diameter plot and the disc at the largest diameter come
    together or not at all, and there is no centerline geometry without them;
    the disc, when present, is the fan of 60 triangles on 61 vertices whose
    hub is the location of the largest diameter; and the analysis itself
    never fills in the bytes of the plot. *)
Theorem X8_centerline_metrics_plot_path_and_disc_come_together
    scan_nifti_file segmentation_file pointcloud_file destination_folder patient_id
    w r w' name vd :
  enhanced_vessel_reconstruction_analysis scan_nifti_file segmentation_file
    pointcloud_file destination_folder patient_id w = (Ok r, w') ->
  vessels r !! name = Some vd ->
  v_diameter_plot_bytes vd = None
  /\ ((m_centerline (v_metrics vd) = None /\ v_diameter_plot_path vd = None
       /\ v_max_diameter_disc vd = None /\ v_centerline vd = None)
      \/ exists cm path disc rim,
           m_centerline (v_metrics vd) = Some cm
           /\ v_diameter_plot_path vd = Some path
           /\ v_max_diameter_disc vd = Some disc
           /\ vertices disc = max_diameter_location cm :: rim
           /\ length rim = 60%nat
           /\ length (triangles disc) = 60%nat).
Proof.
  intros Hrun Hlook.
  destruct (analysis_records _ _ _ _ _ _ _ _ Hrun) as (points & pls & Hall & _).
  destruct (Hall name vd Hlook) as (l & c & _ & _ & Hcl & _). exact Hcl.
Qed.

(** X9.  Quality and point colours agree: the record of a vessel holds a
    reconstruction-quality entry exactly when the result has a point cloud in
    which at least one point is painted in the colour of that vessel. *)
Theorem X9_quality_entry_iff_some_point_has_the_vessel_colour
    scan_nifti_file segmentation_file pointcloud_file destination_folder patient_id
    w r w' name vd :
  enhanced_vessel_reconstruction_analysis scan_nifti_file segmentation_file
    pointcloud_file destination_folder patient_id w = (Ok r, w') ->
  vessels r !! name = Some vd ->
  exists label_idx color,
    In (label_idx, (color, name)) (enumerate_from 1 (combine colors_rgb names))
    /\ (is_Some (m_quality (v_metrics vd))
        <-> exists cloud, point_cloud r = Some cloud /\ In color (pc_colors cloud)).
Proof.
  intros Hrun Hlook.
  destruct (analysis_records _ _ _ _ _ _ _ _ Hrun) as (points & pls & Hall & Hboth & Hcloud).
  destruct (Hall name vd Hlook) as (l & c & Hin & _ & _ & Hq).
  exists l, c. split; [exact Hin|]. unfold quality_part_ok in Hq. rewrite Hq. split.
  - intros (pts & labels & -> & -> & Hl).
    destruct (point_cloud r) as [cloud|].
    + destruct Hcloud as (labels' & [= <-] & _ & Hcol & _).
      exists cloud. split; [reflexivity|].
      rewrite Hcol, point_colors_spec, <- (color_of_label_table l c name Hin).
      now apply in_map.
    + destruct Hcloud as [[=]|Hempty]. rewrite Hempty in Hlook. discriminate.
  - intros (cloud & Hpc & Hc). rewrite Hpc in Hcloud.
    destruct Hcloud as (labels & -> & _ & Hcol & _).
    rewrite Hcol, point_colors_spec in Hc.
    apply in_map_iff in Hc as (l' & Hl' & Hinl').
    apply (color_of_label_inv l c name l' Hin) in Hl' as ->.
    destruct (proj2 Hboth (ex_intro _ labels eq_refl)) as [pts ->].
    exists pts, labels. auto.
Qed.

(** X10.  The status log of a run in which the segmentation and the scan
    load: the messages it adds start with "Loading data..." and end with
    "Analysis complete!", and in between each of the three vessels is
    announced, in the order of the labels, whatever fails for single
    vessels. *)
Theorem X10_status_log_of_a_completed_analysis
    scan_nifti_file segmentation_file pointcloud_file destination_folder patient_id
    w r w' new_seg_scan affine inv_affine :
  load_segmentation segmentation_file = Returns new_seg_scan ->
  load_affine scan_nifti_file = Returns affine ->
  linalg_inv affine = Returns inv_affine ->
  enhanced_vessel_reconstruction_analysis scan_nifti_file segmentation_file
    pointcloud_file destination_folder patient_id w = (Ok r, w') ->
  exists msgs,
    status w' = status w ++ "Loading data..." :: msgs ++ ["Analysis complete!"]
    /\ ["Processing: Aorta (Label 1)...";
        "Processing: Left Iliac Artery (Label 2)...";
        "Processing: Right Iliac Artery (Label 3)..."] `sublist_of` msgs.
Proof.
  intros Hseg Haff Hinv. rewrite analysis_run, Hseg. cbv zeta. rewrite Haff, Hinv.
  change ["Processing: Aorta (Label 1)..."; "Processing: Left Iliac Artery (Label 2)...";
          "Processing: Right Iliac Artery (Label 3)..."]
    with (processing_msgs [(1%Z, ((1, 0, 0), "Aorta"));
                           (2%Z, ((0, 1, 0), "Left Iliac Artery"));
                           (3%Z, ((0, 0, 1), "Right Iliac Artery"))]).
  rewrite <- label_table.
  destruct (load_pointcloud pointcloud_file) as [points|e].
  - destruct (label_points new_seg_scan inv_affine points) as [labels|e|];
      [|discriminate|discriminate].
    destruct (finish_analysis_loop new_seg_scan affine (voxel_spacing_of affine)
                (Some points) (Some labels) destination_folder patient_id
                (enumerate_from 1 (combine colors_rgb names)) (mkResult None ∅)
                (say (say (say w "Loading data...")
                        "Mapping point cloud to segmentation labels...")
                   "...mapping complete."))
      as (r0 & w0 & msgs & -> & Hst & Hsub).
    intros [= _ <-].
    exists ("Mapping point cloud to segmentation labels..." :: "...mapping complete." :: msgs).
    split.
    + rewrite Hst. cbn [say status]. rewrite <- !app_assoc. reflexivity.
    + now do 2 apply sublist_cons.
  - destruct (finish_analysis_loop new_seg_scan affine (voxel_spacing_of affine)
                None None destination_folder patient_id
                (enumerate_from 1 (combine colors_rgb names)) (mkResult None ∅)
                (say (say w "Loading data...") (pcd_warning_msg e)))
      as (r0 & w0 & msgs & -> & Hst & Hsub).
    intros [= _ <-]. exists (pcd_warning_msg e :: msgs). split.
    + rewrite Hst. cbn [say status]. rewrite <- !app_assoc. reflexivity.
    + now apply sublist_cons.
Qed.

(** X11.  One iteration of the loop is isolated from the others: whatever the
    libraries do for this vessel, the iteration returns; it announces the
    vessel first; and it leaves the point cloud and the record of every other
    name as they were. *)
Theorem X11_an_iteration_always_returns_and_touches_only_its_own_record
    new_seg_scan affine voxel_spacing points point_labels
    destination_folder patient_id results label_idx name w :
  exists r w' msgs,
    process_vessel new_seg_scan affine voxel_spacing points point_labels
      destination_folder patient_id results label_idx name w = (Ok r, w')
    /\ status w' = status w ++ processing_msg name label_idx :: msgs
    /\ point_cloud r = point_cloud results
    /\ forall other, other <> name -> vessels r !! other = vessels results !! other.
Proof.
  destruct (process_vessel_returns new_seg_scan affine voxel_spacing points point_labels
              destination_folder patient_id results label_idx name w)
    as (r & w' & Hrun & Hr & msgs & Hst).
  exists r, w', msgs. split; [exact Hrun|]. split; [exact Hst|].
  destruct Hr as [->|(vr & ->)]; [auto|].
  split; [reflexivity|]. intros other Hne. cbn. now rewrite lookup_insert_ne.
Qed.

End RecordTheorems.

(** The analysis of the cube whose skeleton is a rod of two voxels, with a
    point cloud: the aorta gets its record. *)
Lemma rod_analysis_stores_aorta :
  exists r w' vd,
    @enhanced_vessel_reconstruction_analysis Examples.rod_lib Examples.mesh_lib
      Examples.file_lib_with_points
      "scan.nii.gz" "seg.npz" "points.npz" "out" "patient" Examples.world0 = (Ok r, w')
    /\ vessels r !! "Aorta" = Some vd.
Proof.
  rewrite analysis_run.
  cbn [load_segmentation load_pointcloud load_affine linalg_inv
       Examples.file_lib_with_points].
  cbv zeta. rewrite label_points_clamped by (cbn; lia). rewrite label_table.
  match goal with
  | |- context [vessel_loop ?a ?b ?c ?p ?pl ?d ?pid (_ :: ?todo) ?res ?w] =>
    destruct (@process_vessel_single_fragment_scored Examples.rod_lib Examples.mesh_lib
                a b c p pl d pid res 1%Z "Aorta" w
                Examples.rod_skeleton Examples.rod_labeled 1%Z
                [(2, 2, 2); (4, 2, 2); (2, 4, 2)] [(0, 1, 2)%Z])
      as (r1 & w1 & vd & Hstep & Hvd);
      [apply example_stage; discriminate
      |rewrite rod_skeleton_voxels; cbn; lia
      |lia
      |reflexivity
      |intros m pts; eexists; reflexivity
      |];
    rewrite (vessel_loop_cons _ _ _ _ _ _ _ _ _ _ _ _ _ _ _ Hstep);
    destruct (@vessel_loop_returns Examples.rod_lib Examples.mesh_lib
                a b c p pl d pid todo r1 w1)
      as (r & w' & msgs & Hloop & _ & _ & Hkeep)
  end.
  rewrite Hloop. unfold finish_analysis. eexists _, _, vd. split; [reflexivity|].
  cbn [vessels]. rewrite Hkeep; [exact Hvd|].
  intros l c n [[= <- <- <-]|[[= <- <- <-]|[]]]; left; discriminate.
Qed.

Lemma X7_every_stored_record_has_its_mesh_and_mesh_measurements_witness :
  exists r w' vd,
    @enhanced_vessel_reconstruction_analysis Examples.rod_lib Examples.mesh_lib
      Examples.file_lib_with_points
      "scan.nii.gz" "seg.npz" "points.npz" "out" "patient" Examples.world0 = (Ok r, w')
    /\ vessels r !! "Aorta" = Some vd
    /\ In "Aorta" names
    /\ is_Some (v_mesh vd)
    /\ exists surface volume watertight,
         m_surface_area (v_metrics vd) = Some surface
         /\ m_volume (v_metrics vd) = Some volume
         /\ m_is_watertight (v_metrics vd) = Some watertight
         /\ (watertight = false -> volume = 0).
Proof.
  destruct rod_analysis_stores_aorta as (r & w' & vd & Hrun & Hlook).
  exists r, w', vd. split; [exact Hrun|]. split; [exact Hlook|].
  exact (@X7_every_stored_record_has_its_mesh_and_mesh_measurements
           Examples.rod_lib Examples.mesh_lib Examples.file_lib_with_points
           _ _ _ _ _ _ _ _ _ _ Hrun Hlook).
Defined.

Lemma X8_centerline_metrics_plot_path_and_disc_come_together_witness :
  exists r w' vd,
    @enhanced_vessel_reconstruction_analysis Examples.rod_lib Examples.mesh_lib
      Examples.file_lib_with_points
      "scan.nii.gz" "seg.npz" "points.npz" "out" "patient" Examples.world0 = (Ok r, w')
    /\ vessels r !! "Aorta" = Some vd
    /\ v_diameter_plot_bytes vd = None
    /\ ((m_centerline (v_metrics vd) = None /\ v_diameter_plot_path vd = None
         /\ v_max_diameter_disc vd = None /\ v_centerline vd = None)
        \/ exists cm path disc rim,
             m_centerline (v_metrics vd) = Some cm
             /\ v_diameter_plot_path vd = Some path
             /\ v_max_diameter_disc vd = Some disc
             /\ vertices disc = max_diameter_location cm :: rim
             /\ length rim = 60%nat
             /\ length (triangles disc) = 60%nat).
Proof.
  destruct rod_analysis_stores_aorta as (r & w' & vd & Hrun & Hlook).
  exists r, w', vd. split; [exact Hrun|]. split; [exact Hlook|].
  exact (@X8_centerline_metrics_plot_path_and_disc_come_together
           Examples.rod_lib Examples.mesh_lib Examples.file_lib_with_points
           _ _ _ _ _ _ _ _ _ _ Hrun Hlook).
Defined.

Lemma X9_quality_entry_iff_some_point_has_the_vessel_colour_witness :
  exists r w' vd,
    @enhanced_vessel_reconstruction_analysis Examples.rod_lib Examples.mesh_lib
      Examples.file_lib_with_points
      "scan.nii.gz" "seg.npz" "points.npz" "out" "patient" Examples.world0 = (Ok r, w')
    /\ vessels r !! "Aorta" = Some vd
    /\ exists label_idx color,
         In (label_idx, (color, "Aorta")) (enumerate_from 1 (combine colors_rgb names))
         /\ (is_Some (m_quality (v_metrics vd))
             <-> exists cloud, point_cloud r = Some cloud /\ In color (pc_colors cloud)).
Proof.
  destruct rod_analysis_stores_aorta as (r & w' & vd & Hrun & Hlook).
  exists r, w', vd. split; [exact Hrun|]. split; [exact Hlook|].
  exact (@X9_quality_entry_iff_some_point_has_the_vessel_colour
           Examples.rod_lib Examples.mesh_lib Examples.file_lib_with_points
           _ _ _ _ _ _ _ _ _ _ Hrun Hlook).
Defined.

Lemma X10_status_log_of_a_completed_analysis_witness :
  exists r w' msgs,
    @enhanced_vessel_reconstruction_analysis Examples.rod_lib Examples.mesh_lib
      Examples.file_lib_with_points
      "scan.nii.gz" "seg.npz" "points.npz" "out" "patient" Examples.world0 = (Ok r, w')
    /\ status w' = status Examples.world0
                   ++ "Loading data..." :: msgs ++ ["Analysis complete!"]
    /\ ["Processing: Aorta (Label 1)...";
        "Processing: Left Iliac Artery (Label 2)...";
        "Processing: Right Iliac Artery (Label 3)..."] `sublist_of` msgs.
Proof.
  destruct rod_analysis_stores_aorta as (r & w' & vd & Hrun & _).
  destruct (@X10_status_log_of_a_completed_analysis
              Examples.rod_lib Examples.mesh_lib Examples.file_lib_with_points
              "scan.nii.gz" "seg.npz" "points.npz" "out" "patient" Examples.world0 r w'
              Examples.cube_volume Examples.shifted_affine Examples.shifted_affine_inv
              eq_refl eq_refl eq_refl Hrun) as (msgs & Hst & Hsub).
  exists r, w', msgs. auto.
Defined.

(** * More on the centerline metrics *)


Lemma fold_left_Rmax_spec l : forall a,
  (fold_left Rmax l a = a \/ In (fold_left Rmax l a) l)
  /\ a <= fold_left Rmax l a
  /\ forall x, In x l -> x <= fold_left Rmax l a.
Proof.
  induction l as [|y l IH]; intros a; cbn [fold_left In].
  - split; [now left|]. split; [lra|tauto].
  - destruct (IH (Rmax a y)) as (Hin & Hle & Hall).
    pose proof (Rmax_l a y). pose proof (Rmax_r a y).
    split; [|split].
    + destruct Hin as [Heq|Hin]; [|now right; right].
      rewrite Heq. unfold Rmax. destruct (Rle_dec a y); auto.
    + lra.
    + intros x [<-|Hx]; [lra|now apply Hall].
Qed.


Lemma np_max_spec l :
  l <> [] -> In (np_max l) l /\ forall x, In x l -> x <= np_max l.
Proof.
  destruct l as [|a l]; [congruence|]. intros _. unfold np_max.
  destruct (fold_left_Rmax_spec l a) as (Hin & Hle & Hall). split.
  - destruct Hin as [->|Hin]; [now left|now right].
  - intros x [<-|Hx]; auto.
Qed.

Lemma Rsum_bounds l a b :
  (forall x, In x l -> a <= x <= b) ->
  INR (length l) * a <= Rsum l <= INR (length l) * b.
Proof.
  induction l as [|y l IH]; intros Hall.
  - cbn. lra.
  - change (length (y :: l)) with (S (length l)). rewrite S_INR.
    cbn [Rsum fold_right]. fold (Rsum l).
    specialize (IH (fun x Hx => Hall x (or_intror Hx))).
    pose proof (Hall y (or_introl eq_refl)). lra.
Qed.

Lemma np_mean_bounds l a b :
  l <> [] -> (forall x, In x l -> a <= x <= b) -> a <= np_mean l <= b.
Proof.
  intros Hne Hall. unfold np_mean.
  assert (Hn : 0 < INR (length l)).
  { apply lt_0_INR. destruct l; [congruence|cbn; lia]. }
  pose proof (Rsum_bounds l a b Hall) as [Hlo Hhi].
  assert (Hinv : 0 <= / INR (length l)) by (left; now apply Rinv_0_lt_compat).
  split.
  - replace a with (INR (length l) * a / INR (length l)) by (field; lra).
    unfold Rdiv. now apply Rmult_le_compat_r.
  - replace b with (INR (length l) * b / INR (length l)) by (field; lra).
    unfold Rdiv. now apply Rmult_le_compat_r.
Qed.








Section CenterlineTheorems.
Context {image : ImageLib}.

(** The two ways an analysis of the centerline can go: the mask is
    degenerate and nothing is done, or the skeleton is reached. *)
Lemma compute_centerline_metrics_cases mask affine name destination_folder patient_id w :
  let skeleton := skeletonize (cleaned_mask_of mask affine) in
  ((np_any mask = false \/ np_any (cleaned_mask_of mask affine) = false
    \/ np_any skeleton = false \/ snd (label skeleton) = 0%Z)
   /\ compute_centerline_metrics mask affine name destination_folder patient_id w
      = (Ok None, w))
  \/ (np_any mask = true /\ np_any (cleaned_mask_of mask affine) = true
      /\ np_any skeleton = true /\ snd (label skeleton) <> 0%Z
      /\ skeleton_stage mask affine skeleton (fst (label skeleton)) (snd (label skeleton))
      /\ argwhere skeleton <> []).
Proof.
  cbv zeta. unfold compute_centerline_metrics.
  destruct (np_any mask) eqn:Hmask; [|left; auto].
  destruct (np_any (cleaned_mask_of mask affine)) eqn:Hclean; [|left; auto].
  destruct (np_any (skeletonize (cleaned_mask_of mask affine))) eqn:Hskel; [|left; auto].
  cbn [negb].
  destruct (label (skeletonize (cleaned_mask_of mask affine))) as [labeled nf] eqn:Hlab.
  cbn [fst snd].
  destruct (Z.eqb_spec nf 0) as [->|Hnf]; [left; auto 6|].
  right. repeat split; auto.
  rewrite np_any_argwhere in Hskel. intros Hnil. rewrite Hnil in Hskel. discriminate.
Qed.

(** X12.  The centerline analysis answers [None] exactly for the degenerate
    masks: an empty mask, a mask the opening erases, an empty skeleton, or a
    skeleton in which no component is found.  In that case it has done
    nothing: no plot is written and no status is reported. *)
Theorem X12_centerline_analysis_is_absent_exactly_for_degenerate_masks
    mask affine name destination_folder patient_id w :
  let skeleton := skeletonize (cleaned_mask_of mask affine) in
  let run := compute_centerline_metrics mask affine name destination_folder patient_id w in
  (fst run = Ok None
   <-> np_any mask = false \/ np_any (cleaned_mask_of mask affine) = false
       \/ np_any skeleton = false \/ snd (label skeleton) = 0%Z)
  /\ (fst run = Ok None -> snd run = w).
Proof.
  cbv zeta.
  destruct (compute_centerline_metrics_cases mask affine name destination_folder
              patient_id w) as [[Hdeg ->]|(Hm & Hc & Hs & Hl & Hstage & Hne)].
  - cbn. tauto.
  - rewrite (compute_centerline_metrics_run _ _ _ _ _ _ _ _ _ Hstage Hne). cbn [fst snd].
    split; [split|].
    + intros Hnone. now apply centerline_from_profile_not_None in Hnone.
    + intros [?|[?|[?|?]]]; congruence.
    + intros Hnone. now apply centerline_from_profile_not_None in Hnone.
Qed.

Lemma compute_centerline_metrics_Some_inv mask affine name destination_folder
    patient_id w ca w' :
  compute_centerline_metrics mask affine name destination_folder patient_id w
    = (Ok (Some ca), w') ->
  let skeleton := skeletonize (cleaned_mask_of mask affine) in
  argwhere skeleton <> []
  /\ centerline_from_profile affine skeleton (fst (label skeleton)) (snd (label skeleton))
       (skeleton_mm_of affine skeleton) (diameter_profile mask affine skeleton)
       (plot_file_of destination_folder patient_id name) = Ok (Some ca).
Proof.
  cbv zeta. intros Hrun.
  destruct (compute_centerline_metrics_cases mask affine name destination_folder
              patient_id w) as [[_ Hnone]|(_ & _ & _ & _ & Hstage & Hne)];
    [congruence|].
  rewrite (compute_centerline_metrics_run _ _ _ _ _ _ _ _ _ Hstage Hne) in Hrun.
  split; [exact Hne|congruence].
Qed.



End CenterlineTheorems.



(** * The fragment graph *)

Lemma cauchy_schwarz u v : dot u v <= norm u * norm v.
Proof.
  assert (Hsq : dot u v * dot u v <= dot u u * dot v v).
  { destruct u as [[a b] c], v as [[x y] z]. cbn.
    pose proof (Rle_0_sqr (a * y - b * x)) as H1.
    pose proof (Rle_0_sqr (a * z - c * x)) as H2.
    pose proof (Rle_0_sqr (b * z - c * y)) as H3. unfold Rsqr in *.
    assert (Heq : (a * a + b * b + c * c) * (x * x + y * y + z * z)
                  - (a * x + b * y + c * z) * (a * x + b * y + c * z)
                  = (a * y - b * x) * (a * y - b * x)
                    + (a * z - c * x) * (a * z - c * x)
                    + (b * z - c * y) * (b * z - c * y)) by ring.
    lra. }
  destruct (Rle_dec (dot u v) 0) as [Hneg|Hpos].
  - pose proof (sqrt_pos (dot u u)). pose proof (sqrt_pos (dot v v)).
    unfold norm. nra.
  - unfold norm. rewrite <- sqrt_mult by apply dot_nonneg.
    rewrite <- (sqrt_square (dot u v)) by lra.
    now apply sqrt_le_1_alt.
Qed.

Lemma norm_triangle u v : norm (vadd u v) <= norm u + norm v.
Proof.
  assert (Hu : 0 <= norm u) by apply sqrt_pos.
  assert (Hv : 0 <= norm v) by apply sqrt_pos.
  apply Rsqr_incr_0_var; [|lra]. unfold Rsqr.
  rewrite norm_sqr.
  replace (dot (vadd u v) (vadd u v)) with (dot u u + 2 * dot u v + dot v v)
    by (destruct u as [[a b] c], v as [[x y] z]; cbn; ring).
  pose proof (cauchy_schwarz u v). pose proof (norm_sqr u). pose proof (norm_sqr v). nra.
Qed.

Lemma dist_triangle a b c : dist a c <= dist a b + dist b c.
Proof.
  unfold dist.
  replace (vsub a c) with (vadd (vsub a b) (vsub b c)); [apply norm_triangle|].
  destruct a as [[a1 a2] a3], b as [[b1 b2] b3], c as [[c1 c2] c3]. cbn.
  f_equal; [f_equal|]; ring.
Qed.

Lemma combine_seq_In {A} (l : list A) : forall s i x,
  In (i, x) (combine (seq s (length l)) l) <-> (s <= i)%nat /\ l !! (i - s)%nat = Some x.
Proof.
  induction l as [|y l IH]; intros s i x; cbn [length seq combine In].
  - split; [tauto|]. intros [_ [=]].
  - rewrite IH. split.
    + intros [[= <- <-]|[Hs Hl]].
      * split; [lia|]. now rewrite Nat.sub_diag.
      * split; [lia|]. replace (i - s)%nat with (S (i - S s)) by lia. exact Hl.
    + intros [Hs Hl]. destruct (Nat.eq_dec i s) as [->|Hne].
      * left. rewrite Nat.sub_diag in Hl. cbn in Hl. congruence.
      * right. split; [lia|].
        replace (i - s)%nat with (S (i - S s)) in Hl by lia. exact Hl.
Qed.

Lemma enumerate_In {A} (l : list A) i x : In (i, x) (enumerate l) <-> l !! i = Some x.
Proof.
  unfold enumerate. rewrite combine_seq_In, Nat.sub_0_r. split; [tauto|]. split; [lia|auto].
Qed.

Lemma dense_edges_In m i j w :
  In (i, j, w) (dense_edges m) -> exists row, m !! i = Some row /\ row !! j = Some w.
Proof.
  unfold dense_edges. intros Hin.
  apply in_flat_map in Hin as ([i' row] & Hrow & Hin).
  apply in_flat_map in Hin as ([j' w'] & Hw & Hin).
  destruct (Reqb w' 0); [contradiction|].
  destruct Hin as [[= -> -> ->]|[]].
  apply enumerate_In in Hrow, Hw. eauto.
Qed.

Lemma insert_edge_In e f l : In e (insert_edge f l) <-> e = f \/ In e l.
Proof.
  induction l as [|g l IH]; cbn [insert_edge In]; [intuition|].
  destruct (Rle_dec (weight f) (weight g)); cbn [In]; [intuition|].
  rewrite IH. intuition.
Qed.

Lemma sort_edges_In e l : In e (sort_edges l) <-> In e l.
Proof.
  induction l as [|f l IH]; cbn [sort_edges fold_right In]; [tauto|].
  fold (sort_edges l). rewrite insert_edge_In, IH. intuition.
Qed.

Lemma kruskal_In e es : forall comp, In e (kruskal comp es) -> In e es.
Proof.
  induction es as [|[[i j] w] es IH]; intros comp; cbn [kruskal]; [tauto|].
  destruct (_ =? _)%nat; cbn [In]; [eauto|]. intros [<-|Hin]; eauto.
Qed.

(** The spanning tree of the distance matrix joins centroids, at their
    distance. *)
Lemma mst_edges_within cs : edges_within cs (minimum_spanning_tree (cdist cs cs)).
Proof.
  intros i j w Hin. unfold minimum_spanning_tree in Hin. cbn [edges] in Hin.
  apply kruskal_In, sort_edges_In, dense_edges_In in Hin as (row & Hrow & Hw).
  unfold cdist in Hrow. rewrite list_lookup_fmap in Hrow.
  destruct (cs !! i) as [ci|] eqn:Hci; [|discriminate]. injection Hrow as <-.
  rewrite list_lookup_fmap in Hw.
  destruct (cs !! j) as [cj|] eqn:Hcj; [|discriminate]. injection Hw as <-.
  eauto.
Qed.

Lemma neighbours_In g u v w :
  In (v, w) (neighbours g u) -> In (u, v, w) (edges g) \/ In (v, u, w) (edges g).
Proof.
  unfold neighbours. intros Hin.
  apply in_flat_map in Hin as ([[i j] w'] & He & Hin).
  apply in_app_or in Hin as [Hin|Hin].
  - destruct (Nat.eqb_spec i u) as [->|]; [|contradiction].
    destruct Hin as [[= -> ->]|[]]. now left.
  - destruct (Nat.eqb_spec j u) as [->|]; [|contradiction].
    destruct Hin as [[= -> ->]|[]]. now right.
Qed.

Lemma relax_dist_inv cs src g u st vw :
  edges_within cs g -> In vw (neighbours g u) ->
  dist_inv cs src st -> dist_inv cs src (relax u st vw).
Proof.
  intros Hg Hvw Hinv. destruct vw as [v w]. unfold relax.
  destruct (nth v (sp_done st) true); [exact Hinv|].
  destruct (float_ltb _ _) eqn:Hlt; [|exact Hinv].
  intros v' d. cbn [sp_dist]. destruct (decide (v = v')) as [<-|Hne].
  2:{ rewrite list_lookup_insert_ne by exact Hne. apply Hinv. }
  intros Hlook. apply list_lookup_insert_Some in Hlook as [(_ & <- & Hv)|[? _]];
    [|congruence].
  rewrite nth_lookup in *.
  destruct (sp_dist st !! u) as [du|] eqn:Hdu; [|discriminate].
  cbn [default] in *.
  destruct (Hinv u du Hdu) as [->|(x & csrc & cu & -> & Hsrc & Hcu & Hle)]; [now left|].
  right. cbn [float_add].
  assert (Hcv : exists cv, cs !! v = Some cv /\ w = dist cu cv).
  { apply neighbours_In in Hvw as [He|He];
      destruct (Hg _ _ _ He) as (ci & cj & Hi & Hj & ->).
    - exists cj. split; [exact Hj|]. congruence.
    - exists ci. split; [exact Hi|]. rewrite dist_sym. congruence. }
  destruct Hcv as (cv & Hcv & ->).
  exists (x + dist cu cv), csrc, cv. repeat split; auto.
  pose proof (dist_triangle csrc cu cv). lra.
Qed.

Lemma relax_all_dist_inv cs src g u vws : forall st,
  edges_within cs g -> (forall vw, In vw vws -> In vw (neighbours g u)) ->
  dist_inv cs src st -> dist_inv cs src (fold_left (relax u) vws st).
Proof.
  induction vws as [|vw vws IH]; intros st Hg Hsub Hinv; [exact Hinv|].
  cbn [fold_left]. apply IH; [exact Hg|intros; apply Hsub; now right|].
  eapply relax_dist_inv; [exact Hg|apply Hsub; now left|exact Hinv].
Qed.

Lemma dijkstra_loop_dist_inv cs src g fuel : forall st,
  edges_within cs g -> dist_inv cs src st -> dist_inv cs src (dijkstra_loop g fuel st).
Proof.
  induction fuel as [|fuel IH]; intros st Hg Hinv; [exact Hinv|].
  cbn [dijkstra_loop]. destruct (pick st) as [u|]; [|exact Hinv].
  apply IH; [exact Hg|]. apply (relax_all_dist_inv cs src g u); auto.
Qed.

(** Every finite distance the search reports is at least the straight
    distance between the two centroids. *)
Lemma dijkstra_dist cs g src v d :
  edges_within cs g -> length cs = nodes g ->
  fst (dijkstra g src) !! v = Some d ->
  d = PInf
  \/ exists x csrc cv,
       d = Fin x /\ cs !! src = Some csrc /\ cs !! v = Some cv /\ dist csrc cv <= x.
Proof.
  intros Hg Hn. unfold dijkstra. cbn [fst]. apply dijkstra_loop_dist_inv; [exact Hg|].
  intros v' d'. cbn [sp_dist]. intros Hlook.
  apply list_lookup_insert_Some in Hlook as [(<- & <- & Hsrc)|[Hne Hlook]].
  - right. rewrite length_replicate, <- Hn in Hsrc.
    destruct (lookup_lt_is_Some_2 cs src Hsrc) as [c Hc].
    exists 0, c, c. repeat split; auto. rewrite dist_self. lra.
  - apply lookup_replicate in Hlook as [-> _]. now left.
Qed.

Lemma dijkstra_shape g src :
  length (fst (dijkstra g src)) = nodes g
  /\ length (snd (dijkstra g src)) = nodes g
  /\ forall v p, snd (dijkstra g src) !! v = Some p ->
       p = (-9999)%Z \/ exists k, p = Z.of_nat k /\ (k < nodes g)%nat.
Proof.
  unfold dijkstra. cbn [fst snd].
  set (n := nodes g).
  set (st0 := mkSp (<[src := Fin 0]> (replicate n PInf)) (replicate n (-9999)%Z)
                   (replicate n false)).
  assert (Hinv0 : search_inv n 0 (fun _ => 0%nat) st0).
  { unfold search_inv, st0. cbn [sp_dist sp_pred sp_done].
    rewrite length_insert, !length_replicate. repeat split; auto.
    - intros u Hu. rewrite nth_lookup, lookup_replicate_2 by exact Hu. discriminate.
    - intros u p Hlook. apply lookup_replicate in Hlook as [-> _]. now left. }
  destruct (dijkstra_loop_inv g n n 0 _ st0 Hinv0) as (t' & rank & _ & Hinv).
  destruct Hinv as (Hd & Hp & _ & _ & Hpred).
  split; [exact Hd|]. split; [exact Hp|].
  intros v p Hlook. destruct (Hpred v p Hlook) as [->|(k & -> & Hk & _)]; eauto.
Qed.

Lemma walk_back_valid predecessors :
  (forall v p, predecessors !! v = Some p ->
     p = (-9999)%Z \/ exists k, p = Z.of_nat k /\ (k < length predecessors)%nat) ->
  forall fuel v, (v < length predecessors)%nat ->
    match walk_back fuel predecessors (Z.of_nat v) with
    | Ok path =>
      path <> []
      /\ Forall (fun k => (0 <= k < Z.of_nat (length predecessors))%Z) path
    | Raise _ => False
    | OutOfFuel => True
    end.
Proof.
  intros Hpred. induction fuel as [|fuel IH]; intros v Hv.
  - cbn [walk_back]. destruct (Z.eqb_spec (Z.of_nat v) (-9999)); [lia|exact I].
  - cbn [walk_back]. destruct (Z.eqb_spec (Z.of_nat v) (-9999)); [lia|].
    destruct (lookup_lt_is_Some_2 predecessors v Hv) as [p Hlook].
    rewrite (getitem_ok predecessors v p) by (now rewrite nth_error_lookup).
    cbn [mbind result_bind].
    destruct (Hpred v p Hlook) as [->|(k & -> & Hk)].
    + destruct fuel; cbn; (split; [discriminate|]); repeat constructor; lia.
    + specialize (IH k Hk).
      destruct (walk_back fuel predecessors (Z.of_nat k)) as [rest| |];
        [|contradiction|exact I].
      cbn. destruct IH as [_ Hall]. split; [discriminate|]. constructor; [lia|exact Hall].
Qed.

Lemma argmax_from_lookup {A} (ltb : A -> A -> bool) (L l : list A) : forall pre bi b,
  L = pre ++ l -> L !! bi = Some b ->
  L !! fst (argmax_from ltb bi b (length pre) l)
  = Some (snd (argmax_from ltb bi b (length pre) l)).
Proof.
  induction l as [|y l IH]; intros pre bi b HL Hb; [exact Hb|].
  cbn [argmax_from].
  assert (HL' : L = (pre ++ [y]) ++ l) by now rewrite <- app_assoc.
  assert (Hlen : length (pre ++ [y]) = S (length pre))
    by (rewrite length_app; cbn; lia).
  destruct (ltb b y).
  - specialize (IH (pre ++ [y]) (length pre) y HL'). rewrite Hlen in IH.
    apply IH. subst L. apply list_lookup_middle. reflexivity.
  - specialize (IH (pre ++ [y]) bi b HL'). rewrite Hlen in IH. now apply IH.
Qed.

(** [np.argmax] and [np.max] of distances go together. *)
Lemma float_argmax_max l :
  l <> [] -> l !! float_argmax l = Some (float_max l).
Proof.
  destruct l as [|a l]; [congruence|]. intros _.
  apply (argmax_from_lookup float_ltb (a :: l) l [a] 0%nat a); reflexivity.
Qed.

Lemma getitem_Ok_lookup {A} (l : list A) (i : nat) x :
  getitem l (Z.of_nat i) = Ok x -> l !! i = Some x.
Proof.
  destruct (l !! i) as [y|] eqn:Hlook.
  - rewrite (getitem_ok l i y) by (now rewrite nth_error_lookup). congruence.
  - apply lookup_ge_None in Hlook. rewrite getitem_past_end by lia. discriminate.
Qed.

(** The fragment graph of a non-empty list of centroids: it returns; the
    connections are the consecutive nodes of a path over the centroids; a
    finite tortuosity it sets is at least 1 and a finite length is not
    negative. *)
Lemma fragment_graph_spec centroids_mm m :
  centroids_mm <> [] ->
  exists m' path,
    fragment_graph centroids_mm m
    = Ok (m', mkVis (Some "lines") (Some centroids_mm)
                    (Some (combine (removelast path) (tl path))))
    /\ path <> []
    /\ Forall (fun k => (0 <= k < Z.of_nat (length centroids_mm))%Z) path
    /\ (forall t, tortuosity m' = Fin t -> tortuosity m = Fin t \/ 1 <= t)
    /\ (forall x, length_mm m' = Fin x -> 0 <= x).
Proof.
  intros Hne. unfold fragment_graph.
  set (g := minimum_spanning_tree (cdist centroids_mm centroids_mm)).
  assert (Hn : length centroids_mm = nodes g)
    by (unfold g, minimum_spanning_tree, cdist; cbn; now rewrite length_map).
  assert (Hpos : (0 < length centroids_mm)%nat)
    by (destruct centroids_mm; [congruence|cbn; lia]).
  pose proof (dijkstra_shape g 0) as (Hd1 & _).
  destruct (dijkstra g 0) as [distances ?]. cbn [fst] in Hd1.
  assert (Hfirst : (float_argmax distances < length centroids_mm)%nat).
  { rewrite Hn, <- Hd1. destruct distances as [|d ds]; [cbn [length] in Hd1; lia|].
    unfold float_argmax. pose proof (argmax_from_bound float_ltb ds 0 d 1 ltac:(lia)).
    cbn [length]. lia. }
  set (first := float_argmax distances) in *.
  pose proof (dijkstra_shape g first) as (Hd2 & Hp2 & Hpred).
  pose proof (dijkstra_walk_back_returns g first) as Hfuel.
  pose proof (fun v d => dijkstra_dist centroids_mm g first v d
                           (mst_edges_within centroids_mm) Hn) as Hdist.
  destruct (dijkstra g first) as [dfe predecessors]. cbn [fst snd] in *.
  assert (Hdne : dfe <> []) by (destruct dfe; [cbn [length] in Hd2; lia|discriminate]).
  assert (Hsecond : (float_argmax dfe < length centroids_mm)%nat).
  { rewrite Hn, <- Hd2. destruct dfe as [|d ds]; [congruence|].
    unfold float_argmax. pose proof (argmax_from_bound float_ltb ds 0 d 1 ltac:(lia)).
    cbn [length]. lia. }
  pose proof (float_argmax_max dfe Hdne) as Hmax.
  set (second := float_argmax dfe) in *.
  destruct (lookup_lt_is_Some_2 centroids_mm first Hfirst) as [start Hstart].
  destruct (lookup_lt_is_Some_2 centroids_mm second Hsecond) as [stop Hstop].
  rewrite (getitem_ok centroids_mm first start) by (now rewrite nth_error_lookup).
  rewrite (getitem_ok centroids_mm second stop) by (now rewrite nth_error_lookup).
  cbn [mbind result_bind].
  pose proof (walk_back_valid predecessors) as Hvalid.
  specialize (Hvalid ltac:(intros v p Hvp; rewrite Hp2; now apply (Hpred v p))
                     (S (length predecessors)) second ltac:(lia)).
  specialize (Hfuel second).
  destruct (walk_back (S (length predecessors)) predecessors (Z.of_nat second))
    as [path| |]; [|contradiction|congruence].
  destruct Hvalid as [Hpne Hall]. cbn [mbind result_bind].
  eexists _, (rev path). split; [reflexivity|].
  split; [intros Hnil; apply Hpne; apply (f_equal (@rev Z)) in Hnil;
          now rewrite rev_involutive in Hnil|].
  split; [rewrite Hp2, <- Hn in Hall; now apply Forall_rev|].
  cbn [tortuosity length_mm].
  destruct (Hdist second (float_max dfe) Hmax)
    as [->|(x & csrc & cv & -> & Hs & Hv & Hle)].
  - split; [|discriminate]. intros t.
    destruct (Rltb 0 _); [discriminate|auto].
  - assert (csrc = start) by congruence. assert (cv = stop) by congruence.
    subst csrc cv. fold (dist start stop). pose proof (dist_nonneg start stop).
    split; [|intros ? [= <-]; lra].
    intros t. unfold Rltb. destruct (Rlt_dec 0 (dist start stop)) as [Hs0|]; [|auto].
    cbn [float_div]. intros [= <-]. right.
    apply Rmult_le_reg_r with (dist start stop); [exact Hs0|].
    unfold Rdiv. rewrite Rmult_assoc, Rinv_l by lra. lra.
Qed.

Section GraphTheorems.
Context {image : ImageLib}.

(** What a returned analysis holds besides the diameters: nothing when fewer
    than two fragments are larger than one voxel, the fragment graph
    otherwise. *)
Lemma centerline_from_profile_graph affine skeleton labeled num_features
    skeleton_mm diameters_mm plot_path ca :
  centerline_from_profile affine skeleton labeled num_features
    skeleton_mm diameters_mm plot_path = Ok (Some ca) ->
  (vis_data ca = mkVis None None None
   /\ length_mm (metrics ca) = NaN /\ tortuosity (metrics ca) = NaN
   /\ quality (metrics ca) = NaN)
  \/ exists labels path,
       vis_data ca
       = mkVis (Some "lines") (Some (map (fragment_centroid affine skeleton labeled) labels))
               (Some (combine (removelast path) (tl path)))
       /\ (2 <= length labels)%nat
       /\ (forall l, In l labels ->
             l <> 0%nat /\ (1 < nth l (bincount (ravel labeled)) 0)%nat)
       /\ path <> []
       /\ Forall (fun k => (0 <= k < Z.of_nat (length labels))%Z) path
       /\ (forall t, tortuosity (metrics ca) = Fin t -> 1 <= t)
       /\ (forall x, length_mm (metrics ca) = Fin x -> 0 <= x).
Proof.
  unfold centerline_from_profile. intros Hrun.
  apply bind_result_Ok_inv in Hrun as (loc & _ & Hrun).
  apply bind_result_Ok_inv in Hrun as (tangent & _ & Hrun).
  apply bind_result_Ok_inv in Hrun as ([m vis] & Hbranch & Hrun).
  injection Hrun as <-. cbn [metrics vis_data].
  destruct (1 <? num_features)%Z; [|injection Hbranch as <- <-; left; auto].
  match type of Hbranch with
  | (if (1 <? length ?sig)%nat then _ else _) = _ =>
    set (labels := sig) in *; destruct (Nat.ltb_spec 1 (length labels)) as [Hsig|Hsig]
  end; [|injection Hbranch as <- <-; left; auto].
  right.
  match type of Hbranch with
  | fragment_graph ?cs ?m0 = _ =>
    destruct (fragment_graph_spec cs m0) as (m' & path & Hfg & Hpne & Hall & Htort & Hlen)
  end.
  { unfold center_of_mass. destruct labels; [cbn in Hsig; lia|discriminate]. }
  rewrite Hfg in Hbranch. injection Hbranch as <- <-.
  exists labels, path. unfold center_of_mass in *. rewrite map_map in *.
  rewrite length_map in Hall.
  split; [reflexivity|]. split; [lia|]. split; [|split; [exact Hpne|split; [exact Hall|]]].
  - intros l Hl. unfold labels in Hl.
    apply filter_In in Hl as [Hl Hnz]. apply filter_In in Hl as [_ Hbig].
    split.
    + intros ->. discriminate.
    + now apply Nat.ltb_lt in Hbig.
  - split; [|exact Hlen]. intros t Ht. destruct (Htort t Ht) as [[=]|]; assumption.
Qed.

(** A skeleton of at least two voxels is always analysed. *)
Lemma centerline_from_profile_returns affine skeleton labeled num_features
    skeleton_mm diameters_mm plot_path :
  (2 <= length skeleton_mm)%nat -> length diameters_mm = length skeleton_mm ->
  exists ca,
    centerline_from_profile affine skeleton labeled num_features
      skeleton_mm diameters_mm plot_path = Ok (Some ca).
Proof.
  intros Hlen Hsame. unfold centerline_from_profile.
  assert (Harg : (np_argmax diameters_mm < length skeleton_mm)%nat).
  { rewrite <- Hsame. apply np_argmax_bound. destruct diameters_mm; [cbn in *; lia|discriminate]. }
  destruct (getitem_in_range skeleton_mm (Z.of_nat (np_argmax diameters_mm)) ltac:(lia))
    as [loc ->].
  destruct (compute_tangent_ok skeleton_mm (Z.of_nat (np_argmax diameters_mm)) Hlen
              ltac:(lia)) as [tangent ->].
  cbn [mbind result_bind].
  destruct (1 <? num_features)%Z; [|cbn; eauto].
  match goal with
  | |- context [if (1 <? length ?sig)%nat then _ else _] =>
    set (labels := sig); destruct (Nat.ltb_spec 1 (length labels)) as [Hsig|Hsig]
  end; [|cbn; eauto].
  match goal with
  | |- context [fragment_graph ?cs ?m0] =>
    destruct (fragment_graph_spec cs m0) as (m' & path & -> & _)
  end.
  { unfold center_of_mass. destruct labels; [cbn in Hsig; lia|discriminate]. }
  cbn. eauto.
Qed.

(** X14.  The centerline geometry of a returned analysis.  Either there is
    none, and then length, tortuosity and quality are [nan]; or its points
    are the world-space centroids of the skeleton fragments larger than one
    voxel, at least two of them, and its connections are the consecutive
    pairs of one path whose nodes all index a point, so that every connection
    can be drawn. *)
Theorem X14_centerline_connections_form_a_path_over_the_fragment_centroids
    mask affine name destination_folder patient_id w ca w' :
  compute_centerline_metrics mask affine name destination_folder patient_id w
    = (Ok (Some ca), w') ->
  let skeleton := skeletonize (cleaned_mask_of mask affine) in
  let labeled := fst (label skeleton) in
  (vis_data ca = mkVis None None None
   /\ length_mm (metrics ca) = NaN /\ tortuosity (metrics ca) = NaN
   /\ quality (metrics ca) = NaN)
  \/ exists labels path,
       vis_data ca
       = mkVis (Some "lines") (Some (map (fragment_centroid affine skeleton labeled) labels))
               (Some (combine (removelast path) (tl path)))
       /\ (2 <= length labels)%nat
       /\ (forall l, In l labels ->
             l <> 0%nat /\ (1 < nth l (bincount (ravel labeled)) 0)%nat)
       /\ path <> []
       /\ Forall (fun k => (0 <= k < Z.of_nat (length labels))%Z) path.
Proof.
  intros Hrun. cbv zeta.
  apply compute_centerline_metrics_Some_inv in Hrun as [_ Hrun]. cbv zeta in Hrun.
  apply centerline_from_profile_graph in Hrun
    as [Hnone|(labels & path & Hvis & Hlen & Hlabels & Hpne & Hall & _)];
    [now left|].
  right. exists labels, path. auto.
Qed.

(** X15.  The tortuosity a returned analysis reports is never a number below
    1, and the length never a negative number: the path along the fragment
    graph is at least as long as the straight line between its end
    points. *)
Theorem X15_tortuosity_is_at_least_one
    mask affine name destination_folder patient_id w ca w' :
  compute_centerline_metrics mask affine name destination_folder patient_id w
    = (Ok (Some ca), w') ->
  (forall t, tortuosity (metrics ca) = Fin t -> 1 <= t)
  /\ (forall x, length_mm (metrics ca) = Fin x -> 0 <= x).
Proof.
  intros Hrun.
  apply compute_centerline_metrics_Some_inv in Hrun as [_ Hrun]. cbv zeta in Hrun.
  apply centerline_from_profile_graph in Hrun
    as [(_ & Hl & Ht & _)|(labels & path & _ & _ & _ & _ & _ & Htort & Hlen)].
  - rewrite Hl, Ht. split; discriminate.
  - auto.
Qed.

(** X16.  The centerline analysis raises in one case only: the mask is not
    degenerate and its skeleton is a single voxel, the tangent at index 0
    then reading the missing second point.  With the analysis never running
    away, every other mask gets an answer. *)
Theorem X16_centerline_analysis_raises_exactly_on_a_one_voxel_skeleton
    mask affine name destination_folder patient_id w :
  let skeleton := skeletonize (cleaned_mask_of mask affine) in
  let run := compute_centerline_metrics mask affine name destination_folder patient_id w in
  fst run <> OutOfFuel
  /\ forall e,
       fst run = Raise e
       <-> np_any mask = true /\ np_any (cleaned_mask_of mask affine) = true
           /\ snd (label skeleton) <> 0%Z
           /\ (exists v, argwhere skeleton = [v])
           /\ e = IndexError 1 0 1.
Proof.
  cbv zeta. split; [apply compute_centerline_metrics_terminates|]. intros e.
  destruct (compute_centerline_metrics_cases mask affine name destination_folder
              patient_id w) as [[Hdeg ->]|(Hm & Hc & Hs & Hl & Hstage & Hne)].
  - cbn [fst]. split; [discriminate|].
    intros (Hm & Hc & Hl & [v Hv] & _).
    destruct Hdeg as [?|[?|[Hs|?]]]; try congruence.
    rewrite np_any_argwhere, Hv in Hs. discriminate.
  - set (skeleton := skeletonize (cleaned_mask_of mask affine)) in *.
    destruct (argwhere skeleton) as [|v [|v' vs]] eqn:Hvox; [congruence| |].
    + rewrite (compute_centerline_metrics_single_voxel _ _ _ _ _ v _ _ _ _ Hstage Hvox).
      cbn [fst]. split.
      * intros [= <-]. repeat split; eauto.
      * intros (_ & _ & _ & _ & ->). reflexivity.
    + rewrite (compute_centerline_metrics_run _ _ _ _ _ _ _ _ _ Hstage)
        by (rewrite Hvox; discriminate).
      destruct (centerline_from_profile_returns affine skeleton (fst (label skeleton))
                  (snd (label skeleton)) (skeleton_mm_of affine skeleton)
                  (diameter_profile mask affine skeleton)
                  (plot_file_of destination_folder patient_id name)) as [ca ->].
      * unfold skeleton_mm_of. rewrite Hvox. cbn. lia.
      * unfold skeleton_mm_of, diameter_profile. now rewrite !length_map.
      * cbn [fst]. split; [discriminate|]. intros (_ & _ & _ & [u [=]] & _).
Qed.

End GraphTheorems.

Lemma two_rods_centerline_returns :
  exists ca w',
    @compute_centerline_metrics Examples.two_rods_lib Examples.two_rods_skeleton identity4
      "Aorta" "out" "patient" Examples.world0 = (Ok (Some ca), w').
Proof.
  destruct (@two_fragments_run Examples.two_rods_lib Examples.two_rods_skeleton identity4
              Examples.two_rods_skeleton Examples.two_rods_labeled
              14 2 2 "Aorta" "out" "patient" Examples.world0)
    as (ca & w' & Hrun & _).
  - apply example_stage_of; [vm_compute; reflexivity|discriminate].
  - apply labelling_of_check; [reflexivity|vm_compute; reflexivity].
  - vm_compute. reflexivity.
  - lia.
  - lia.
  - eauto.
Qed.

Lemma X14_centerline_connections_form_a_path_over_the_fragment_centroids_witness :
  exists ca w',
    @compute_centerline_metrics Examples.two_rods_lib Examples.two_rods_skeleton identity4
      "Aorta" "out" "patient" Examples.world0 = (Ok (Some ca), w')
    /\ (vis_data ca = mkVis None None None
        \/ exists points connections,
             vis_data ca = mkVis (Some "lines") (Some points) (Some connections)).
Proof.
  destruct two_rods_centerline_returns as (ca & w' & Hrun).
  exists ca, w'. split; [exact Hrun|].
  destruct (@X14_centerline_connections_form_a_path_over_the_fragment_centroids
              Examples.two_rods_lib _ _ _ _ _ _ _ _ Hrun)
    as [(Hnone & _)|(labels & path & Hvis & _)]; [now left|].
  right. eauto.
Defined.

Lemma X15_tortuosity_is_at_least_one_witness :
  exists ca w',
    @compute_centerline_metrics Examples.two_rods_lib Examples.two_rods_skeleton identity4
      "Aorta" "out" "patient" Examples.world0 = (Ok (Some ca), w')
    /\ (forall t, tortuosity (metrics ca) = Fin t -> 1 <= t)
    /\ (forall x, length_mm (metrics ca) = Fin x -> 0 <= x).
Proof.
  destruct two_rods_centerline_returns as (ca & w' & Hrun).
  exists ca, w'. split; [exact Hrun|].
  exact (@X15_tortuosity_is_at_least_one Examples.two_rods_lib _ _ _ _ _ _ _ _ Hrun).
Defined.

(** * Drawing the results *)

Import Examples Visualization.

Lemma getitem_valid {A} (l : list A) i :
  valid_index (length l) i ->
  exists x, getitem l i = Ok x /\ l !! py_index (length l) i = Some x.
Proof.
  unfold valid_index, getitem, py_index. intros Hi.
  destruct (Z.ltb_spec i 0).
  - destruct (Z.leb_spec 0 (i + Z.of_nat (length l))); [|lia].
    destruct (Z.ltb_spec (i + Z.of_nat (length l)) (Z.of_nat (length l))); [|lia].
    cbn [andb]. rewrite nth_error_lookup.
    destruct (lookup_lt_is_Some_2 l (Z.to_nat (i + Z.of_nat (length l))) ltac:(lia))
      as [x ->]. eauto.
  - destruct (Z.leb_spec 0 i); [|lia].
    destruct (Z.ltb_spec i (Z.of_nat (length l))); [|lia].
    cbn [andb]. rewrite nth_error_lookup.
    destruct (lookup_lt_is_Some_2 l (Z.to_nat i) ltac:(lia)) as [x ->]. eauto.
Qed.

Lemma getitem_Ok_valid {A} (l : list A) i x :
  getitem l i = Ok x -> valid_index (length l) i.
Proof.
  unfold valid_index, getitem.
  destruct (Z.ltb_spec i 0) as [Hneg|Hpos]; cbv zeta;
    match goal with
    | |- context [(?a && ?b)%bool] => destruct a eqn:H1; destruct b eqn:H2
    end; cbn [andb]; try discriminate; intros _;
    apply Z.leb_le in H1; apply Z.ltb_lt in H2; lia.
Qed.

Lemma lineset_loop_spec points lines : forall xs ys zs,
  match lineset_loop points lines (xs, ys, zs) with
  | Ok (xs', ys', zs') =>
    Forall (fun line => valid_index (length points) (fst line)
                        /\ valid_index (length points) (snd line)) lines
    /\ xs' = xs ++ flat_map (segment coord_x points) lines
    /\ ys' = ys ++ flat_map (segment coord_y points) lines
    /\ zs' = zs ++ flat_map (segment coord_z points) lines
  | Raise _ =>
    ~ Forall (fun line => valid_index (length points) (fst line)
                          /\ valid_index (length points) (snd line)) lines
  | OutOfFuel => False
  end.
Proof.
  induction lines as [|[a b] lines IH]; intros xs ys zs.
  - cbn. rewrite !app_nil_r. auto.
  - cbn [lineset_loop fst snd].
    destruct (getitem points a) as [p1|e|] eqn:Ha; cbn [mbind result_bind].
    + destruct (getitem points b) as [p2|e|] eqn:Hb; cbn [mbind result_bind].
      * specialize (IH (xs ++ [Some (coord_x p1); Some (coord_x p2); None])
                       (ys ++ [Some (coord_y p1); Some (coord_y p2); None])
                       (zs ++ [Some (coord_z p1); Some (coord_z p2); None])).
        destruct (lineset_loop _ _ _) as [[[xs' ys'] zs']|e|]; [| |exact IH].
        -- destruct IH as (Hall & -> & -> & ->).
           pose proof (getitem_Ok_valid _ _ _ Ha) as Hva.
           pose proof (getitem_Ok_valid _ _ _ Hb) as Hvb.
           destruct (getitem_valid points a Hva) as (p1' & Ha' & Hla).
           destruct (getitem_valid points b Hvb) as (p2' & Hb' & Hlb).
           assert (p1' = p1) by congruence. assert (p2' = p2) by congruence.
           subst p1' p2'.
           split; [constructor; auto|].
           assert (Hseg : forall coord,
                     segment coord points (a, b)
                     = [Some (coord p1); Some (coord p2); None])
             by (intros; unfold segment; cbn [fst snd]; rewrite Hla, Hlb; reflexivity).
           cbn [flat_map]. rewrite !Hseg, <- !app_assoc. cbn [app]. auto.
        -- intros Hall. apply IH. now inversion Hall.
      * intros Hall. inversion Hall as [|? ? [_ Hvb] _]; subst.
        destruct (getitem_valid points b Hvb) as (? & ? & _). congruence.
      * now apply getitem_fuel in Hb.
    + intros Hall. inversion Hall as [|? ? [Hva _] _]; subst.
      destruct (getitem_valid points a Hva) as (? & ? & _). congruence.
    + now apply getitem_fuel in Ha.
Qed.

(** X17.  Drawing a line set.  [lineset_to_plotly] returns exactly when both
    ends of every line are valid Python indices into the points (from -n to
    n - 1 for n points); otherwise it raises.  When it returns, each list of
    coordinates holds, line after line, the coordinate of the first end, that
    of the second end and a [None] that ends the segment. *)
Theorem X17_lineset_trace_has_one_segment_per_line lineset_data color name showlegend :
  let points := ls_points lineset_data in
  let lines := ls_lines lineset_data in
  ((exists trace, lineset_to_plotly lineset_data color name showlegend = Ok trace)
   <-> Forall (fun line => valid_index (length points) (fst line)
                           /\ valid_index (length points) (snd line)) lines)
  /\ (forall trace,
        lineset_to_plotly lineset_data color name showlegend = Ok trace ->
        x_lines trace = flat_map (segment coord_x points) lines
        /\ y_lines trace = flat_map (segment coord_y points) lines
        /\ z_lines trace = flat_map (segment coord_z points) lines
        /\ length (x_lines trace) = (3 * length lines)%nat)
  /\ lineset_to_plotly lineset_data color name showlegend <> OutOfFuel.
Proof.
  cbv zeta. unfold lineset_to_plotly.
  pose proof (lineset_loop_spec (ls_points lineset_data) (ls_lines lineset_data) [] [] [])
    as Hspec.
  destruct (lineset_loop _ _ _) as [[[xs ys] zs]|e|]; cbn [mbind result_bind];
    [|split; [split; [intros [? [=]]|contradiction]|split; [discriminate|discriminate]]
     |contradiction].
  destruct Hspec as (Hall & -> & -> & ->). cbn [app].
  split; [split; eauto|]. split; [|discriminate].
  intros trace [= <-]. cbn [x_lines y_lines z_lines]. repeat split.
  induction (ls_lines lineset_data) as [|l ls IH]; [reflexivity|].
  cbn [flat_map length]. rewrite length_app. inversion Hall; subst.
  rewrite IH by assumption. cbn. lia.
Qed.

Lemma Forall_removelast {A} (P : A -> Prop) l : Forall P l -> Forall P (removelast l).
Proof.
  induction 1 as [|x l Hx Hl IH]; [constructor|].
  cbn [removelast]. destruct l; [constructor|]. constructor; assumption.
Qed.

Lemma Forall_combine_pairs {A} (P : A -> Prop) l1 : forall l2,
  Forall P l1 -> Forall P l2 ->
  Forall (fun line => P (fst line) /\ P (snd line)) (combine l1 l2).
Proof.
  induction l1 as [|x l1 IH]; intros [|y l2] H1 H2; cbn [combine]; try constructor.
  - inversion H1; inversion H2; auto.
  - inversion H1; inversion H2; subst. now apply IH.
Qed.

Lemma path_connections_in_range (n : nat) path :
  Forall (fun k => (0 <= k < Z.of_nat n)%Z) path ->
  Forall (fun line => (0 <= fst line < Z.of_nat n)%Z /\ (0 <= snd line < Z.of_nat n)%Z)
         (combine (removelast path) (tl path)).
Proof.
  intros Hall.
  apply (Forall_combine_pairs (fun k => (0 <= k < Z.of_nat n)%Z));
    [now apply Forall_removelast|].
  destruct Hall; [constructor|assumption].
Qed.

Lemma lineset_to_plotly_in_range lineset_data color name showlegend :
  lines_in_range lineset_data ->
  exists trace,
    lineset_to_plotly lineset_data color name showlegend = Ok trace
    /\ x_lines trace = flat_map (segment coord_x (ls_points lineset_data))
                                (ls_lines lineset_data)
    /\ y_lines trace = flat_map (segment coord_y (ls_points lineset_data))
                                (ls_lines lineset_data)
    /\ z_lines trace = flat_map (segment coord_z (ls_points lineset_data))
                                (ls_lines lineset_data).
Proof.
  intros Hall. unfold lineset_to_plotly.
  pose proof (lineset_loop_spec (ls_points lineset_data) (ls_lines lineset_data) [] [] [])
    as Hspec.
  destruct (lineset_loop _ _ _) as [[[xs ys] zs]|e|]; cbn [mbind result_bind].
  - destruct Hspec as (_ & -> & -> & ->). eexists. split; [reflexivity|]. auto.
  - exfalso. apply Hspec. unfold lines_in_range in Hall.
    eapply Forall_impl; [exact Hall|]. unfold valid_index. cbn beta. lia.
  - contradiction.
Qed.

Section DrawingTheorems.
Context {image : ImageLib} {meshes : MeshLib} {files : FileLib}.

Lemma compute_centerline_metrics_same_answer mask affine name destination_folder
    patient_id w w0 :
  fst (compute_centerline_metrics mask affine name destination_folder patient_id w)
  = fst (compute_centerline_metrics mask affine name destination_folder patient_id w0).
Proof.
  destruct (compute_centerline_metrics_cases mask affine name destination_folder
              patient_id w) as [[Hdeg Hrun]|(_ & _ & _ & _ & Hstage & Hne)].
  - rewrite Hrun.
    destruct (compute_centerline_metrics_cases mask affine name destination_folder
                patient_id w0) as [[_ ->]|(Hm & Hc & Hs & Hl & _)]; [reflexivity|].
    destruct Hdeg as [?|[?|[?|?]]]; congruence.
  - now rewrite !(compute_centerline_metrics_run _ _ _ _ _ _ _ _ _ Hstage Hne).
Qed.

(** The geometry the centerline stage leaves in a record. *)
Lemma analyse_centerline_geometry mask affine name destination_folder patient_id
    m0 vm w vr w' :
  analyse_centerline mask affine name destination_folder patient_id
    (mkVessel (Some m0) None None vm None None) w = (Ok vr, w') ->
  geometry_ok vr
  /\ forall ca w0,
       fst (compute_centerline_metrics mask affine name destination_folder patient_id w0)
       = Ok (Some ca) ->
       v_centerline vr
       = match vis_points (vis_data ca), vis_connections (vis_data ca) with
         | Some pts, Some conns => Some (mkLineSet pts conns)
         | _, _ => None
         end
       /\ is_Some (v_max_diameter_disc vr).
Proof.
  unfold analyse_centerline. intros Hrun.
  apply bind_Ok_inv in Hrun as (_ & w1 & _ & Hrun).
  apply bind_Ok_inv in Hrun as ([ca|] & w2 & Hcm & Hrun).
  - apply bind_Ok_inv in Hrun as (disc & w3 & Hdisc & Hrun).
    injection Hrun as <- _. cbn [v_centerline v_max_diameter_disc].
    unfold lift in Hdisc. apply (f_equal fst) in Hdisc. cbn [fst] in Hdisc.
    destruct (create_flat_disc_shape (max_diameter_location (metrics ca))
                (d_max (diameters (metrics ca)) / 2)
                (tangent_at_max_diameter_location (metrics ca)) 60)
      as (disc' & Hdisc' & Hlenv & Htri); [lia|].
    rewrite Hdisc in Hdisc'. injection Hdisc' as <-.
    split; [split|].
    + intros ls Hls.
      pose proof Hcm as Hcm'.
      apply compute_centerline_metrics_Some_inv in Hcm' as [_ Hprof]. cbv zeta in Hprof.
      apply centerline_from_profile_graph in Hprof
        as [(Hvis & _)|(labels & path & Hvis & Hlen & _ & _ & Hall & _)];
        rewrite Hvis in Hls; cbn [vis_points vis_connections] in Hls; [discriminate|].
      injection Hls as <-. unfold lines_in_range. cbn [ls_points ls_lines].
      rewrite length_map. split; [now apply path_connections_in_range|exact Hlen].
    + intros d [= <-]. unfold triangles_in_range. cbn [vertices triangles].
      rewrite Hlenv, Htri. split; [|split; [reflexivity|]].
      * apply Forall_app. split.
        -- apply List.Forall_forall. intros [[i j] k] Hin.
           apply in_map_iff in Hin as (i' & [= <- <- <-] & Hi').
           apply in_range in Hi'. cbn. lia.
        -- repeat constructor; cbn; lia.
      * rewrite length_app, length_map, length_range. reflexivity.
    + intros ca' w0 Hca.
      rewrite (compute_centerline_metrics_same_answer _ _ _ _ _ w0 w1), Hcm in Hca.
      cbn [fst] in Hca. injection Hca as <-. split; [|eauto].
      destruct (vis_points (vis_data ca)), (vis_connections (vis_data ca)); reflexivity.
  - injection Hrun as <- _. split; [split; intros ? [=]|].
    intros ca w0 Hca.
    rewrite (compute_centerline_metrics_same_answer _ _ _ _ _ w0 w1), Hcm in Hca.
    discriminate.
Qed.

Lemma vessel_try_body_geometry new_seg_scan affine voxel_spacing points point_labels
    destination_folder patient_id mask label_idx name results w r w' :
  vessel_try_body new_seg_scan affine voxel_spacing points point_labels
    destination_folder patient_id mask label_idx name empty_vessel results w = (Ok r, w') ->
  exists vd,
    r = set_vessels results (<[name := vd]> (vessels results))
    /\ geometry_ok vd
    /\ forall ca w0,
         fst (compute_centerline_metrics mask affine name destination_folder patient_id w0)
         = Ok (Some ca) ->
         v_centerline vd
         = match vis_points (vis_data ca), vis_connections (vis_data ca) with
           | Some pts, Some conns => Some (mkLineSet pts conns)
           | _, _ => None
           end
         /\ is_Some (v_max_diameter_disc vd).
Proof.
  unfold vessel_try_body. intros Hrun.
  apply bind_Ok_inv in Hrun as ([vr1 mesh] & w1 & Hrec & Hrun).
  apply bind_Ok_inv in Hrun as (vr2 & w2 & Hcl & Hrun).
  apply bind_Ok_inv in Hrun as (vr3 & w3 & Hq & Hrun).
  injection Hrun as <- _. exists vr3. split; [reflexivity|].
  apply reconstruct_mesh_Ok_inv in Hrec as (m0 & surface & volume & watertight & -> & _).
  apply analyse_centerline_geometry in Hcl as [Hgeo Hline].
  apply score_quality_Ok_inv in Hq
    as [[-> _]|(q & pts & labels & _ & _ & _ & ->)]; [auto|].
  split; [exact Hgeo|exact Hline].
Qed.

Lemma vessel_loop_geometry new_seg_scan affine voxel_spacing points point_labels
    destination_folder patient_id todo : forall results w r w',
  map_Forall (fun _ => geometry_ok) (vessels results) ->
  vessel_loop new_seg_scan affine voxel_spacing points point_labels
    destination_folder patient_id todo results w = (Ok r, w') ->
  map_Forall (fun _ => geometry_ok) (vessels r).
Proof.
  induction todo as [|[l [c n]] todo IH]; intros results w r w' Hres Hloop.
  - injection Hloop as <- _. exact Hres.
  - cbn [vessel_loop] in Hloop.
    apply bind_Ok_inv in Hloop as (r1 & w1 & Hstep & Hloop).
    apply (IH r1 w1 r w'); [|exact Hloop].
    apply process_vessel_Ok_inv in Hstep as [->|(w0 & Hbody)]; [exact Hres|].
    apply vessel_try_body_geometry in Hbody as (vd & -> & Hgeo & _).
    cbn [set_vessels vessels]. apply map_Forall_insert_2; assumption.
Qed.

Lemma analysis_geometry scan_nifti_file segmentation_file pointcloud_file
    destination_folder patient_id w r w' :
  enhanced_vessel_reconstruction_analysis scan_nifti_file segmentation_file
    pointcloud_file destination_folder patient_id w = (Ok r, w') ->
  map_Forall (fun _ => geometry_ok) (vessels r).
Proof.
  rewrite analysis_run.
  destruct (load_segmentation segmentation_file) as [new_seg_scan|e];
    [|intros [= <- _]; apply map_Forall_empty].
  cbv zeta.
  destruct (load_affine scan_nifti_file) as [affine|e];
    [|intros [= <- _]; apply map_Forall_empty].
  destruct (linalg_inv affine) as [inv_affine|e];
    [|intros [= <- _]; apply map_Forall_empty].
  destruct (load_pointcloud pointcloud_file) as [points|e].
  - destruct (label_points new_seg_scan inv_affine points) as [labels|e|];
      [|discriminate|discriminate].
    unfold finish_analysis.
    destruct (vessel_loop _ _ _ _ _ _ _ _ _ _) as [[r0|e|] wl] eqn:Hloop;
      [|discriminate|discriminate].
    intros [= <- _]. cbn [vessels].
    eapply vessel_loop_geometry; [|exact Hloop]. apply map_Forall_empty.
  - unfold finish_analysis.
    destruct (vessel_loop _ _ _ _ _ _ _ _ _ _) as [[r0|e0|] wl] eqn:Hloop;
      [|discriminate|discriminate].
    intros [= <- _].
    eapply vessel_loop_geometry; [|exact Hloop]. apply map_Forall_empty.
Qed.

(** X18.  Every centerline the analysis stores can be drawn: its lines index
    points of the line set, of which there are at least two, so that
    [lineset_to_plotly] returns on it, with three entries per line in each
    list of coordinates. *)
Theorem X18_stored_centerlines_can_be_drawn
    scan_nifti_file segmentation_file pointcloud_file destination_folder patient_id
    w r w' vessel vd ls color name showlegend :
  enhanced_vessel_reconstruction_analysis scan_nifti_file segmentation_file
    pointcloud_file destination_folder patient_id w = (Ok r, w') ->
  vessels r !! vessel = Some vd ->
  v_centerline vd = Some ls ->
  (2 <= length (ls_points ls))%nat
  /\ exists trace,
       lineset_to_plotly ls color name showlegend = Ok trace
       /\ x_lines trace = flat_map (segment coord_x (ls_points ls)) (ls_lines ls)
       /\ y_lines trace = flat_map (segment coord_y (ls_points ls)) (ls_lines ls)
       /\ z_lines trace = flat_map (segment coord_z (ls_points ls)) (ls_lines ls).
Proof.
  intros Hrun Hlook Hls.
  destruct (analysis_geometry _ _ _ _ _ _ _ _ Hrun vessel vd Hlook) as [Hlines _].
  destruct (Hlines ls Hls) as [Hrange Hlen]. split; [exact Hlen|].
  now apply lineset_to_plotly_in_range.
Qed.

(** X19.  The disc the analysis stores can be drawn as a mesh: the trace
    [mesh_to_plotly] builds has 61 vertices and 60 triangles, and every
    corner index of every triangle is the position of a vertex. *)
Theorem X19_stored_discs_can_be_drawn
    scan_nifti_file segmentation_file pointcloud_file destination_folder patient_id
    w r w' vessel vd disc color name showlegend :
  enhanced_vessel_reconstruction_analysis scan_nifti_file segmentation_file
    pointcloud_file destination_folder patient_id w = (Ok r, w') ->
  vessels r !! vessel = Some vd ->
  v_max_diameter_disc vd = Some disc ->
  let trace := mesh_to_plotly disc color name showlegend in
  length (mesh_x trace) = 61%nat /\ length (mesh_y trace) = 61%nat
  /\ length (mesh_z trace) = 61%nat
  /\ length (mesh_i trace) = 60%nat /\ length (mesh_j trace) = 60%nat
  /\ length (mesh_k trace) = 60%nat
  /\ Forall (fun i => (0 <= i < 61)%Z) (mesh_i trace ++ mesh_j trace ++ mesh_k trace).
Proof.
  intros Hrun Hlook Hdisc. cbv zeta.
  destruct (analysis_geometry _ _ _ _ _ _ _ _ Hrun vessel vd Hlook) as [_ Hd].
  destruct (Hd disc Hdisc) as (Hrange & Hv & Ht).
  unfold mesh_to_plotly. cbn [mesh_x mesh_y mesh_z mesh_i mesh_j mesh_k].
  rewrite !length_map, Hv, Ht. repeat split; try reflexivity.
  unfold triangles_in_range in Hrange. rewrite Hv in Hrange.
  rewrite !Forall_app, !Forall_map.
  repeat split; (eapply Forall_impl; [exact Hrange|]); intros [[i j] k]; cbn; lia.
Qed.

(** A vessel whose skeleton has at least two voxels gets its record, as long
    as the two library calls that can fail return; the record holds the
    centerline the centerline analysis found, and the disc. *)
Lemma process_vessel_stores_record new_seg_scan affine voxel_spacing
    points point_labels destination_folder patient_id results label_idx name w
    skeleton labeled num_features verts faces :
  skeleton_stage (eq_label new_seg_scan label_idx) affine skeleton labeled num_features ->
  (2 <= length (argwhere skeleton))%nat ->
  marching_cubes (smoothed_of (eq_label new_seg_scan label_idx)) (2 / 10) voxel_spacing
    = Returns (verts, faces) ->
  (forall m pts, exists d, scene_compute_distance m pts = Returns d) ->
  exists r w' vd,
    process_vessel new_seg_scan affine voxel_spacing points point_labels
      destination_folder patient_id results label_idx name w = (Ok r, w')
    /\ vessels r !! name = Some vd
    /\ forall ca w0,
         fst (compute_centerline_metrics (eq_label new_seg_scan label_idx) affine name
                destination_folder patient_id w0) = Ok (Some ca) ->
         v_centerline vd
         = match vis_points (vis_data ca), vis_connections (vis_data ca) with
           | Some pts, Some conns => Some (mkLineSet pts conns)
           | _, _ => None
           end
         /\ is_Some (v_max_diameter_disc vd).
Proof.
  intros Hstage Hlen Hmc Hscene. pose proof Hstage as (Hmask & _).
  rewrite process_vessel_nonempty by exact Hmask.
  set (w0 := say w (processing_msg name label_idx)).
  assert (Hbody : exists r w',
             vessel_try_body new_seg_scan affine voxel_spacing points point_labels
               destination_folder patient_id (eq_label new_seg_scan label_idx)
               label_idx name empty_vessel results w0 = (Ok r, w')).
  { unfold vessel_try_body.
    destruct (reconstruct_mesh_run (eq_label new_seg_scan label_idx) affine voxel_spacing
                name empty_vessel w0 verts faces Hmc) as (vr0 & mesh0 & Hrec & _).
    unfold mbind at 1. unfold M_bind at 1. rewrite Hrec.
    unfold mbind at 1. unfold M_bind at 1.
    unfold analyse_centerline.
    unfold mbind at 1. unfold M_bind at 1. cbn [status_callback].
    unfold mbind at 1. unfold M_bind at 1.
    rewrite (compute_centerline_metrics_run _ _ _ _ _ _ _ _ _ Hstage)
      by (destruct (argwhere skeleton); cbn in *; [lia|congruence]).
    destruct (centerline_from_profile_returns affine skeleton labeled
                num_features (skeleton_mm_of affine skeleton)
                (diameter_profile (eq_label new_seg_scan label_idx) affine skeleton)
                (plot_file_of destination_folder patient_id name))
      as (ca & ->).
    { unfold skeleton_mm_of. now rewrite length_map. }
    { unfold skeleton_mm_of, diameter_profile. now rewrite !length_map. }
    destruct (create_flat_disc_shape (max_diameter_location (metrics ca))
                (d_max (diameters (metrics ca)) / 2)
                (tangent_at_max_diameter_location (metrics ca)) 60)
      as (disc & Hdisc & _); [lia|].
    unfold mbind at 1. unfold M_bind at 1. unfold lift at 1. rewrite Hdisc.
    cbn [mret M_ret].
    match goal with
    | |- context [score_quality ?p ?pl ?l ?n ?m ?vr] =>
      unfold mbind at 1; unfold M_bind at 1;
      match goal with
      | |- context [score_quality p pl l n m vr ?w1] =>
        destruct (score_quality_returns p pl l n m vr w1 Hscene) as (vr' & w' & ->)
      end
    end.
    cbn. eauto. }
  destruct Hbody as (r & w' & Hbody). rewrite Hbody.
  destruct (vessel_try_body_geometry _ _ _ _ _ _ _ _ _ _ _ _ _ _ Hbody)
    as (vd & -> & _ & Hfw).
  eexists _, w', vd. split; [reflexivity|]. cbn. split; [apply lookup_insert_eq|exact Hfw].
Qed.

(** When no point cloud is read, a record the first iteration stores under
    "Aorta" is in the result of the analysis. *)
Lemma analysis_keeps_aorta (P : VesselData -> Prop)
    scan_nifti_file segmentation_file pointcloud_file destination_folder patient_id w
    new_seg_scan affine inv_affine e :
  load_segmentation segmentation_file = Returns new_seg_scan ->
  load_affine scan_nifti_file = Returns affine ->
  linalg_inv affine = Returns inv_affine ->
  load_pointcloud pointcloud_file = Raises e ->
  (forall w1, exists r1 w2 vd,
     process_vessel new_seg_scan affine (voxel_spacing_of affine) None None
       destination_folder patient_id (mkResult None ∅) 1 "Aorta" w1 = (Ok r1, w2)
     /\ vessels r1 !! "Aorta" = Some vd /\ P vd) ->
  exists r w' vd,
    enhanced_vessel_reconstruction_analysis scan_nifti_file segmentation_file
      pointcloud_file destination_folder patient_id w = (Ok r, w')
    /\ vessels r !! "Aorta" = Some vd /\ P vd.
Proof.
  intros Hseg Haff Hinv Hpcd Hstep.
  rewrite analysis_run, Hseg. cbv zeta. rewrite Haff, Hinv, Hpcd, label_table.
  destruct (Hstep (say (say w "Loading data...") (pcd_warning_msg e)))
    as (r1 & w2 & vd & Hrun & Hvd & HP).
  rewrite (vessel_loop_cons _ _ _ _ _ _ _ _ _ _ _ _ _ _ _ Hrun).
  destruct (vessel_loop_returns new_seg_scan affine (voxel_spacing_of affine) None None
              destination_folder patient_id
              [(2%Z, ((0, 1, 0), "Left Iliac Artery"));
               (3%Z, ((0, 0, 1), "Right Iliac Artery"))] r1 w2)
    as (r & w' & msgs & Hloop & _ & _ & Hkeep).
  rewrite Hloop. unfold finish_analysis. eexists _, _, vd. split; [reflexivity|].
  split; [|exact HP]. rewrite Hkeep; [exact Hvd|].
  intros l c n [[= <- <- <-]|[[= <- <- <-]|[]]]; left; discriminate.
Qed.


End DrawingTheorems.

Lemma two_rods_centroids_differ :
  fragment_centroid identity4 Examples.two_rods_skeleton Examples.two_rods_labeled 1
  <> fragment_centroid identity4 Examples.two_rods_skeleton Examples.two_rods_labeled 2.
Proof.
  unfold fragment_centroid, centroid_of.
  replace (centroid_sums Examples.two_rods_skeleton Examples.two_rods_labeled 1)
    with (0, 0, 1, 2)%Z by (vm_compute; reflexivity).
  replace (centroid_sums Examples.two_rods_skeleton Examples.two_rods_labeled 2)
    with (4, 4, 1, 2)%Z by (vm_compute; reflexivity).
  unfold affine_apply, identity4. intros H. injection H. intros. lra.
Qed.

(** The analysis of the volume of two rods: the record of the aorta holds a
    centerline and a disc. *)
Lemma two_rods_analysis_draws :
  exists r w' vd,
    @enhanced_vessel_reconstruction_analysis Examples.two_rods_lib Examples.mesh_lib
      file_lib_two_rods
      "scan.nii.gz" "seg.npz" "points.npz" "out" "patient" Examples.world0 = (Ok r, w')
    /\ vessels r !! "Aorta" = Some vd
    /\ is_Some (v_centerline vd) /\ is_Some (v_max_diameter_disc vd).
Proof.
  apply (@analysis_keeps_aorta Examples.two_rods_lib Examples.mesh_lib
           file_lib_two_rods
           (fun vd => is_Some (v_centerline vd) /\ is_Some (v_max_diameter_disc vd))
           "scan.nii.gz" "seg.npz" "points.npz" "out" "patient" Examples.world0
           two_rods_volume identity4 identity4
           (ExternalError "No such file or directory")); try reflexivity.
  assert (Hstage : @skeleton_stage Examples.two_rods_lib
                     (eq_label two_rods_volume 1) identity4
                     Examples.two_rods_skeleton Examples.two_rods_labeled 2)
    by (apply example_stage_of; [vm_compute; reflexivity|discriminate]).
  assert (Hlab : labelling_of Examples.two_rods_skeleton Examples.two_rods_labeled)
    by (apply labelling_of_check; [reflexivity|vm_compute; reflexivity]).
  assert (Hb : bincount (ravel Examples.two_rods_labeled) = [14; 2; 2]%nat)
    by (vm_compute; reflexivity).
  intros w1.
  destruct (@process_vessel_stores_record Examples.two_rods_lib Examples.mesh_lib
              two_rods_volume identity4 (voxel_spacing_of identity4) None None
              "out" "patient" (mkResult None ∅) 1%Z "Aorta" w1
              Examples.two_rods_skeleton Examples.two_rods_labeled 2%Z
              [(2, 2, 2); (4, 2, 2); (2, 4, 2)] [(0, 1, 2)%Z])
    as (r1 & w2 & vd & Hrun & Hvd & Hfw).
  - exact Hstage.
  - apply (skeleton_has_two_voxels _ _ 14 2 2 Hlab Hb). lia.
  - reflexivity.
  - intros m pts. eexists. reflexivity.
  - exists r1, w2, vd. split; [exact Hrun|]. split; [exact Hvd|].
    destruct (@two_fragments_run Examples.two_rods_lib
                (eq_label two_rods_volume 1) identity4
                Examples.two_rods_skeleton Examples.two_rods_labeled
                14 2 2 "Aorta" "out" "patient" Examples.world0 Hstage Hlab Hb
                ltac:(lia) ltac:(lia))
      as (ca & w' & Hca & Hdistinct & _).
    destruct (Hdistinct two_rods_centroids_differ) as [Hlen _].
    destruct (Hfw ca Examples.world0 ltac:(now rewrite Hca)) as [Hline Hdisc].
    split; [|exact Hdisc].
    apply compute_centerline_metrics_Some_inv in Hca as [_ Hprof]. cbv zeta in Hprof.
    apply centerline_from_profile_graph in Hprof
      as [(_ & Hnan & _)|(labels & path & Hvis & _)]; [congruence|].
    rewrite Hvis in Hline. cbn [vis_points vis_connections] in Hline.
    rewrite Hline. eauto.
Qed.

Lemma X18_stored_centerlines_can_be_drawn_witness :
  exists r w' vd ls,
    @enhanced_vessel_reconstruction_analysis Examples.two_rods_lib Examples.mesh_lib
      file_lib_two_rods
      "scan.nii.gz" "seg.npz" "points.npz" "out" "patient" Examples.world0 = (Ok r, w')
    /\ vessels r !! "Aorta" = Some vd
    /\ v_centerline vd = Some ls
    /\ (2 <= length (ls_points ls))%nat
    /\ exists trace,
         lineset_to_plotly ls "yellow" "Aorta Centerline" true = Ok trace
         /\ x_lines trace = flat_map (segment coord_x (ls_points ls)) (ls_lines ls)
         /\ y_lines trace = flat_map (segment coord_y (ls_points ls)) (ls_lines ls)
         /\ z_lines trace = flat_map (segment coord_z (ls_points ls)) (ls_lines ls).
Proof.
  destruct two_rods_analysis_draws as (r & w' & vd & Hrun & Hlook & [ls Hls] & _).
  exists r, w', vd, ls. split; [exact Hrun|]. split; [exact Hlook|]. split; [exact Hls|].
  exact (@X18_stored_centerlines_can_be_drawn Examples.two_rods_lib Examples.mesh_lib
           file_lib_two_rods _ _ _ _ _ _ _ _ _ _ ls
           "yellow" "Aorta Centerline" true Hrun Hlook Hls).
Defined.

Lemma X19_stored_discs_can_be_drawn_witness :
  exists r w' vd disc,
    @enhanced_vessel_reconstruction_analysis Examples.two_rods_lib Examples.mesh_lib
      file_lib_two_rods
      "scan.nii.gz" "seg.npz" "points.npz" "out" "patient" Examples.world0 = (Ok r, w')
    /\ vessels r !! "Aorta" = Some vd
    /\ v_max_diameter_disc vd = Some disc
    /\ length (mesh_x (mesh_to_plotly disc "purple" "Max Diameter" true)) = 61%nat
    /\ length (mesh_i (mesh_to_plotly disc "purple" "Max Diameter" true)) = 60%nat.
Proof.
  destruct two_rods_analysis_draws as (r & w' & vd & Hrun & Hlook & _ & [disc Hdisc]).
  exists r, w', vd, disc. split; [exact Hrun|]. split; [exact Hlook|].
  split; [exact Hdisc|].
  destruct (@X19_stored_discs_can_be_drawn Examples.two_rods_lib Examples.mesh_lib
              file_lib_two_rods _ _ _ _ _ _ _ _ _ _ disc
              "purple" "Max Diameter" true Hrun Hlook Hdisc)
    as (Hx & _ & _ & Hi & _).
  split; assumption.
Defined.



(** * More on the disc *)

Section DiscTheorems.
Import Disc.

(** X21.  The disc is built exactly when the resolution is not negative: a
    negative resolution makes [np.linspace] raise [ValueError].  At
    resolution 0 the mesh has the centre as its only vertex and still the
    closing triangle [0, 0, 1], whose last corner is no vertex. *)
Theorem X21_disc_is_built_exactly_for_a_resolution_that_is_not_negative
    center radius normal resolution :
  ((exists mesh, create_flat_disc center radius normal resolution = Ok mesh)
   <-> (0 <= resolution)%Z)
  /\ ((resolution < 0)%Z ->
      exists msg, create_flat_disc center radius normal resolution = Raise (ValueError msg))
  /\ (forall mesh,
        create_flat_disc center radius normal 0 = Ok mesh ->
        vertices mesh = [center] /\ triangles mesh = [(0, 0, 1)%Z]).
Proof.
  split; [split|split].
  - intros [mesh Hrun]. unfold create_flat_disc, linspace_open in Hrun.
    destruct (Z.ltb_spec resolution 0); [discriminate|lia].
  - intros Hres. destruct (create_flat_disc_shape center radius normal resolution Hres)
      as (mesh & Hrun & _). eauto.
  - intros Hneg. unfold create_flat_disc, linspace_open.
    destruct (Z.ltb_spec resolution 0); [|lia]. cbn. eauto.
  - intros mesh Hrun.
    destruct (create_flat_disc_vertices _ _ _ _ _ Hrun) as (rim & Hv & Hlen & _).
    destruct (create_flat_disc_shape center radius normal 0 ltac:(lia))
      as (mesh' & Hrun' & _ & Htri).
    rewrite Hrun in Hrun'. injection Hrun' as <-.
    destruct rim; [|cbn in Hlen; lia]. split; [exact Hv|exact Htri].
Qed.

Lemma norm_vscale_pos k u : 0 < k -> norm (vscale k u) = k * norm u.
Proof.
  intros Hk. unfold norm.
  replace (dot (vscale k u) (vscale k u)) with (k * k * dot u u)
    by (destruct u as [[a b] c]; cbn; ring).
  rewrite sqrt_mult by (try apply dot_nonneg; nra).
  rewrite sqrt_square by lra. reflexivity.
Qed.

Lemma unit_normal_vscale k normal : 0 < k -> unit_normal (vscale k normal) = unit_normal normal.
Proof.
  intros Hk. unfold unit_normal. rewrite norm_vscale_pos by exact Hk.
  unfold Reqb. destruct (Req_dec_T (norm normal) 0) as [Hz|Hnz].
  - rewrite Hz, Rmult_0_r. destruct (Req_dec_T 0 0); [reflexivity|congruence].
  - destruct (Req_dec_T (k * norm normal) 0) as [Hz'|_]; [nra|].
    destruct normal as [[a b] c]. cbn [vscale vdiv].
    f_equal; [f_equal|]; field; split; lra.
Qed.

Lemma unit_normal_zero : unit_normal (0, 0, 0) = (0, 0, 1).
Proof.
  unfold unit_normal.
  replace (norm (0, 0, 0)) with 0.
  - unfold Reqb. destruct (Req_dec_T 0 0); [reflexivity|congruence].
  - unfold norm. cbn. replace (0 * 0 + 0 * 0 + 0 * 0) with 0 by ring. now rewrite sqrt_0.
Qed.

Lemma unit_normal_z : unit_normal (0, 0, 1) = (0, 0, 1).
Proof.
  unfold unit_normal. rewrite norm_z_axis.
  unfold Reqb. destruct (Req_dec_T 1 0); [lra|]. cbn. f_equal; [f_equal|]; field.
Qed.

Lemma create_flat_disc_unit_normal center radius n n' resolution :
  unit_normal n = unit_normal n' ->
  create_flat_disc center radius n resolution = create_flat_disc center radius n' resolution.
Proof. intros Heq. unfold create_flat_disc. now rewrite Heq. Qed.

(** X22.  Only the direction of the normal matters to the disc: stretching
    the normal by a positive factor gives the same mesh.  A zero normal is
    read as the z axis, and the disc then lies flat, every vertex at the
    height of the centre. *)
Theorem X22_disc_depends_only_on_the_direction_of_the_normal
    center radius normal resolution :
  (forall k, 0 < k ->
     create_flat_disc center radius (vscale k normal) resolution
     = create_flat_disc center radius normal resolution)
  /\ create_flat_disc center radius (0, 0, 0) resolution
     = create_flat_disc center radius (0, 0, 1) resolution
  /\ forall mesh,
       create_flat_disc center radius (0, 0, 0) resolution = Ok mesh ->
       Forall (fun v => coord_z v = coord_z center) (vertices mesh).
Proof.
  split; [|split].
  - intros k Hk. apply create_flat_disc_unit_normal, unit_normal_vscale, Hk.
  - apply create_flat_disc_unit_normal. now rewrite unit_normal_zero, unit_normal_z.
  - intros mesh. unfold create_flat_disc. rewrite unit_normal_zero.
    unfold linspace_open. destruct (resolution <? 0)%Z; [discriminate|].
    cbn [mbind result_bind].
    assert (Hrot : disc_rotation (0, 0, 1) = None).
    { unfold disc_rotation, allclose, z_axis. now rewrite !isclose_refl. }
    rewrite Hrot. intros [= <-]. cbn [mesh_translate vertices].
    destruct center as [[cx cy] cz]. constructor.
    + cbn. ring.
    + apply List.Forall_forall. intros v Hin.
      apply in_map_iff in Hin as (u & <- & Hin).
      apply in_map_iff in Hin as (a & <- & _). cbn. ring.
Qed.

End DiscTheorems.

(** * The application's wrapper *)

Import App.

Lemma string_app_nonempty (a b : string) : b <> "" -> a +:+ b <> "".
Proof. intros Hb. destruct a; [exact Hb|discriminate]. Qed.

Lemma path_join_nonempty a b : path_join a b <> "".
Proof. unfold path_join. apply string_app_nonempty. discriminate. Qed.

Lemma grows_bind {A B} (m : M A) (f : A -> M B) :
  grows_plots m -> (forall a, grows_plots (f a)) -> grows_plots (m ≫= f).
Proof.
  intros Hm Hf w. unfold mbind, M_bind. destruct (Hm w) as [e1 He1].
  destruct (m w) as [[a|e|] w']; cbn [snd] in *; [|eauto|eauto].
  destruct (Hf a w') as [e2 He2]. exists (e1 ++ e2).
  rewrite He2, He1. now rewrite app_assoc.
Qed.

Lemma grows_ret {A} (a : A) : grows_plots (mret a).
Proof. intros w. exists []. cbn. now rewrite app_nil_r. Qed.

Lemma grows_lift {A} (r : result A) : grows_plots (lift r).
Proof. intros w. exists []. cbn. now rewrite app_nil_r. Qed.

Lemma grows_status_callback msg : grows_plots (status_callback msg).
Proof. intros w. exists []. cbn. now rewrite app_nil_r. Qed.

Lemma grows_print_exc e : grows_plots (print_exc e).
Proof. intros w. exists []. cbn. now rewrite app_nil_r. Qed.

Lemma grows_try_except {A} (body : M A) (handler : exn -> M A) :
  grows_plots body -> (forall e, grows_plots (handler e)) ->
  grows_plots (try_except body handler).
Proof.
  intros Hb Hh w. unfold try_except. destruct (Hb w) as [e1 He1].
  destruct (body w) as [[a|e|] w']; cbn [snd] in *; [eauto| |eauto].
  destruct (Hh e w') as [e2 He2]. exists (e1 ++ e2).
  rewrite He2, He1. now rewrite app_assoc.
Qed.

Section WrapperFacts.
Context {image : ImageLib} {meshes : MeshLib} {files : FileLib}.

Lemma grows_compute_centerline_metrics mask affine name destination_folder patient_id :
  grows_plots (compute_centerline_metrics mask affine name destination_folder patient_id).
Proof.
  unfold compute_centerline_metrics.
  repeat match goal with
         | |- grows_plots (if ?c then _ else _) => destruct c
         | |- grows_plots (let '(_, _) := ?x in _) => destruct x
         | |- grows_plots (mret _) => apply grows_ret
         end.
  apply grows_bind; [|intros plot_path; apply grows_lift].
  intros w. eexists. reflexivity.
Qed.

Lemma grows_reconstruct_mesh mask affine voxel_spacing name vessel_results :
  grows_plots (reconstruct_mesh mask affine voxel_spacing name vessel_results).
Proof.
  unfold reconstruct_mesh.
  apply grows_bind; [apply grows_status_callback|intros _].
  apply grows_bind; [apply grows_lift|intros [verts faces]].
  destruct (compute_mesh_metrics _) as [[[? ?] ?] ?]. apply grows_ret.
Qed.

Lemma grows_analyse_centerline mask affine name destination_folder patient_id
    vessel_results :
  grows_plots (analyse_centerline mask affine name destination_folder patient_id
                 vessel_results).
Proof.
  unfold analyse_centerline.
  apply grows_bind; [apply grows_status_callback|intros _].
  apply grows_bind; [apply grows_compute_centerline_metrics|intros [ca|]];
    [|apply grows_ret].
  apply grows_bind; [apply grows_lift|intros disc; apply grows_ret].
Qed.

Lemma grows_score_quality points point_labels label_idx name mesh vessel_results :
  grows_plots (score_quality points point_labels label_idx name mesh vessel_results).
Proof.
  unfold score_quality.
  destruct points; [|apply grows_ret]. destruct point_labels; [|apply grows_ret].
  destruct (existsb _ _); [|apply grows_ret].
  apply grows_bind; [apply grows_status_callback|intros _].
  apply grows_bind; [apply grows_lift|intros q; apply grows_ret].
Qed.

Lemma grows_vessel_try_body new_seg_scan affine voxel_spacing points point_labels
    destination_folder patient_id mask label_idx name vessel_results results :
  grows_plots (vessel_try_body new_seg_scan affine voxel_spacing points point_labels
                 destination_folder patient_id mask label_idx name vessel_results
                 results).
Proof.
  unfold vessel_try_body.
  apply grows_bind; [apply grows_reconstruct_mesh|intros [vr mesh]].
  apply grows_bind; [apply grows_analyse_centerline|intros vr2].
  apply grows_bind; [apply grows_score_quality|intros vr3; apply grows_ret].
Qed.

Lemma grows_process_vessel new_seg_scan affine voxel_spacing points point_labels
    destination_folder patient_id results label_idx name :
  grows_plots (process_vessel new_seg_scan affine voxel_spacing points point_labels
                 destination_folder patient_id results label_idx name).
Proof.
  unfold process_vessel.
  apply grows_bind; [apply grows_status_callback|intros _].
  destruct (negb _); [apply grows_ret|].
  apply grows_try_except; [apply grows_vessel_try_body|intros e].
  apply grows_bind; [apply grows_status_callback|intros _].
  apply grows_bind; [apply grows_print_exc|intros _; apply grows_ret].
Qed.

(** The plot path the centerline stage leaves in a record names a plot
    written during that stage. *)
Lemma analyse_centerline_plot mask affine name destination_folder patient_id
    m0 vm w vr w' :
  analyse_centerline mask affine name destination_folder patient_id
    (mkVessel (Some m0) None None vm None None) w = (Ok vr, w') ->
  plot_written w w' vr.
Proof.
  unfold analyse_centerline. intros Hrun.
  apply bind_Ok_inv in Hrun as (u & w1 & Hst & Hrun).
  apply bind_Ok_inv in Hrun as ([ca|] & w2 & Hcm & Hrun).
  - apply bind_Ok_inv in Hrun as (disc & w3 & Hdisc & Hrun).
    unfold status_callback in Hst. injection Hst as _ Hw1.
    unfold lift in Hdisc. injection Hdisc as _ Hw3.
    injection Hrun as Hvr Hw'. rewrite <- Hvr, <- Hw', <- Hw3.
    intros p. cbn [v_diameter_plot_path]. intros [= <-].
    destruct (compute_centerline_metrics_cases mask affine name destination_folder
                patient_id w1)
      as [[_ Hnone]|(_ & _ & _ & _ & Hstage & Hne)]; [congruence|].
    rewrite (compute_centerline_metrics_run _ _ _ _ _ _ _ _ _ Hstage Hne) in Hcm.
    injection Hcm as Hprof Hw2.
    destruct (centerline_from_profile_stats _ _ _ _ _ _ _ _ Hprof) as [_ <-].
    split; [apply path_join_nonempty|].
    eexists [_], _. rewrite <- Hw2, <- Hw1. cbn [with_plot plots].
    split; [reflexivity|]. split; [now left|reflexivity].
  - injection Hrun as <- _. intros p [=].
Qed.

Lemma vessel_try_body_plot new_seg_scan affine voxel_spacing points point_labels
    destination_folder patient_id mask label_idx name results w r w' :
  vessel_try_body new_seg_scan affine voxel_spacing points point_labels
    destination_folder patient_id mask label_idx name empty_vessel results w = (Ok r, w') ->
  exists vd,
    r = set_vessels results (<[name := vd]> (vessels results)) /\ plot_written w w' vd.
Proof.
  intros Hrun. pose proof Hrun as Hbody. unfold vessel_try_body in Hrun.
  apply bind_Ok_inv in Hrun as ([vr1 mesh] & w1 & Hrec & Hrun).
  apply bind_Ok_inv in Hrun as (vr2 & w2 & Hcl & Hrun).
  apply bind_Ok_inv in Hrun as (vr3 & w3 & Hq & Hrun).
  injection Hrun as <- <-. exists vr3. split; [reflexivity|].
  pose proof Hrec as Hrec'.
  apply reconstruct_mesh_Ok_inv in Hrec' as (m0 & surface & volume & watertight & -> & _).
  apply analyse_centerline_plot in Hcl.
  assert (Hpath : v_diameter_plot_path vr3 = v_diameter_plot_path vr2).
  { apply score_quality_Ok_inv in Hq
      as [[-> _]|(q & pts & labels & _ & _ & _ & ->)]; reflexivity. }
  assert (Hg1 : exists e1, plots w1 = plots w ++ e1).
  { pose proof (grows_reconstruct_mesh mask affine voxel_spacing name empty_vessel w)
      as Hg. now rewrite Hrec in Hg. }
  assert (Hg3 : exists e3, plots w3 = plots w2 ++ e3).
  { match type of Hq with
    | ?m w2 = _ => assert (Hg : grows_plots m) by apply grows_score_quality;
                   specialize (Hg w2); now rewrite Hq in Hg
    end. }
  destruct Hg1 as [e1 He1], Hg3 as [e3 He3].
  intros p Hp. rewrite Hpath in Hp.
  destruct (Hcl p Hp) as (Hne & extra & plot & Hex & Hin & Hfile).
  split; [exact Hne|]. exists (e1 ++ extra ++ e3), plot.
  split; [rewrite He3, Hex, He1; now rewrite <- !app_assoc|].
  split; [|exact Hfile]. apply in_or_app. right. apply in_or_app. now left.
Qed.

Lemma process_vessel_Ok_body new_seg_scan affine voxel_spacing points point_labels
    destination_folder patient_id results label_idx name w r w' :
  process_vessel new_seg_scan affine voxel_spacing points point_labels
    destination_folder patient_id results label_idx name w = (Ok r, w') ->
  r = results
  \/ vessel_try_body new_seg_scan affine voxel_spacing points point_labels
       destination_folder patient_id (eq_label new_seg_scan label_idx) label_idx name
       empty_vessel results (say w (processing_msg name label_idx)) = (Ok r, w').
Proof.
  destruct (np_any (eq_label new_seg_scan label_idx)) eqn:Hmask.
  - rewrite process_vessel_nonempty by exact Hmask.
    destruct (vessel_try_body _ _ _ _ _ _ _ _ _ _ _ _ _) as [[r1|e|] w1] eqn:Hbody.
    + intros [= <- <-]. now right.
    + intros [= <- _]. now left.
    + discriminate.
  - rewrite process_vessel_empty_mask by exact Hmask. intros [= <- _]. now left.
Qed.

Lemma plot_written_later w0 w w' vd :
  (exists e, plots w' = plots w ++ e) -> plot_written w0 w vd -> plot_written w0 w' vd.
Proof.
  intros [e He] Hw p Hp. destruct (Hw p Hp) as (Hne & extra & plot & Hex & Hin & Hfile).
  split; [exact Hne|]. exists (extra ++ e), plot.
  split; [rewrite He, Hex; now rewrite app_assoc|].
  split; [apply in_or_app; now left|exact Hfile].
Qed.

Lemma plot_written_from w0 w w' vd :
  (exists e, plots w = plots w0 ++ e) -> plot_written w w' vd -> plot_written w0 w' vd.
Proof.
  intros [e He] Hw p Hp. destruct (Hw p Hp) as (Hne & extra & plot & Hex & Hin & Hfile).
  split; [exact Hne|]. exists (e ++ extra), plot.
  split; [rewrite Hex, He; now rewrite app_assoc|].
  split; [apply in_or_app; now right|exact Hfile].
Qed.

Lemma vessel_loop_plots new_seg_scan affine voxel_spacing points point_labels
    destination_folder patient_id w0 todo : forall results w r w',
  (exists e, plots w = plots w0 ++ e) ->
  map_Forall (fun _ => plot_written w0 w) (vessels results) ->
  vessel_loop new_seg_scan affine voxel_spacing points point_labels
    destination_folder patient_id todo results w = (Ok r, w') ->
  (exists e, plots w' = plots w0 ++ e)
  /\ map_Forall (fun _ => plot_written w0 w') (vessels r).
Proof.
  induction todo as [|[l [c n]] todo IH]; intros results w r w' Hpre Hres Hloop.
  - injection Hloop as <- <-. auto.
  - cbn [vessel_loop] in Hloop.
    apply bind_Ok_inv in Hloop as (r1 & w1 & Hstep & Hloop).
    pose proof (grows_process_vessel new_seg_scan affine voxel_spacing points point_labels
                  destination_folder patient_id results l n w) as Hgrow.
    rewrite Hstep in Hgrow. cbn [snd] in Hgrow.
    assert (Hpre1 : exists e, plots w1 = plots w0 ++ e).
    { destruct Hpre as [e He], Hgrow as [e' He']. exists (e ++ e').
      rewrite He', He. now rewrite app_assoc. }
    apply (IH r1 w1 r w' Hpre1); [|exact Hloop].
    assert (Hold : map_Forall (fun _ => plot_written w0 w1) (vessels results)).
    { intros k vd Hk. eapply plot_written_later; [exact Hgrow|]. now apply (Hres k). }
    apply process_vessel_Ok_body in Hstep as [->|Hbody]; [exact Hold|].
    apply vessel_try_body_plot in Hbody as (vd & -> & Hvd).
    cbn [set_vessels vessels]. apply map_Forall_insert_2; [|exact Hold].
    eapply plot_written_from; [|exact Hvd]. exact Hpre.
Qed.

Lemma analysis_plots scan_nifti_file segmentation_file pointcloud_file
    destination_folder patient_id w r w' :
  enhanced_vessel_reconstruction_analysis scan_nifti_file segmentation_file
    pointcloud_file destination_folder patient_id w = (Ok r, w') ->
  (exists e, plots w' = plots w ++ e)
  /\ map_Forall (fun _ => plot_written w w') (vessels r).
Proof.
  assert (Hnil : forall w1 : world, plots w1 = plots w -> exists e, plots w1 = plots w ++ e)
    by (intros w1 ->; exists []; now rewrite app_nil_r).
  rewrite analysis_run.
  destruct (load_segmentation segmentation_file) as [new_seg_scan|e];
    [|intros [= <- <-]; split; [now apply Hnil|apply map_Forall_empty]].
  cbv zeta.
  assert (Hw1 : plots match load_pointcloud pointcloud_file with
                      | Raises e => say (say w "Loading data...") (pcd_warning_msg e)
                      | Returns _ => say w "Loading data..."
                      end = plots w)
    by (destruct (load_pointcloud pointcloud_file); reflexivity).
  destruct (load_affine scan_nifti_file) as [affine|e];
    [|intros [= <- <-]; split; [now apply Hnil|apply map_Forall_empty]].
  destruct (linalg_inv affine) as [inv_affine|e];
    [|intros [= <- <-]; split; [now apply Hnil|apply map_Forall_empty]].
  assert (Hfinish : forall points point_labels loop,
            (forall r0 wl, loop = (Ok r0, wl) ->
               (exists e, plots wl = plots w ++ e)
               /\ map_Forall (fun _ => plot_written w wl) (vessels r0)) ->
            finish_analysis points point_labels loop = (Ok r, w') ->
            (exists e, plots w' = plots w ++ e)
            /\ map_Forall (fun _ => plot_written w w') (vessels r)).
  { intros points point_labels [[r0|e|] wl] Hloop; cbn [finish_analysis];
      [|discriminate|discriminate].
    destruct (Hloop r0 wl eq_refl) as [Hpre Hall].
    intros [= <- <-]. split; [exact Hpre|].
    assert (Hsame : map_Forall (fun _ => plot_written w (say wl "Analysis complete!"))
                      (vessels r0)).
    { intros k vd Hk. apply (plot_written_later w wl); [|now apply (Hall k)].
      exists []. cbn. now rewrite app_nil_r. }
    destruct points, point_labels; exact Hsame. }
  destruct (load_pointcloud pointcloud_file) as [points|e].
  - destruct (label_points new_seg_scan inv_affine points) as [labels|e|];
      [|discriminate|discriminate].
    apply Hfinish. intros r0 wl Hloop.
    eapply vessel_loop_plots; [| |exact Hloop]; [now apply Hnil|apply map_Forall_empty].
  - apply Hfinish. intros r0 wl Hloop.
    eapply vessel_loop_plots; [| |exact Hloop]; [now apply Hnil|apply map_Forall_empty].
Qed.

Lemma saved_plot_found extra plot :
  In plot extra ->
  exists plot', saved_plot extra (plot_file plot) = Some plot'
                /\ In plot' extra /\ plot_file plot' = plot_file plot.
Proof.
  intros Hin. unfold saved_plot.
  destruct (List.find _ (rev extra)) as [plot'|] eqn:Hfind.
  - apply find_some in Hfind as [Hin' Heq]. apply String.eqb_eq in Heq.
    exists plot'. split; [reflexivity|]. split; [now apply in_rev|exact Heq].
  - apply in_rev in Hin. apply (find_none _ _ Hfind plot) in Hin.
    rewrite String.eqb_refl in Hin. discriminate.
Qed.

(** X23.  What the application's wrapper adds to the result of the analysis:
    nothing but the bytes of the diameter plots.  Since the analysis writes
    into the temporary directory of the wrapper, the plot of every record
    that names one is found there: a record comes back with plot bytes
    exactly when it holds centerline metrics, and the bytes are those of a
    plot of this run saved under the record's plot path. *)
Theorem X23_run_analysis_attaches_the_plot_of_every_vessel_that_has_one
    png nifti_path seg_path pcd_path patient_id nifti_mtime seg_mtime pcd_mtime
    temp_dir w r w' :
  run_analysis png nifti_path seg_path pcd_path patient_id
    nifti_mtime seg_mtime pcd_mtime temp_dir w = (Ok r, w') ->
  exists r0 w0,
    enhanced_vessel_reconstruction_analysis nifti_path seg_path pcd_path temp_dir
      patient_id w = (Ok r0, w0)
    /\ point_cloud r = point_cloud r0
    /\ (forall name, vessels r !! name = None <-> vessels r0 !! name = None)
    /\ forall name vd,
         vessels r !! name = Some vd ->
         exists vd0,
           vessels r0 !! name = Some vd0
           /\ v_mesh vd = v_mesh vd0 /\ v_centerline vd = v_centerline vd0
           /\ v_max_diameter_disc vd = v_max_diameter_disc vd0
           /\ v_metrics vd = v_metrics vd0
           /\ v_diameter_plot_path vd = v_diameter_plot_path vd0
           /\ (is_Some (v_diameter_plot_bytes vd)
               <-> is_Some (m_centerline (v_metrics vd)))
           /\ forall bytes,
                v_diameter_plot_bytes vd = Some bytes ->
                exists plot,
                  In plot (plots w0)
                  /\ v_diameter_plot_path vd = Some (plot_file plot)
                  /\ bytes = png plot.
Proof.
  unfold run_analysis.
  destruct (enhanced_vessel_reconstruction_analysis _ _ _ _ _ w) as [[r0|e|] w0] eqn:Hrun;
    [|discriminate|discriminate].
  intros [= <- _]. exists r0, w0. split; [reflexivity|]. cbn [point_cloud vessels].
  split; [reflexivity|]. split.
  { intros name. rewrite lookup_fmap. destruct (vessels r0 !! name); cbn; split; congruence. }
  intros name vd. rewrite lookup_fmap.
  destruct (vessels r0 !! name) as [vd0|] eqn:Hlook; [|discriminate].
  cbn [fmap option_fmap option_map]. intros [= <-]. exists vd0. split; [reflexivity|].
  destruct (analysis_records _ _ _ _ _ _ _ _ Hrun) as (points & pls & Hall & _).
  destruct (Hall name vd0 Hlook) as (l & c & _ & _ & [Hbytes Hcl] & _).
  destruct (analysis_plots _ _ _ _ _ _ _ _ Hrun) as [_ Hplots].
  specialize (Hplots name vd0 Hlook).
  unfold attach_plot_bytes.
  destruct (v_diameter_plot_path vd0) as [p|] eqn:Hp.
  - destruct (Hplots p Hp) as (Hne & extra & plot & Hex & Hin & Hfile).
    destruct (String.eqb_spec p "") as [->|_]; [congruence|].
    cbn [v_mesh v_centerline v_max_diameter_disc v_metrics v_diameter_plot_path
         v_diameter_plot_bytes].
    rewrite Hex, drop_app_length.
    destruct (saved_plot_found extra plot Hin) as (plot' & Hsaved & Hin' & Hfile').
    rewrite <- Hfile, Hsaved. cbn [fmap option_fmap option_map].
    repeat split; auto.
    + intros _. destruct Hcl as [(_ & Hnone & _)|(cm & ? & ? & ? & -> & _)];
        [congruence|eexists; reflexivity].
    + intros bytes [= <-]. exists plot'. split; [|split; [congruence|reflexivity]].
      apply in_or_app. now right.
  - repeat split; auto.
    + rewrite Hbytes. intros [? [=]].
    + destruct Hcl as [(-> & _)|(cm & path & ? & ? & _ & Hpath & _)];
        [intros [? [=]]|congruence].
    + rewrite Hbytes. discriminate.
Qed.

End WrapperFacts.

Lemma X23_run_analysis_attaches_the_plot_of_every_vessel_that_has_one_witness :
  exists r w',
    @run_analysis two_rods_lib mesh_lib file_lib_two_rods (fun _ => [])
      "scan.nii.gz" "seg.npz" "points.npz" "patient" 0 0 0 "tmp" world0 = (Ok r, w')
    /\ exists r0 w0,
         @enhanced_vessel_reconstruction_analysis two_rods_lib mesh_lib file_lib_two_rods
           "scan.nii.gz" "seg.npz" "points.npz" "tmp" "patient" world0 = (Ok r0, w0)
         /\ point_cloud r = point_cloud r0.
Proof.
  destruct (@analysis_returns two_rods_lib mesh_lib file_lib_two_rods
              "scan.nii.gz" "seg.npz" "points.npz" "tmp" "patient" two_rods_volume world0
              eq_refl) as (r0 & w0 & Hrun & _).
  { intros points affine inv_affine Hpcd. discriminate. }
  assert (Hwrap : exists r w',
            @run_analysis two_rods_lib mesh_lib file_lib_two_rods (fun _ => [])
              "scan.nii.gz" "seg.npz" "points.npz" "patient" 0 0 0 "tmp" world0
            = (Ok r, w'))
    by (unfold run_analysis; rewrite Hrun; eauto).
  destruct Hwrap as (r & w' & Hwrap). exists r, w'. split; [exact Hwrap|].
  destruct (@X23_run_analysis_attaches_the_plot_of_every_vessel_that_has_one
              two_rods_lib mesh_lib file_lib_two_rods (fun _ => [])
              _ _ _ _ _ _ _ _ _ _ _ Hwrap) as (r1 & w1 & Hrun1 & Hpc & _).
  exists r1, w1. split; assumption.
Defined.

(** * The files of the diameter plots *)




Section PlotFileTheorems.
Context {image : ImageLib} {meshes : MeshLib} {files : FileLib}.






End PlotFileTheorems.



(** * Why a vessel is dropped *)


Section DropTheorems.
Context {image : ImageLib} {meshes : MeshLib}.




End DropTheorems.


(** * The orientation of the disc *)

Section DiscOrientation.
Import Disc.

Lemma rodrigues_cross k c s u v :
  dot k k = 1 -> c * c + s * s = 1 ->
  mat3_apply (rodrigues k c s) (cross u v)
  = cross (mat3_apply (rodrigues k c s) u) (mat3_apply (rodrigues k c s) v).
Proof.
  destruct k as [[k1 k2] k3], u as [[u1 u2] u3], v as [[v1 v2] v3].
  cbn. intros Hk Hcs. f_equal; [f_equal|]; nsatz.
Qed.


Lemma disc_rotation_cross n M :
  dot n n = 1 -> disc_rotation n = Some M ->
  forall u v, mat3_apply M (cross u v) = cross (mat3_apply M u) (mat3_apply M v).
Proof.
  intros Hn. unfold disc_rotation.
  destruct (allclose n z_axis) eqn:Hz; cbn [negb]; [discriminate|].
  intros [= <-].
  destruct n as [[a b] c]. cbn [cross dot z_axis vneg] in *.
  assert (Hc : -1 <= c <= 1) by (split; nra).
  replace (0 * a + 0 * b + 1 * c) with c by ring.
  replace (0 * c - 1 * b) with (- b) by ring.
  replace (1 * a - 0 * c) with a by ring.
  replace (0 * b - 0 * a) with 0 by ring.
  rewrite clip_id by exact Hc.
  set (w := (- b, a, 0)).
  assert (Hcr : dot w w = a * a + b * b) by (cbn; ring).
  pose proof (norm_sqr w) as Hsq. rewrite Hcr in Hsq.
  unfold Reqb. destruct (Req_dec_T (norm w) 0) as [E|NE].
  - rewrite E in Hsq.
    assert (a = 0) by nra. assert (b = 0) by nra. subst a b.
    assert (Hcc : c = 1 \/ c = -1).
    { assert (H : (c - 1) * (c + 1) = 0) by nra.
      destruct (Rmult_integral _ _ H); [left|right]; lra. }
    destruct Hcc as [-> | ->].
    + exfalso. cbn [allclose z_axis] in Hz. rewrite !isclose_refl in Hz. discriminate.
    + replace (allclose (0, 0, -1) (- 0, - 0, - (1))) with true.
      2:{ cbn [allclose]. replace (- 0) with 0 by ring.
          now rewrite !isclose_refl. }
      replace (acos (-1)) with PI
        by (replace (-1) with (Ropp 1) by lra; rewrite acos_opp, acos_1; ring).
      rewrite rotation_of_unit_axis by (cbn; try ring; apply PI_RGT_0).
      rewrite cos_PI, sin_PI.
      intros u v. apply rodrigues_cross; [cbn|]; ring.
  - set (s := norm w) in *.
    assert (Hs0 : 0 <= s) by apply sqrt_pos.
    assert (Hspos : 0 < s) by lra.
    assert (Hk : dot (vdiv w s) (vdiv w s) = 1).
    { cbn. apply Rmult_eq_reg_r with (r := s * s); [|nra].
      field_simplify; [|lra]. nra. }
    assert (Hss : 0 < s * s) by nra.
    assert (Hcc : c * c < 1) by lra.
    assert (Hclt : -1 < c < 1) by (clear - Hcc; split; nra).
    assert (Hsin : sin (acos c) = s).
    { rewrite sin_acos by exact Hc. unfold Rsqr. apply sqrt_lem_1; lra. }
    rewrite rotation_of_unit_axis; [|exact Hk|apply acos_bound_lt; exact Hclt].
    rewrite cos_acos by exact Hc. rewrite Hsin.
    intros u v. apply rodrigues_cross; [exact Hk|]. nra.
Qed.

Lemma mat3_apply_vscale M t v : mat3_apply M (vscale t v) = vscale t (mat3_apply M v).
Proof.
  destruct M as [[[[m11 m12] m13] [[m21 m22] m23]] [[m31 m32] m33]], v as [[x y] z].
  cbn. f_equal; [f_equal|]; ring.
Qed.

Lemma vsub_translated x y c : vsub (vadd x c) (vadd y c) = vsub x y.
Proof.
  destruct x as [[x1 x2] x3], y as [[y1 y2] y3], c as [[c1 c2] c3]. cbn.
  f_equal; [f_equal|]; ring.
Qed.

Lemma vsub_zero x : vsub x (0, 0, 0) = x.
Proof. destruct x as [[x1 x2] x3]. cbn. f_equal; [f_equal|]; ring. Qed.

(** Two points of the flat circle, at the angles [a] and [b]. *)
Lemma cross_circle_points radius a b :
  cross (vscale radius (cos a, sin a, 0)) (vscale radius (cos b, sin b, 0))
  = vscale (radius * radius * sin (b - a)) z_axis.
Proof.
  rewrite sin_minus. unfold z_axis. cbn. f_equal; [f_equal|]; ring.
Qed.

(** The vertices of the flat fan. *)
Lemma range_lookup a b k :
  (k < Z.to_nat (b - a))%nat -> range a b !! k = Some (a + Z.of_nat k)%Z.
Proof.
  intros Hk. unfold range. rewrite list_lookup_fmap.
  rewrite (lookup_seq_lt _ _ _ Hk). reflexivity.
Qed.

Lemma range_lookup_inv a b k i : range a b !! k = Some i -> i = (a + Z.of_nat k)%Z.
Proof.
  unfold range. rewrite list_lookup_fmap. intros Hlook.
  destruct (seq 0 (Z.to_nat (b - a)) !! k) as [j|] eqn:Hj; [|discriminate].
  apply lookup_seq in Hj as [-> _]. cbn in Hlook. congruence.
Qed.

Lemma sin_step (resolution : Z) (k : Z) :
  (1 <= resolution)%Z ->
  sin (IZR (k + 1) * (2 * PI / IZR resolution) - IZR k * (2 * PI / IZR resolution))
  = sin (2 * PI / IZR resolution).
Proof.
  intros Hres. f_equal. rewrite plus_IZR. ring.
Qed.

Lemma sin_wrap (resolution : Z) :
  (1 <= resolution)%Z ->
  sin (IZR 0 * (2 * PI / IZR resolution)
       - IZR (resolution - 1) * (2 * PI / IZR resolution))
  = sin (2 * PI / IZR resolution).
Proof.
  intros Hres.
  assert (Hr : IZR resolution <> 0) by (apply not_0_IZR; lia).
  replace (IZR 0 * (2 * PI / IZR resolution)
           - IZR (resolution - 1) * (2 * PI / IZR resolution))
    with (2 * PI / IZR resolution - 2 * PI)
    by (rewrite minus_IZR; field; exact Hr).
  unfold Rminus. rewrite <- (sin_period _ 1). f_equal. unfold INR. ring.
Qed.


Lemma fan_lookup {A B} (T : A -> B) (zero : A) (pt : Z -> A) resolution j v :
  (0 <= j)%Z ->
  map T (zero :: map pt (range 0 resolution)) !! Z.to_nat j = Some v ->
  (j = 0%Z /\ v = T zero) \/ ((1 <= j <= resolution)%Z /\ v = T (pt (j - 1)%Z)).
Proof.
  intros Hj Hlook.
  change (map T (zero :: map pt (range 0 resolution)))
    with (T <$> (zero :: (pt <$> range 0 resolution))) in Hlook.
  rewrite list_lookup_fmap in Hlook.
  destruct (Z.to_nat j) as [|k] eqn:Hk.
  - left. cbn in Hlook. split; [lia|congruence].
  - right.
    change ((zero :: (pt <$> range 0 resolution)) !! S k)
      with ((pt <$> range 0 resolution) !! k) in Hlook.
    rewrite list_lookup_fmap in Hlook.
    destruct (range 0 resolution !! k) as [i|] eqn:Hi; [|discriminate].
    pose proof (lookup_lt_Some _ _ _ Hi) as Hlt. rewrite length_range in Hlt.
    apply range_lookup_inv in Hi. cbn in Hlook. injection Hlook as <-.
    split; [lia|]. do 2 f_equal. lia.
Qed.

(** The triangles of a fan whose rim points are turned by [Rf]. *)
Lemma fan_triangles (Rf : vec3 -> vec3) (facing center : vec3) radius resolution :
  Rf (0, 0, 0) = (0, 0, 0) ->
  (forall a b,
     cross (Rf (vscale radius (cos a, sin a, 0))) (Rf (vscale radius (cos b, sin b, 0)))
     = vscale (radius * radius * sin (b - a)) facing) ->
  forall a b c va vb vc,
    In (a, b, c) (map (fun i => (0, i, i + 1)%Z) (range 1 resolution)
                  ++ [(0, resolution, 1)%Z]) ->
    let vertices :=
      map (fun x => vadd (Rf x) center)
          ((0, 0, 0)
           :: map (fun i => vscale radius (cos (IZR i * (2 * PI / IZR resolution)),
                                            sin (IZR i * (2 * PI / IZR resolution)), 0))
                  (range 0 resolution)) in
    vertices !! Z.to_nat a = Some va ->
    vertices !! Z.to_nat b = Some vb ->
    vertices !! Z.to_nat c = Some vc ->
    cross (vsub vb va) (vsub vc va)
    = vscale (radius * radius * sin (2 * PI / IZR resolution)) facing.
Proof.
  intros Hzero Hcross a b c va vb vc Hin. cbv zeta. intros Ha Hb Hc.
  assert (Hcase : (a = 0%Z /\ (1 <= b < resolution)%Z /\ c = (b + 1)%Z)
                  \/ (a = 0%Z /\ b = resolution /\ c = 1%Z)).
  { apply in_app_or in Hin as [Hin|[[= <- <- <-]|[]]]; [|now right].
    apply in_map_iff in Hin as (i & [= <- <- <-] & Hi). apply in_range in Hi.
    left. auto. }
  assert (Hva : va = vadd (0, 0, 0) center).
  { destruct Hcase as [(-> & _)|(-> & _)];
      apply fan_lookup in Ha as [[_ ->]|[? _]]; try lia; now rewrite Hzero. }
  subst va.
  assert (Hsub : forall x, vsub (vadd (Rf x) center) (vadd (0, 0, 0) center) = Rf x)
    by (intros x; now rewrite vsub_translated, vsub_zero).
  destruct Hcase as [(-> & Hb1 & ->)|(-> & -> & ->)].
  - apply fan_lookup in Hb as [[? _]|[_ ->]]; [lia| |lia].
    apply fan_lookup in Hc as [[? _]|[_ ->]]; [lia| |lia].
    rewrite !Hsub, Hcross. replace (b + 1 - 1)%Z with (b - 1 + 1)%Z by lia.
    rewrite sin_step by lia. reflexivity.
  - apply fan_lookup in Hc as [[? _]|[Hres ->]]; [lia| |lia].
    apply fan_lookup in Hb as [[? _]|[_ ->]]; [lia| |lia].
    rewrite !Hsub, Hcross. replace (1 - 1)%Z with 0%Z by lia.
    rewrite sin_wrap by lia. reflexivity.
Qed.

(** X26.  The disc faces along the normal.  With the hub as first corner,
    the cross product of the two edges of every triangle of the fan is the
    same vector: the direction the disc was turned to, scaled by
    [radius^2 * sin (2 pi / resolution)].  From a resolution of 3 on the
    factor is positive, so all triangles are wound the same way, counter-
    clockwise when seen from the tip of the normal; at resolution 1 or 2 it is
    zero and every triangle is flat.  The direction is the unit normal, or
    the z axis when the unit normal is so close to it that the rotation is
    skipped. *)
Theorem X26_every_triangle_of_the_disc_faces_along_the_normal
    center radius normal resolution mesh :
  norm normal <> 0 ->
  create_flat_disc center radius normal resolution = Ok mesh ->
  let facing :=
    if allclose (unit_normal normal) z_axis then z_axis else unit_normal normal in
  (forall a b c va vb vc,
     In (a, b, c) (triangles mesh) ->
     vertices mesh !! Z.to_nat a = Some va ->
     vertices mesh !! Z.to_nat b = Some vb ->
     vertices mesh !! Z.to_nat c = Some vc ->
     cross (vsub vb va) (vsub vc va)
     = vscale (radius * radius * sin (2 * PI / IZR resolution)) facing)
  /\ ((3 <= resolution)%Z -> 0 < sin (2 * PI / IZR resolution))
  /\ ((resolution = 1 \/ resolution = 2)%Z -> sin (2 * PI / IZR resolution) = 0).
Proof.
  intros Hn Hrun. cbv zeta. split; [|split].
  - pose proof (unit_normal_unit normal Hn) as Hunit.
    unfold create_flat_disc, linspace_open in Hrun.
    destruct (resolution <? 0)%Z; [discriminate|]. cbn [mbind result_bind] in Hrun.
    rewrite map_map in Hrun.
    destruct (disc_rotation (unit_normal normal)) as [M|] eqn:Hrot.
    + assert (Hfar : allclose (unit_normal normal) z_axis = false).
      { unfold disc_rotation in Hrot.
        destruct (allclose (unit_normal normal) z_axis); [discriminate|reflexivity]. }
      rewrite Hfar. injection Hrun as <-.
      cbn [mesh_translate mesh_rotate vertices triangles]. rewrite map_map.
      destruct (disc_rotation_spec _ _ Hunit Hrot) as [_ Hz].
      intros a b c va vb vc Hin.
      apply (fan_triangles (mat3_apply M) (unit_normal normal) center radius resolution);
        [apply mat3_apply_zero| |exact Hin].
      intros x y.
      rewrite <- (disc_rotation_cross _ _ Hunit Hrot), cross_circle_points.
      now rewrite mat3_apply_vscale, Hz.
    + apply disc_rotation_None in Hrot. rewrite Hrot. injection Hrun as <-.
      cbn [mesh_translate vertices triangles].
      intros a b c va vb vc Hin.
      apply (fan_triangles (fun x => x) z_axis center radius resolution);
        [reflexivity| |exact Hin].
      intros x y. apply cross_circle_points.
  - intros Hres.
    assert (Hr : 3 <= IZR resolution) by (apply IZR_le in Hres; exact Hres).
    pose proof PI_RGT_0 as Hpi.
    apply sin_gt_0.
    + apply Rdiv_lt_0_compat; lra.
    + apply Rmult_lt_reg_r with (IZR resolution); [lra|].
      unfold Rdiv. rewrite Rmult_assoc, Rinv_l by lra. nra.
  - intros [-> | ->].
    + replace (2 * PI / 1) with (2 * PI) by field. apply sin_2PI.
    + replace (2 * PI / 2) with PI by field. apply sin_PI.
Qed.

End DiscOrientation.

Lemma X26_every_triangle_of_the_disc_faces_along_the_normal_witness :
  exists mesh,
    Disc.create_flat_disc (0, 0, 0) 1 (0, 0, 1) 60 = Ok mesh
    /\ 0 < sin (2 * PI / 60).
Proof.
  destruct (create_flat_disc_shape (0, 0, 0) 1 (0, 0, 1) 60 ltac:(lia))
    as (mesh & Hrun & _).
  exists mesh. split; [exact Hrun|].
  assert (Hnorm : norm (0, 0, 1) <> 0) by (rewrite norm_z_axis; lra).
  destruct (X26_every_triangle_of_the_disc_faces_along_the_normal
              (0, 0, 0) 1 (0, 0, 1) 60 mesh Hnorm Hrun) as (_ & Hpos & _).
  apply Hpos. lia.
Defined.

(** * The reconstruction quality *)

Lemma np_mean_nonneg l : l <> [] -> Forall (fun x => 0 <= x) l -> 0 <= np_mean l.
Proof.
  intros Hne Hall. rewrite List.Forall_forall in Hall.
  destruct (np_max_spec l Hne) as [_ Hmax].
  apply (np_mean_bounds l 0 (np_max l) Hne). intros x Hx. split; [now apply Hall|now apply Hmax].
Qed.

Section QualityTheorems.
Context {meshes : MeshLib}.

(** X27.  The reconstruction quality, for a distance library that answers
    with one distance, not negative, per query point.  The answer is empty
    exactly when there are no points or the mesh has no vertices; otherwise
    the chamfer distance is the sum of two means, each over an array that is
    not empty, and it is not negative. *)
Theorem X27_chamfer_distance_is_not_negative_and_never_a_mean_of_nothing points mesh :
  (forall m pts d,
     scene_compute_distance m pts = Returns d ->
     length d = length pts /\ Forall (fun x => 0 <= x) d) ->
  (forall vs pts,
     length (compute_point_cloud_distance vs pts) = length vs
     /\ Forall (fun x => 0 <= x) (compute_point_cloud_distance vs pts)) ->
  (compute_reconstruction_quality_metrics points mesh = Ok None
   <-> points = [] \/ vertices mesh = [])
  /\ forall q,
       compute_reconstruction_quality_metrics points mesh = Ok (Some q) ->
       0 <= q
       /\ exists d1 d2,
            scene_compute_distance mesh points = Returns d1
            /\ d2 = compute_point_cloud_distance (vertices mesh) points
            /\ d1 <> [] /\ d2 <> []
            /\ q = np_mean d1 + np_mean d2.
Proof.
  intros Hscene Hcloud. unfold compute_reconstruction_quality_metrics, has_vertices.
  destruct points as [|p points]; [cbn; split; [tauto|discriminate]|].
  destruct (vertices mesh) as [|v vs] eqn:Hv; [cbn; split; [tauto|discriminate]|].
  cbn [length Nat.eqb negb orb].
  destruct (scene_compute_distance mesh (p :: points)) as [d1|e] eqn:Hd1;
    cbn [call mbind result_bind].
  - split; [split; [discriminate|intros [?|?]; discriminate]|].
    intros q [= <-].
    destruct (Hscene _ _ _ Hd1) as [Hlen1 Hpos1].
    destruct (Hcloud (v :: vs) (p :: points)) as [Hlen2 Hpos2].
    assert (Hne1 : d1 <> []) by (destruct d1; [discriminate|discriminate]).
    assert (Hne2 : compute_point_cloud_distance (v :: vs) (p :: points) <> [])
      by (destruct (compute_point_cloud_distance _ _); [discriminate|discriminate]).
    split.
    + pose proof (np_mean_nonneg _ Hne1 Hpos1). pose proof (np_mean_nonneg _ Hne2 Hpos2).
      lra.
    + eexists d1, _. repeat split; auto.
  - split; [split; [discriminate|intros [?|?]; discriminate]|discriminate].
Qed.

End QualityTheorems.

Lemma X27_chamfer_distance_is_not_negative_and_never_a_mean_of_nothing_witness :
  (@compute_reconstruction_quality_metrics mesh_lib [(0, 0, 0)]
     (mkMesh [(1, 0, 0)] []) = Ok None
   <-> [(0, 0, 0)] = [] \/ vertices (mkMesh [(1, 0, 0)] []) = [])
  /\ forall q,
       @compute_reconstruction_quality_metrics mesh_lib [(0, 0, 0)]
         (mkMesh [(1, 0, 0)] []) = Ok (Some q) ->
       0 <= q
       /\ exists d1 d2,
            @scene_compute_distance mesh_lib (mkMesh [(1, 0, 0)] []) [(0, 0, 0)]
            = Returns d1
            /\ d2 = @compute_point_cloud_distance mesh_lib
                      (vertices (mkMesh [(1, 0, 0)] [])) [(0, 0, 0)]
            /\ d1 <> [] /\ d2 <> []
            /\ q = np_mean d1 + np_mean d2.
Proof.
  apply (@X27_chamfer_distance_is_not_negative_and_never_a_mean_of_nothing mesh_lib).
  - intros m pts d [= <-]. split; [apply length_map|].
    apply List.Forall_forall. intros x Hx. apply in_map_iff in Hx as (? & <- & _). lra.
  - intros vs pts. split; [apply length_map|].
    apply List.Forall_forall. intros x Hx. apply in_map_iff in Hx as (? & <- & _). lra.
Defined.
